(** * JAM throughput simulator: a shallow embedding of its two variants

    The repository holds two near-duplicate simulators:
    - variant A, [scripts/simulation.py]   (module [VariantA]);
    - variant B, [tools/jam_datacenter_simulator.py] (module [VariantB]).

    Modelling conventions.
    - Python [int] and numpy [int64] values are [Z].  With the constants of
      the sources every intermediate value stays far below [2^63], so the
      wrap-around of [int64] is never reached.
    - Python [float] values are exact rationals [Q]: true division [/] is
      division in [Q]; binary64 rounding is abstracted away.  The one
      non-finite value the programs can produce, the mean of an empty series,
      is kept as [NaN].
    - The module-level constants ([C], [P], [T], ...) are the fields of a
      [Config] record; [VariantA.config] and [VariantB.config] carry the values
      written in the sources.
    - The process-wide generators of [random] and [numpy.random], the file
      system, the environment and the display make up a [World] that is
      threaded through every operation; an exception leaves the world as it
      was when it was raised. *)

From Stdlib Require Import ZArith QArith List String Bool Lia Lqa.
From Stdlib Require Import DecimalString.
Import ListNotations.

Open Scope Z_scope.

(** ** Python values, exceptions and the world *)

Module Py.

Inductive exn : Type :=
| ValueError (msg : string)
| ZeroDivisionError
| IndexError.

Inductive outcome (A : Type) : Type :=
| Ok (a : A)
| Raise (e : exn).
Arguments Ok {A} a.
Arguments Raise {A} e.

(** A float that may be [nan]. *)
Inductive number : Type :=
| Num (q : Q)
| NaN.

(** Cells of a row handed to [csv.writer]. *)
Inductive cell : Type :=
| CInt (z : Z)
| CFloat (q : Q)
| CBool (b : bool)
| CStr (s : string).

Definition csv_table := list (list cell).

(** A source of raw random words; [seed] is the generator [random.seed]
    installs. *)
Class RandomSource (G : Type) : Type := {
  next_raw : G -> Z * G;
  seed : Z -> G
}.

Record World (G : Type) : Type := mkWorld {
  py_random : G;
  np_random : G;
  files : string -> option csv_table;
  environ : string -> option string;
  display : list string
}.
Arguments mkWorld {G}.
Arguments py_random {G}.
Arguments np_random {G}.
Arguments files {G}.
Arguments environ {G}.
Arguments display {G}.

Definition M (G A : Type) : Type := World G -> outcome A * World G.

Definition ret {G A} (a : A) : M G A := fun w => (Ok a, w).

Definition raise {G A} (e : exn) : M G A := fun w => (Raise e, w).

Definition bind {G A B} (m : M G A) (k : A -> M G B) : M G B :=
  fun w =>
    match m w with
    | (Ok a, w') => k a w'
    | (Raise e, w') => (Raise e, w')
    end.

Definition lift {G A} (o : outcome A) : M G A := fun w => (o, w).

Definition str_of_Z (z : Z) : string := NilZero.string_of_int (Z.to_int z).

Section Builtins.
Context {G : Type} {RS : RandomSource G}.

Definition set_py (g : G) (w : World G) : World G :=
  mkWorld g (np_random w) (files w) (environ w) (display w).

Definition set_np (g : G) (w : World G) : World G :=
  mkWorld (py_random w) g (files w) (environ w) (display w).

(** [random.randint(a, b)]: an integer of [[a, b]], both ends included,
    read off one raw word.  The programs call it with constants
    [a <= b] only. *)
Definition randint (a b : Z) : M G Z :=
  fun w =>
    let (r, g) := next_raw (py_random w) in
    (Ok (a + r mod (b - a + 1)), set_py g w).

(** [random.random()]: a multiple of [2^-53] in [[0, 1)]. *)
Definition random : M G Q :=
  fun w =>
    let (r, g) := next_raw (py_random w) in
    (Ok (Qmake (r mod 2 ^ 53) (2 ^ 53)%positive), set_py g w).

(** [random.seed(z)] *)
Definition random_seed (z : Z) : M G unit :=
  fun w => (Ok tt, set_py (seed z) w).

(** [open(path, 'w')] followed by the rows written: the file is created
    or truncated. *)
Definition write_csv (path : string) (rows : csv_table) : M G unit :=
  fun w =>
    (Ok tt,
     mkWorld (py_random w) (np_random w)
             (fun p => if String.eqb p path then Some rows else files w p)
             (environ w) (display w)).

(** One more unit in bin [i]. *)
Fixpoint bump (i : nat) (bins : list Z) : list Z :=
  match bins, i with
  | [], _ => []
  | x :: rest, O => (x + 1) :: rest
  | x :: rest, S j => x :: bump j rest
  end.

Fixpoint throw (n : nat) (c : Z) (bins : list Z) (g : G) : list Z * G :=
  match n with
  | O => (bins, g)
  | S k =>
      let (r, g') := next_raw g in
      throw k c (bump (Z.to_nat (r mod c)) bins) g'
  end.

(** Modelled from the spec: [np.random.multinomial(n, [1/c]*c)] is numpy
    library code and is not part of the sources.  It is modelled by what
    the specification says it is equivalent to: [n] units, each placed
    independently in one of [c] bins chosen with equal probability.  The
    programs call it with [n >= 1] and [c = C]. *)
Definition multinomial (n c : Z) : M G (list Z) :=
  fun w =>
    let (bins, g) :=
      throw (Z.to_nat n) c (repeat 0 (Z.to_nat c)) (np_random w) in
    (Ok bins, set_np g w).
End Builtins.

Fixpoint Qsum (l : list Q) : Q :=
  match l with
  | [] => 0%Q
  | x :: rest => (x + Qsum rest)%Q
  end.

Fixpoint Zsum (l : list Z) : Z :=
  match l with
  | [] => 0
  | x :: rest => x + Zsum rest
  end.

Definition Zlen {A} (l : list A) : Z := Z.of_nat (List.length l).

(** [np.mean]: [nan] on an empty series. *)
Definition mean (l : list Q) : number :=
  match l with
  | [] => NaN
  | _ => Num (Qsum l / inject_Z (Zlen l))
  end.

(** [sum] of a list of booleans: the number of [True]. *)
Definition count_true (l : list bool) : Z :=
  Zsum (map (fun b : bool => if b then 1 else 0) l).

(** [range(n)] *)
Definition range (n : Z) : list Z := map Z.of_nat (seq 0 (Z.to_nat n)).

(** [l[i]] on a list, negative indices counting from the end. *)
Definition getitem {A} (l : list A) (i : Z) : outcome A :=
  let j := if i <? 0 then Zlen l + i else i in
  if j <? 0 then Raise IndexError
  else match nth_error l (Z.to_nat j) with
       | Some x => Ok x
       | None => Raise IndexError
       end.

(** [np.linspace(start, stop, num)] *)
Definition linspace (start stop : Q) (num : Z) : outcome (list Q) :=
  if num <? 0 then
    Raise (ValueError (String.append "Number of samples, "
                         (String.append (str_of_Z num)
                                        ", must be non-negative.")))
  else
    Ok (map (fun i => (start + inject_Z i * ((stop - start) / inject_Z (num - 1)))%Q)
            (range num)).

Definition Qgtb (x y : Q) : bool := negb (Qle_bool x y).

Definition Qltb (x y : Q) : bool := negb (Qle_bool y x).

(** A loop whose body may raise: [for x in xs: st = body(x, st)]. *)
Fixpoint for_each {G A S} (xs : list A) (body : A -> S -> M G S) (st : S)
  : M G S :=
  match xs with
  | [] => ret st
  | x :: rest => bind (body x st) (for_each rest body)
  end.

End Py.

Export Py.

Declare Scope py_scope.
Delimit Scope py_scope with py.
Notation "x <- m ;; k" := (bind m (fun x => k))
  (at level 61, m at next level, right associativity) : py_scope.
Notation "m ;;; k" := (bind m (fun _ => k))
  (at level 61, right associativity) : py_scope.
Open Scope string_scope.
Open Scope list_scope.
Open Scope Z_scope.
Open Scope py_scope.

(** ** Files written a row at a time, and [print] *)

Module PyIO.

Section IO.
Context {G : Type}.

Definition set_files (f : string -> option csv_table) (w : World G)
  : World G :=
  mkWorld (py_random w) (np_random w) f (environ w) (display w).

(** [open(path, "w")]: the file is created or truncated; what is written
    before an exception stays in it. *)
Definition open_w (path : string) : M G unit :=
  fun w =>
    (Ok tt,
     set_files (fun p => if String.eqb p path then Some [] else files w p) w).

(** [writer.writerow(row)] on the file opened at [path]. *)
Definition writerow (path : string) (row : list cell) : M G unit :=
  fun w =>
    let rows := match files w path with
                | Some rows => rows
                | None => []
                end in
    (Ok tt,
     set_files (fun p => if String.eqb p path then Some (rows ++ [row])
                         else files w p) w).

(** [print(line)] *)
Definition print (line : string) : M G unit :=
  fun w =>
    (Ok tt,
     mkWorld (py_random w) (np_random w) (files w) (environ w)
             (display w ++ [line])).
End IO.

(** The pairs numpy forms of two one-dimensional arrays in an elementwise
    operation: equal lengths, or one of them of length one. *)
Definition broadcast {A B} (xs : list A) (ys : list B)
  : outcome (list (A * B)) :=
  if Nat.eqb (List.length xs) (List.length ys) then Ok (combine xs ys)
  else
    match xs, ys with
    | [x], _ => Ok (map (fun y => (x, y)) ys)
    | _, [y] => Ok (map (fun x => (x, y)) xs)
    | _, _ =>
        Raise (ValueError
                 (String.append
                    "operands could not be broadcast together with shapes ("
                    (String.append (str_of_Z (Zlen xs))
                       (String.append ",) ("
                          (String.append (str_of_Z (Zlen ys)) ",) ")))))
    end.

(** [np.cumsum] of a list of booleans. *)
Fixpoint cumsum_from (acc : Z) (l : list bool) : list Z :=
  match l with
  | [] => []
  | b :: rest =>
      let acc' := acc + (if b then 1 else 0) in
      acc' :: cumsum_from acc' rest
  end.

Definition cumsum (l : list bool) : list Z := cumsum_from 0 l.

End PyIO.

Export PyIO.

(** [fin] is [eff] delayed by [fds] slots, zero before. *)
Definition delayed (fds : Z) (eff fin : list Q) : Prop :=
  Zlen fin = Zlen eff /\
  forall s, 0 <= s < Zlen fin ->
    getitem fin s = if fds <=? s then getitem eff (s - fds) else Ok 0%Q.

(** Two worlds with the same generators. *)
Definition same_random {G} (w1 w2 : World G) : Prop :=
  py_random w1 = py_random w2 /\ np_random w1 = np_random w2.

(** [m] reads nothing but the generators, leaves the environment and the
    display alone, and writes no file outside [writable]. *)
Definition confined {G A} (writable : string -> bool) (m : M G A) : Prop :=
  forall w1 w2,
    same_random w1 w2 ->
    fst (m w1) = fst (m w2) /\
    same_random (snd (m w1)) (snd (m w2)) /\
    environ (snd (m w1)) = environ w1 /\
    display (snd (m w1)) = display w1 /\
    forall p, writable p = false -> files (snd (m w1)) p = files w1 p.

(** When [m] returns, the file [path] holds a table; when it raises, no
    file has changed. *)
Definition writes_file {G A} (path : string) (m : M G A) : Prop :=
  forall w,
    match m w with
    | (Ok _, w') => exists rows, files w' path = Some rows
    | (Raise _, w') => forall p, files w' p = files w p
    end.

(** ** Configuration: the module-level constants *)

Record Config : Type := mkConfig {
  C : Z;                    (* number of cores *)
  P : Z;                    (* slot time, seconds *)
  T : Z;                    (* extrinsics per work-package *)
  core_bandwidth : Z;       (* bytes per second and core *)
  work_package_size : Z;    (* bytes *)
  witness_size : Z;         (* bytes per witness *)
  finality_delay_slots : Z;
  GAMMA_A : Q;              (* cost per workload *)
  GAMMA_Z : Q               (* cost per ticket *)
}.

(** The invariant of the configuration: sizes and rates strictly positive,
    the finality delay not negative. *)
Definition wf_config (cfg : Config) : Prop :=
  0 < C cfg /\ 0 < P cfg /\ 0 < T cfg /\ 0 < core_bandwidth cfg /\
  0 < work_package_size cfg /\ 0 < witness_size cfg /\
  0 <= finality_delay_slots cfg.

(** ** Variant A: [scripts/simulation.py] *)

Module VariantA.

Definition config : Config :=
  mkConfig 341 6 128 (2 * 1024 * 1024) 13794305 640 2 (1 # 1000) (5 # 10000).

(** The local variables of one pass through the slot loop. *)
Record SlotLocals : Type := mkLocals {
  workloads : Z;
  witnesses : Z;
  workloads_per_core : list Z;
  witnesses_per_core : list Z;
  slot_contention_count : Z;
  total_processed_data_in_slot : Z;
  effective_tps : Q
}.

(** The four lists the loop appends to. *)
Record Series : Type := mkSeries {
  contention_history : list bool;
  costs : list Q;
  tps_effective : list Q;
  tps_finalized : list Q
}.

(** The dictionary [run_simulation] returns. *)
Record Results : Type := mkResults {
  r_scenario : string;
  r_tps_theoretical : Q;
  r_avg_tps_effective : number;
  r_avg_tps_finalized : number;
  r_avg_cost : number;
  r_contention_rate : Q;
  r_tps_effective : list Q;
  r_tps_finalized : list Q;
  r_contention_history : list bool
}.

(** Line 84: [slot_contention_count > 0]. *)
Definition contended (L : SlotLocals) : bool := 0 <? slot_contention_count L.

(** The tags lines 50-62 know. *)
Definition recognised (scenario : string) : Prop :=
  scenario = "stateless" \/ scenario = "state-heavy" \/ scenario = "mixed".

Section Run.
Context {G : Type} {RS : RandomSource G}.
Variable cfg : Config.

(** Lines 50-64: the draws of one slot, or [ValueError]. *)
Definition draw_demand (scenario : string) : M G (Z * Z) :=
  if String.eqb scenario "stateless" then
    wl <- randint 1 3 ;; wi <- randint 100 500 ;; ret (wl, wi)
  else if String.eqb scenario "state-heavy" then
    wl <- randint 3 6 ;; wi <- randint 1000 3000 ;; ret (wl, wi)
  else if String.eqb scenario "mixed" then
    u <- random ;;
    if Qltb u (8 # 10) then
      wl <- randint 1 3 ;; wi <- randint 100 500 ;; ret (wl, wi)
    else
      wl <- randint 3 6 ;; wi <- randint 1000 3000 ;; ret (wl, wi)
  else raise (ValueError "Unknown scenario.").

(** Bytes core [i] has to push in the slot. *)
Definition core_data (wl wi : list Z) (i : Z) : Z :=
  nth (Z.to_nat i) wl 0 * work_package_size cfg
  + nth (Z.to_nat i) wi 0 * witness_size cfg.

(** Lines 72-82: one pass of the loop over the cores; the accumulator is
    [(slot_contention_count, total_processed_data_in_slot)]. *)
Definition core_body (wl wi : list Z) (acc : Z * Z) (i : Z) : Z * Z :=
  let (count, total) := acc in
  let total_data_rate_per_core :=
    (inject_Z (core_data wl wi i) / inject_Z (P cfg))%Q in
  let count' :=
    if Qgtb total_data_rate_per_core (inject_Z (core_bandwidth cfg))
    then count + 1 else count in
  let processed_data_per_core :=
    Z.min (core_bandwidth cfg * P cfg) (core_data wl wi i) in
  (count', total + processed_data_per_core).

Definition core_loop (wl wi : list Z) : Z * Z :=
  fold_left (core_body wl wi) (range (C cfg)) (0, 0).

(** Lines 46-88: the slot loop up to the effective TPS. *)
Definition slot_body (scenario : string) (epoch_mode : bool)
           (priorities : list Q) (slot : Z) : M G SlotLocals :=
  priority <- lift (getitem priorities slot) ;;
  (if epoch_mode && (slot mod 100 =? 0)
   then s <- randint 0 (2 ^ 32 - 1) ;; random_seed s
   else ret tt) ;;;
  d <- draw_demand scenario ;;
  let (wl, wi) := d in
  workloads_per_core <- multinomial wl (C cfg) ;;
  witnesses_per_core <- multinomial wi (C cfg) ;;
  let (count, total) := core_loop workloads_per_core witnesses_per_core in
  let total_extrinsics_processed :=
    (inject_Z total / inject_Z (work_package_size cfg) * inject_Z (T cfg))%Q in
  ret (mkLocals wl wi workloads_per_core witnesses_per_core count total
                (total_extrinsics_processed / inject_Z (P cfg))%Q).

(** The locals of the successive passes of the slot loop started in
    world [w]; only [slot_body] touches the world. *)
Fixpoint slot_trace (scenario : string) (epoch_mode : bool)
         (priorities : list Q) (slots : list Z) (w : World G)
  : list SlotLocals :=
  match slots with
  | [] => []
  | slot :: rest =>
      match slot_body scenario epoch_mode priorities slot w with
      | (Ok L, w') =>
          L :: slot_trace scenario epoch_mode priorities rest w'
      | (Raise _, _) => []
      end
  end.

(** Lines 45-100: one full pass of the slot loop. *)
Definition slot_iter (scenario : string) (epoch_mode : bool)
           (priorities : list Q) (slot : Z) (st : Series) : M G Series :=
  L <- slot_body scenario epoch_mode priorities slot ;;
  let contention_history' :=
    contention_history st ++ [contended L] in
  let tps_effective' := tps_effective st ++ [effective_tps L] in
  fin <- (if finality_delay_slots cfg <=? slot
          then lift (getitem tps_effective' (slot - finality_delay_slots cfg))
          else ret 0%Q) ;;
  let tickets := workloads L * T cfg in
  let cost :=
    (GAMMA_A cfg * inject_Z (workloads L) + GAMMA_Z cfg * inject_Z tickets)%Q in
  ret (mkSeries contention_history' (costs st ++ [cost]) tps_effective'
                (tps_finalized st ++ [fin])).

(** Lines 110-112: the rows of the CSV file. *)
Definition csv_row (st : Series) (slot : Z) (rows : csv_table)
  : M G csv_table :=
  e <- lift (getitem (tps_effective st) slot) ;;
  f <- lift (getitem (tps_finalized st) slot) ;;
  c <- lift (getitem (contention_history st) slot) ;;
  ret (rows ++ [[CInt slot; CFloat e; CFloat f; CBool c]]).

Definition csv_header : list cell :=
  [CStr "Slot"; CStr "Effective TPS"; CStr "Finalized TPS"; CStr "Contention"].

(** The slots [run_simulation] goes through. *)
Definition slots_run (num_slots : Z) (epoch_mode : bool) : Z :=
  if epoch_mode then 600 else num_slots.

(** The locals of every slot of a run. *)
Definition run_trace (num_slots : Z) (scenario : string)
           (epoch_mode : bool) (w : World G) : list SlotLocals :=
  match linspace (3 # 10) (7 # 10) (slots_run num_slots epoch_mode) with
  | Ok priorities =>
      slot_trace scenario epoch_mode priorities
                 (range (slots_run num_slots epoch_mode)) w
  | Raise _ => []
  end.

Definition run_simulation (num_slots : Z) (scenario : string)
           (epoch_mode : bool) : M G Results :=
  let num_slots := if epoch_mode then 600 else num_slots in
  priorities <- lift (linspace (3 # 10) (7 # 10) num_slots) ;;
  st <- for_each (range num_slots)
                 (slot_iter scenario epoch_mode priorities)
                 (mkSeries [] [] [] []) ;;
  let tps_theoretical :=
    (inject_Z (C cfg * T cfg) / inject_Z (P cfg))%Q in
  let avg_tps_effective := mean (tps_effective st) in
  let avg_tps_finalized := mean (tps_finalized st) in
  let avg_cost := mean (costs st) in
  contention_rate <-
    (if num_slots =? 0 then raise ZeroDivisionError
     else ret (inject_Z (count_true (contention_history st))
               / inject_Z num_slots * 100)%Q) ;;
  rows <- for_each (range num_slots) (csv_row st) [csv_header] ;;
  write_csv "simulation_results.csv" rows ;;;
  ret (mkResults scenario tps_theoretical avg_tps_effective
                 avg_tps_finalized avg_cost contention_rate
                 (tps_effective st) (tps_finalized st)
                 (contention_history st)).
End Run.

(** Line 81: what a core can push in a slot. *)
Definition capacity (cfg : Config) : Z := core_bandwidth cfg * P cfg.

(** What core [i] has to push in the slot whose locals are [L]. *)
Definition demand (cfg : Config) (L : SlotLocals) (i : Z) : Z :=
  core_data cfg (workloads_per_core L) (witnesses_per_core L) i.

(** What [run_simulation] charges for a slot (lines 98-99). *)
Definition slot_cost (cfg : Config) (L : SlotLocals) : Q :=
  (GAMMA_A cfg * inject_Z (workloads L)
   + GAMMA_Z cfg * inject_Z (workloads L * T cfg))%Q.

(** The row lines 111-112 write for slot [i]. *)
Definition csv_row_of (r : Results) (i : Z) : list cell :=
  [CInt i;
   CFloat (nth (Z.to_nat i) (r_tps_effective r) 0%Q);
   CFloat (nth (Z.to_nat i) (r_tps_finalized r) 0%Q);
   CBool (nth (Z.to_nat i) (r_contention_history r) false)].

End VariantA.

(** ** Variant B: [tools/jam_datacenter_simulator.py] *)

Module VariantB.

(** Variant B has one more constant, the chunk a work-package is split in. *)
Record ConfigB : Type := mkConfigB {
  base :> Config;
  CHUNK_SIZE : Z
}.

Definition config : ConfigB :=
  mkConfigB
    (mkConfig 341 6 128 ((3125 * 1024 * 1024) / 341) 13794305 640 2
              (1 # 1000) (5 # 10000))
    (1 * 1024 * 1024).

Definition wf_configB (cfg : ConfigB) : Prop :=
  wf_config cfg /\ 0 < CHUNK_SIZE cfg.

(** The local variables of one pass through the slot loop. *)
Record SlotLocals : Type := mkLocals {
  num_workloads : Z;
  total_chunks : Z;
  chunks_per_core : list Z;
  slot_contended : bool;
  processed_bytes : Z;
  effective_tps : Q
}.

(** The four lists the loop appends to. *)
Record Series : Type := mkSeries {
  contention_flags : list bool;
  effective_tps_series : list Q;
  finalized_tps_series : list Q;
  cost_series : list Q
}.

(** The dictionary [run_simulation] returns. *)
Record Results : Type := mkResults {
  r_scenario : string;
  r_theoretical_tps : Q;
  r_avg_effective_tps : number;
  r_avg_finalized_tps : number;
  r_contention_rate_pct : Q;
  r_avg_cost_per_slot_usd : number;
  r_effective_series : list Q;
  r_finalized_series : list Q;
  r_contention_series : list bool;
  r_cost_series : list Q
}.

Section Run.
Context {G : Type} {RS : RandomSource G}.
Variable cfg : ConfigB.

(** Lines 126-133: every tag that is neither ["stateless"] nor
    ["state-heavy"] takes the last branch. *)
Definition workloads_for_slot (scenario : string) : M G Z :=
  if String.eqb scenario "stateless" then randint 5 15
  else if String.eqb scenario "state-heavy" then randint 15 30
  else randint 5 30.

(** Line 153: the same for every core. *)
Definition witness_bytes (num_workloads : Z) : Z :=
  (num_workloads / C cfg) * witness_size cfg.

(** Line 154: bytes core [core_idx] needs to push in the slot. *)
Definition needed (num_workloads : Z) (chunks : list Z) (core_idx : Z) : Z :=
  nth (Z.to_nat core_idx) chunks 0 * CHUNK_SIZE cfg
  + witness_bytes num_workloads.

(** Line 157 *)
Definition capacity : Z := core_bandwidth cfg * P cfg.

(** Lines 149-163: one pass of the loop over the cores; the accumulator is
    [(slot_contended, processed_bytes)]. *)
Definition core_body (num_workloads : Z) (chunks : list Z)
           (acc : bool * Z) (core_idx : Z) : bool * Z :=
  let (contended, processed) := acc in
  let contended' :=
    if capacity <? needed num_workloads chunks core_idx
    then true else contended in
  (contended',
   processed + Z.min (needed num_workloads chunks core_idx) capacity).

Definition core_loop (num_workloads : Z) (chunks : list Z) : bool * Z :=
  fold_left (core_body num_workloads chunks) (range (C cfg)) (false, 0).

(** Lines 137-170: the slot loop up to the effective TPS. *)
Definition slot_body (scenario : string) : M G SlotLocals :=
  nw <- workloads_for_slot scenario ;;
  let chunks := nw * (work_package_size cfg / CHUNK_SIZE cfg) in
  per_core <- multinomial chunks (C cfg) ;;
  let (contended, processed) := core_loop nw per_core in
  let extrinsics_processed :=
    (inject_Z processed / inject_Z (work_package_size cfg)
     * inject_Z (T cfg))%Q in
  ret (mkLocals nw chunks per_core contended processed
                (extrinsics_processed / inject_Z (P cfg))%Q).

(** The locals of the successive passes of the slot loop started in
    world [w]; only [slot_body] touches the world. *)
Fixpoint slot_trace (scenario : string) (slots : list Z) (w : World G)
  : list SlotLocals :=
  match slots with
  | [] => []
  | _ :: rest =>
      match slot_body scenario w with
      | (Ok L, w') => L :: slot_trace scenario rest w'
      | (Raise _, _) => []
      end
  end.

(** The locals of every slot of a run. *)
Definition run_trace (num_slots : Z) (scenario : string) (w : World G)
  : list SlotLocals :=
  slot_trace scenario (range num_slots) w.

(** Lines 135-182: one full pass of the slot loop. *)
Definition slot_iter (scenario : string) (slot_idx : Z) (st : Series)
  : M G Series :=
  L <- slot_body scenario ;;
  let effective' := effective_tps_series st ++ [effective_tps L] in
  fin <- (if finality_delay_slots cfg <=? slot_idx
          then lift (getitem effective'
                             (slot_idx - finality_delay_slots cfg))
          else ret 0%Q) ;;
  let tickets := num_workloads L * T cfg in
  let slot_cost :=
    (GAMMA_A cfg * inject_Z (num_workloads L)
     + GAMMA_Z cfg * inject_Z tickets)%Q in
  ret (mkSeries (contention_flags st ++ [slot_contended L]) effective'
                (finalized_tps_series st ++ [fin])
                (cost_series st ++ [slot_cost])).

Definition run_simulation (num_slots : Z) (scenario : string)
  : M G Results :=
  st <- for_each (range num_slots) (slot_iter scenario)
                 (mkSeries [] [] [] []) ;;
  let theoretical_tps :=
    (inject_Z (C cfg * T cfg) / inject_Z (P cfg))%Q in
  contention_rate_pct <-
    (if num_slots =? 0 then raise ZeroDivisionError
     else ret (100 * inject_Z (count_true (contention_flags st))
               / inject_Z num_slots)%Q) ;;
  ret (mkResults scenario theoretical_tps
                 (mean (effective_tps_series st))
                 (mean (finalized_tps_series st))
                 contention_rate_pct
                 (mean (cost_series st))
                 (effective_tps_series st) (finalized_tps_series st)
                 (contention_flags st) (cost_series st)).
End Run.

(** What core [i] has to push in the slot whose locals are [L]. *)
Definition demand (cfg : ConfigB) (L : SlotLocals) (i : Z) : Z :=
  needed cfg (num_workloads L) (chunks_per_core L) i.

(** ** Variant B: the CSV export and the series of the chart *)

Section CsvExport.
Context {G : Type}.

(** Line 205 *)
Definition csv_filename (scenario : string) : string :=
  String.append "jam_results_" (String.append scenario ".csv").

(** Lines 206-212 *)
Definition csv_header : list cell :=
  [CStr "slot_index"; CStr "effective_tps"; CStr "finalized_tps";
   CStr "contended (bool)"; CStr "slot_cost_usd"].

(** Lines 217-225: one pass of the loop of [export_csv]. *)
Definition export_row (filename : string) (results : Results) (i : Z)
           (_ : unit) : M G unit :=
  e <- lift (getitem (r_effective_series results) i) ;;
  f <- lift (getitem (r_finalized_series results) i) ;;
  c <- lift (getitem (r_contention_series results) i) ;;
  k <- lift (getitem (r_cost_series results) i) ;;
  writerow filename [CInt i; CFloat e; CFloat f; CBool c; CFloat k].

(** Lines 203-226 *)
Definition export_csv (results : Results) : M G unit :=
  let filename := csv_filename (r_scenario results) in
  open_w filename ;;;
  writerow filename csv_header ;;;
  for_each (range (Zlen (r_effective_series results)))
           (export_row filename results) tt ;;;
  print (String.append "[+] CSV exported → " filename).

(** Lines 232 and 252 of [export_plot]: the cumulative share of contended
    slots, in percent, that the chart draws. *)
Definition contention_pct (results : Results) : outcome (list Q) :=
  let slots := range (Zlen (r_effective_series results)) in
  match broadcast (cumsum (r_contention_series results)) slots with
  | Ok pairs =>
      Ok (map (fun cs : Z * Z =>
                 (inject_Z (fst cs) / inject_Z (snd cs + 1) * 100)%Q) pairs)
  | Raise e => Raise e
  end.
End CsvExport.

(** What [run_simulation] charges for a slot (lines 180-181). *)
Definition slot_cost (cfg : ConfigB) (L : SlotLocals) : Q :=
  (GAMMA_A cfg * inject_Z (num_workloads L)
   + GAMMA_Z cfg * inject_Z (num_workloads L * T cfg))%Q.

(** The row [export_csv] writes for slot [i]. *)
Definition csv_row_of (results : Results) (i : Z) : list cell :=
  [CInt i;
   CFloat (nth (Z.to_nat i) (r_effective_series results) 0%Q);
   CFloat (nth (Z.to_nat i) (r_finalized_series results) 0%Q);
   CBool (nth (Z.to_nat i) (r_contention_series results) false);
   CFloat (nth (Z.to_nat i) (r_cost_series results) 0%Q)].

End VariantB.

(** ** A replayed random source, for running the model *)

(** The raw words are read off a list; an exhausted list yields zeros. *)
#[export] Instance replay : RandomSource (list Z) := {
  next_raw g := match g with
                | [] => (0, [])
                | r :: rest => (r, rest)
                end;
  seed z := [z]
}.

Definition empty_world (py np : list Z) : World (list Z) :=
  mkWorld py np (fun _ => None) (fun _ => None) [].

(** From [w] to [w']: the file [path] now holds [content]; the other
    files, the generators and the environment are as they were. *)
Definition file_step {G} (path : string) (content : csv_table)
           (w w' : World G) : Prop :=
  py_random w' = py_random w /\ np_random w' = np_random w /\
  environ w' = environ w /\
  files w' path = Some content /\
  forall p, p <> path -> files w' p = files w p.

(** ** Facts about a slot, and configurations to run the model on *)

(** What holds of the locals of every slot of variant A. *)
Definition A_slot_facts (cfg : Config) (L : VariantA.SlotLocals) : Prop :=
  (1 <= VariantA.workloads L <= 6 /\ 100 <= VariantA.witnesses L <= 3000) /\
  (Zlen (VariantA.workloads_per_core L) = C cfg /\
   Forall (fun x => 0 <= x) (VariantA.workloads_per_core L) /\
   Zsum (VariantA.workloads_per_core L) = VariantA.workloads L) /\
  (Zlen (VariantA.witnesses_per_core L) = C cfg /\
   Forall (fun x => 0 <= x) (VariantA.witnesses_per_core L) /\
   Zsum (VariantA.witnesses_per_core L) = VariantA.witnesses L) /\
  VariantA.slot_contention_count L
  = Zsum (map (fun i => if VariantA.capacity cfg <? VariantA.demand cfg L i
                        then 1 else 0) (range (C cfg))) /\
  VariantA.total_processed_data_in_slot L
  = Zsum (map (fun i => Z.min (VariantA.capacity cfg) (VariantA.demand cfg L i))
              (range (C cfg))) /\
  VariantA.effective_tps L
  = (inject_Z (VariantA.total_processed_data_in_slot L)
     / inject_Z (work_package_size cfg) * inject_Z (T cfg)
     / inject_Z (P cfg))%Q.

(** What holds of the locals of every slot of variant B. *)
Definition B_slot_facts (cfg : VariantB.ConfigB) (L : VariantB.SlotLocals)
  : Prop :=
  5 <= VariantB.num_workloads L <= 30 /\
  VariantB.total_chunks L
  = VariantB.num_workloads L
    * (work_package_size (VariantB.base cfg) / VariantB.CHUNK_SIZE cfg) /\
  (Zlen (VariantB.chunks_per_core L) = C (VariantB.base cfg) /\
   Forall (fun x => 0 <= x) (VariantB.chunks_per_core L) /\
   Zsum (VariantB.chunks_per_core L) = VariantB.total_chunks L) /\
  VariantB.slot_contended L
  = existsb (fun i => VariantB.capacity cfg <? VariantB.demand cfg L i)
            (range (C (VariantB.base cfg))) /\
  VariantB.processed_bytes L
  = Zsum (map (fun i => Z.min (VariantB.demand cfg L i) (VariantB.capacity cfg))
              (range (C (VariantB.base cfg)))) /\
  VariantB.effective_tps L
  = (inject_Z (VariantB.processed_bytes L)
     / inject_Z (work_package_size (VariantB.base cfg))
     * inject_Z (T (VariantB.base cfg))
     / inject_Z (P (VariantB.base cfg)))%Q.

(** A pool of one core with room for 1000 bytes per slot. *)
Definition single_core : Config :=
  mkConfig 1 1 10 1000 1000 640 1 (1 # 1000) (5 # 10000).

(** The configuration of the end-to-end scenario of the specification:
    two cores of 1000 bytes per second, slots of one second, work-packages
    of 1000 bytes and ten extrinsics, a finality delay of one slot. *)
Definition two_cores : Config :=
  mkConfig 2 1 10 1000 1000 640 1 (1 # 1000) (5 # 10000).

(** Two cores that are never short of bandwidth, with one-byte witnesses. *)
Definition roomy : Config :=
  mkConfig 2 1 10 100000 1000 1 1 (1 # 1000) (5 # 10000).

(** Variant B set for 16 cores, as its settings suggest for a single-CPU
    development box; the bandwidth per core follows from line 59. *)
Definition sixteen_cores : VariantB.ConfigB :=
  VariantB.mkConfigB
    (mkConfig 16 6 128 ((3125 * 1024 * 1024) / 16) 13794305 640 2
              (1 # 1000) (5 # 10000))
    (1 * 1024 * 1024).

(** A dictionary with three effective values and one finalized value. *)
Definition short_results : VariantB.Results :=
  VariantB.mkResults "mixed" 20 (Num 1) (Num 0) 0 (Num 1)
                     [1; 2; 3]%Q [0]%Q [true; false; true] [1; 1; 1]%Q.

(** A second dictionary, of another scenario. *)
Definition other_results : VariantB.Results :=
  VariantB.mkResults "stateless" 20 (Num 1) (Num 0) 0 (Num 1)
                     [4; 5]%Q [0; 0]%Q [false; false] [2; 2]%Q.

(** A dictionary with its four series of one length. *)
Definition full_results : VariantB.Results :=
  VariantB.mkResults "mixed" 20 (Num 1) (Num 0) 0 (Num 1)
                     [1; 2]%Q [0; 0]%Q [true; false] [1; 1]%Q.

(** * Properties *)

(** ** The monad *)

Section MonadFacts.
Context {G : Type}.

Lemma bind_Ok_inv {A B} (m : M G A) (k : A -> M G B) w b w' :
  bind m k w = (Ok b, w') ->
  exists a w1, m w = (Ok a, w1) /\ k a w1 = (Ok b, w').
Proof.
  unfold bind. destruct (m w) as [[a | e] w1]; intros H.
  - exists a, w1. split; [reflexivity | exact H].
  - discriminate H.
Qed.

Lemma bind_Ok {A B} (m : M G A) (k : A -> M G B) w a w1 :
  m w = (Ok a, w1) -> bind m k w = k a w1.
Proof. intros H. unfold bind. rewrite H. reflexivity. Qed.

Lemma bind_Raise {A B} (m : M G A) (k : A -> M G B) w e w1 :
  m w = (Raise e, w1) -> bind m k w = (Raise e, w1).
Proof. intros H. unfold bind. rewrite H. reflexivity. Qed.
End MonadFacts.

(** ** Lists, sums and ranges *)

Lemma Zsum_app l1 l2 : Zsum (l1 ++ l2) = Zsum l1 + Zsum l2.
Proof. induction l1 as [| x l1 IH]; simpl; lia. Qed.

Lemma Zsum_repeat_0 n : Zsum (repeat 0 n) = 0.
Proof. induction n as [| n IH]; simpl; lia. Qed.

Lemma Zsum_nonneg l : Forall (fun x => 0 <= x) l -> 0 <= Zsum l.
Proof. induction 1; simpl; lia. Qed.

Lemma Zsum_map_le {A} (f g : A -> Z) l :
  (forall x, In x l -> f x <= g x) -> Zsum (map f l) <= Zsum (map g l).
Proof.
  induction l as [| x l IH]; simpl; intros H; [lia |].
  specialize (H x (or_introl eq_refl)) as Hx.
  assert (Zsum (map f l) <= Zsum (map g l)) by (apply IH; intros; apply H; now right).
  lia.
Qed.

Lemma Zsum_map_const {A} (c : Z) (l : list A) :
  Zsum (map (fun _ => c) l) = Zlen l * c.
Proof.
  unfold Zlen. induction l as [| x l IH]; [reflexivity |].
  cbn [map Zsum List.length]. rewrite IH. lia.
Qed.

Lemma Zsum_map_add {A} (f g : A -> Z) l :
  Zsum (map (fun x => f x + g x) l) = Zsum (map f l) + Zsum (map g l).
Proof. induction l as [| x l IH]; simpl; lia. Qed.

Lemma Zsum_map_mul_r {A} (f : A -> Z) (c : Z) l :
  Zsum (map (fun x => f x * c) l) = Zsum (map f l) * c.
Proof. induction l as [| x l IH]; simpl; lia. Qed.

Lemma all_zero_of_sum_0 l :
  Forall (fun x => 0 <= x) l -> Zsum l = 0 -> Forall (fun x => x = 0) l.
Proof.
  induction 1 as [| x l Hx Hl IH]; simpl; intros Hs; [constructor |].
  pose proof (Zsum_nonneg l Hl). constructor; [lia | apply IH; lia].
Qed.

Lemma range_length n : List.length (range n) = Z.to_nat n.
Proof. unfold range. now rewrite length_map, length_seq. Qed.

Lemma Zlen_range n : 0 <= n -> Zlen (range n) = n.
Proof. intros H. unfold Zlen. rewrite range_length. lia. Qed.

Lemma in_range n i : In i (range n) <-> 0 <= i < n.
Proof.
  unfold range. rewrite in_map_iff. split.
  - intros (k & <- & Hk). apply in_seq in Hk. lia.
  - intros H. exists (Z.to_nat i). split; [lia | apply in_seq; lia].
Qed.

(** Reading the entries of a list at the indices of [range]. *)
Lemma map_nth_range (l : list Z) :
  map (fun i => nth (Z.to_nat i) l 0) (range (Zlen l)) = l.
Proof.
  unfold range, Zlen. rewrite Nat2Z.id, map_map.
  erewrite map_ext by (intros; rewrite Nat2Z.id; reflexivity).
  induction l as [| x l IH]; [reflexivity |].
  cbn [List.length seq map nth]. f_equal.
  rewrite <- seq_shift, map_map. exact IH.
Qed.

Lemma range_1 : range 1 = [0].
Proof. reflexivity. Qed.

(** ** The random draws *)

Section RandomFacts.
Context {G : Type} {RS : RandomSource G}.

Lemma randint_range a b (w : World G) :
  a <= b ->
  exists v w', randint a b w = (Ok v, w') /\ a <= v <= b.
Proof.
  intros Hab. unfold randint.
  destruct (next_raw (py_random w)) as [r g].
  eexists _, _. split; [reflexivity |].
  pose proof (Z.mod_pos_bound r (b - a + 1)). lia.
Qed.

Lemma randint_inv a b (w : World G) v w' :
  a <= b -> randint a b w = (Ok v, w') -> a <= v <= b.
Proof.
  intros Hab H. destruct (randint_range a b w Hab) as (v0 & w0 & E & R).
  rewrite E in H. now inversion H; subst.
Qed.

Lemma bump_length i bins : List.length (bump i bins) = List.length bins.
Proof.
  revert i. induction bins as [| x bins IH]; intros [| i]; simpl; auto.
Qed.

Lemma bump_sum i bins :
  (i < List.length bins)%nat -> Zsum (bump i bins) = Zsum bins + 1.
Proof.
  revert i. induction bins as [| x bins IH]; intros [| i] Hi; simpl in *;
    try lia.
  rewrite IH by lia. lia.
Qed.

Lemma bump_nonneg i bins :
  Forall (fun x => 0 <= x) bins -> Forall (fun x => 0 <= x) (bump i bins).
Proof.
  intros H. revert i. induction H as [| x bins Hx Hb IH]; intros [| i];
    simpl; constructor; auto; lia.
Qed.

Lemma throw_spec n c bins g :
  0 < c -> List.length bins = Z.to_nat c ->
  Forall (fun x => 0 <= x) bins ->
  let out := fst (throw n c bins g) in
  List.length out = Z.to_nat c /\ Forall (fun x => 0 <= x) out /\
  Zsum out = Zsum bins + Z.of_nat n.
Proof.
  intros Hc. revert bins g.
  induction n as [| n IH]; intros bins g Hlen Hpos.
  - simpl. repeat split; auto. lia.
  - cbn [throw]. destruct (next_raw g) as [r g'].
    pose proof (Z.mod_pos_bound r c Hc) as Hr.
    specialize (IH (bump (Z.to_nat (r mod c)) bins) g').
    rewrite bump_length in IH.
    specialize (IH Hlen (bump_nonneg _ _ Hpos)).
    cbv zeta in IH. destruct IH as (L & N & S).
    repeat split; auto.
    rewrite S, bump_sum by lia. lia.
Qed.

(** The allocation of the distributor: one entry per core, none negative,
    summing to the units distributed. *)
Lemma multinomial_spec n c (w : World G) :
  0 < c -> 0 <= n ->
  exists alloc w',
    multinomial n c w = (Ok alloc, w') /\
    Zlen alloc = c /\ Forall (fun x => 0 <= x) alloc /\ Zsum alloc = n.
Proof.
  intros Hc Hn. unfold multinomial.
  pose proof (throw_spec (Z.to_nat n) c (repeat 0 (Z.to_nat c)) (np_random w)
                Hc (repeat_length _ _)) as H.
  destruct (throw _ _ _ _) as [bins g]. cbn [fst] in H.
  destruct H as (L & N & S).
  - clear. induction (Z.to_nat c); simpl; constructor; auto; lia.
  - eexists _, _. split; [reflexivity |].
    unfold Zlen. rewrite L, S, Zsum_repeat_0. repeat split; auto; lia.
Qed.

Lemma multinomial_inv n c (w : World G) alloc w' :
  0 < c -> 0 <= n -> multinomial n c w = (Ok alloc, w') ->
  Zlen alloc = c /\ Forall (fun x => 0 <= x) alloc /\ Zsum alloc = n.
Proof.
  intros Hc Hn H.
  destruct (multinomial_spec n c w Hc Hn) as (a & w0 & E & R).
  rewrite E in H. now inversion H; subst.
Qed.

Lemma multinomial_total n c (w : World G) :
  exists alloc w', multinomial n c w = (Ok alloc, w').
Proof.
  unfold multinomial. destruct (throw _ _ _ _) as [bins g].
  eexists _, _. reflexivity.
Qed.

Lemma multinomial_zero c (w : World G) :
  fst (multinomial 0 c w) = Ok (repeat 0 (Z.to_nat c)).
Proof. reflexivity. Qed.
End RandomFacts.

(** ** The loop over the cores *)

Lemma indicator_sum_nonneg {A} (p : A -> bool) l :
  0 <= Zsum (map (fun i => if p i then 1 else 0) l).
Proof. induction l as [| x l IH]; simpl; [lia | destruct (p x); lia]. Qed.

Lemma indicator_sum_pos {A} (p : A -> bool) l :
  0 < Zsum (map (fun i => if p i then 1 else 0) l) <->
  exists i, In i l /\ p i = true.
Proof.
  induction l as [| x l IH]; simpl.
  - split; [lia | intros (i & [] & _)].
  - pose proof (indicator_sum_nonneg p l). split.
    + intros H0. destruct (p x) eqn:E.
      * exists x. auto.
      * destruct IH as [IH _]. destruct IH as (i & Hi & Hp); [lia |].
        exists i. auto.
    + intros (i & [-> | Hi] & Hp).
      * rewrite Hp. lia.
      * destruct IH as [_ IH]. specialize (IH (ex_intro _ i (conj Hi Hp))).
        destruct (p x); lia.
Qed.

(** Comparing a data rate with a bandwidth is comparing bytes with the
    capacity of the slot. *)
Lemma rate_over (d p bw : Z) :
  0 < p -> Qgtb (inject_Z d / inject_Z p) (inject_Z bw) = (bw * p <? d).
Proof.
  intros Hp. unfold Qgtb.
  assert (Hq : (0 < inject_Z p)%Q) by (rewrite (Zlt_Qlt 0 p) in Hp; exact Hp).
  destruct (bw * p <? d) eqn:E.
  - apply Z.ltb_lt in E. apply negb_true_iff.
    destruct (Qle_bool _ _) eqn:B; [| reflexivity]. exfalso.
    apply Qle_bool_iff in B.
    apply (Qmult_le_r _ _ _ Hq) in B.
    assert (X : (inject_Z d / inject_Z p * inject_Z p == inject_Z d)%Q)
      by (field; intros Z0; rewrite Z0 in Hq; now apply Qlt_irrefl in Hq).
    rewrite X, <- inject_Z_mult, <- Zle_Qle in B. lia.
  - apply Z.ltb_ge in E. apply negb_false_iff, Qle_bool_iff.
    apply Qle_shift_div_r; [exact Hq |].
    rewrite <- inject_Z_mult, <- Zle_Qle. exact E.
Qed.

Section CoreLoopA.
Variable cfg : Config.
Hypothesis P_pos : 0 < P cfg.

Let cap := core_bandwidth cfg * P cfg.

Lemma A_core_fold wl wi l c t :
  fold_left (VariantA.core_body cfg wl wi) l (c, t) =
  (c + Zsum (map (fun i => if cap <? VariantA.core_data cfg wl wi i
                           then 1 else 0) l),
   t + Zsum (map (fun i => Z.min cap (VariantA.core_data cfg wl wi i)) l)).
Proof.
  revert c t. induction l as [| i l IH]; intros c t.
  - simpl. f_equal; lia.
  - cbn [fold_left map Zsum]. unfold VariantA.core_body at 2.
    rewrite rate_over by exact P_pos. rewrite IH. fold cap.
    destruct (cap <? _); f_equal; lia.
Qed.

Lemma A_core_loop_spec wl wi :
  VariantA.core_loop cfg wl wi =
  (Zsum (map (fun i => if cap <? VariantA.core_data cfg wl wi i
                       then 1 else 0) (range (C cfg))),
   Zsum (map (fun i => Z.min cap (VariantA.core_data cfg wl wi i))
             (range (C cfg)))).
Proof. unfold VariantA.core_loop. rewrite A_core_fold. reflexivity. Qed.
End CoreLoopA.

Section CoreLoopB.
Variable cfg : VariantB.ConfigB.

Lemma B_core_fold nw chunks l b p :
  fold_left (VariantB.core_body cfg nw chunks) l (b, p) =
  (b || existsb (fun i => VariantB.capacity cfg
                          <? VariantB.needed cfg nw chunks i) l,
   p + Zsum (map (fun i => Z.min (VariantB.needed cfg nw chunks i)
                                 (VariantB.capacity cfg)) l)).
Proof.
  revert b p. induction l as [| i l IH]; intros b p.
  - simpl. rewrite orb_false_r. f_equal; lia.
  - cbn [fold_left map Zsum existsb]. unfold VariantB.core_body at 2.
    rewrite IH. destruct (_ <? _); destruct b; simpl; f_equal; lia.
Qed.

Lemma B_core_loop_spec nw chunks :
  VariantB.core_loop cfg nw chunks =
  (existsb (fun i => VariantB.capacity cfg
                     <? VariantB.needed cfg nw chunks i) (range (C (VariantB.base cfg))),
   Zsum (map (fun i => Z.min (VariantB.needed cfg nw chunks i)
                             (VariantB.capacity cfg)) (range (C (VariantB.base cfg))))).
Proof. unfold VariantB.core_loop. rewrite B_core_fold. reflexivity. Qed.
End CoreLoopB.

(** ** Indexing *)

Lemma Zlen_app {A} (l1 l2 : list A) : Zlen (l1 ++ l2) = Zlen l1 + Zlen l2.
Proof. unfold Zlen. rewrite length_app. lia. Qed.

Lemma Zlen_snoc {A} (l : list A) x : Zlen (l ++ [x]) = Zlen l + 1.
Proof. rewrite Zlen_app. reflexivity. Qed.

Lemma Zlen_nonneg {A} (l : list A) : 0 <= Zlen l.
Proof. unfold Zlen. lia. Qed.

Lemma getitem_nonneg {A} (l : list A) i :
  0 <= i ->
  getitem l i = match nth_error l (Z.to_nat i) with
                | Some x => Ok x
                | None => Raise IndexError
                end.
Proof.
  intros Hi. unfold getitem.
  destruct (i <? 0) eqn:E; [apply Z.ltb_lt in E; lia |].
  rewrite E. reflexivity.
Qed.

Lemma getitem_in_range {A} (l : list A) i :
  0 <= i < Zlen l -> exists x, getitem l i = Ok x.
Proof.
  intros Hi. rewrite getitem_nonneg by lia.
  destruct (nth_error l (Z.to_nat i)) eqn:E; [eauto |].
  apply nth_error_None in E. unfold Zlen in Hi. lia.
Qed.

Lemma getitem_app_l {A} (l1 l2 : list A) i :
  0 <= i < Zlen l1 -> getitem (l1 ++ l2) i = getitem l1 i.
Proof.
  intros Hi. rewrite !getitem_nonneg by lia.
  rewrite nth_error_app1; [reflexivity | unfold Zlen in Hi; lia].
Qed.

Lemma getitem_app_last {A} (l : list A) x :
  getitem (l ++ [x]) (Zlen l) = Ok x.
Proof.
  rewrite getitem_nonneg by apply Zlen_nonneg.
  unfold Zlen. rewrite Nat2Z.id, nth_error_app2, Nat.sub_diag by lia.
  reflexivity.
Qed.

(** ** Variant A, one slot *)

Ltac inv_bind H :=
  let a := fresh "a" in
  let w := fresh "w" in
  let E := fresh "E" in
  apply bind_Ok_inv in H; destruct H as (a & w & E & H).

Ltac inv_ret H := unfold ret in H; inversion H; subst; clear H.

Section SlotA.
Context {G : Type} {RS : RandomSource G}.
Variable cfg : Config.

Lemma A_draw_demand_inv scenario (w : World G) wl wi w' :
  VariantA.draw_demand scenario w = (Ok (wl, wi), w') ->
  VariantA.recognised scenario /\ 1 <= wl <= 6 /\ 100 <= wi <= 3000.
Proof.
  unfold VariantA.draw_demand, VariantA.recognised. intros H.
  destruct (String.eqb_spec scenario "stateless") as [-> | N1].
  { inv_bind H. inv_bind H. inv_ret H.
    apply randint_inv in E, E0; lia || auto with zarith. }
  destruct (String.eqb_spec scenario "state-heavy") as [-> | N2].
  { inv_bind H. inv_bind H. inv_ret H.
    apply randint_inv in E, E0; lia || auto with zarith. }
  destruct (String.eqb_spec scenario "mixed") as [-> | N3];
    [| discriminate H].
  inv_bind H. destruct (Qltb a (8 # 10)).
  - inv_bind H. inv_bind H. inv_ret H.
    apply randint_inv in E0, E1; lia || auto with zarith.
  - inv_bind H. inv_bind H. inv_ret H.
    apply randint_inv in E0, E1; lia || auto with zarith.
Qed.

Lemma randint_Ok a b (w : World G) :
  exists v w', randint a b w = (Ok v, w').
Proof.
  unfold randint. destruct (next_raw (py_random w)). eexists _, _.
  reflexivity.
Qed.

Lemma A_draw_demand_total scenario (w : World G) :
  VariantA.recognised scenario ->
  exists d w', VariantA.draw_demand scenario w = (Ok d, w').
Proof.
  assert (two : forall a b c d (w0 : World G),
             exists p w',
               bind (randint a b)
                 (fun wl => bind (randint c d) (fun wi => ret (wl, wi))) w0
               = (Ok p, w')).
  { intros a b c d w0.
    destruct (randint_Ok a b w0) as (v1 & w1 & E1).
    destruct (randint_Ok c d w1) as (v2 & w2 & E2).
    exists (v1, v2), w2.
    rewrite (bind_Ok _ _ _ _ _ E1), (bind_Ok _ _ _ _ _ E2). reflexivity. }
  unfold VariantA.draw_demand.
  intros [-> | [-> | ->]]; cbn [String.eqb Ascii.eqb Bool.eqb]; try apply two.
  unfold bind at 1, random.
  destruct (next_raw (py_random w)) as [r g].
  destruct (Qltb _ _); apply two.
Qed.

(** An unknown tag reaches the last branch of lines 50-64. *)
Lemma A_draw_demand_unknown scenario (w : World G) :
  ~ VariantA.recognised scenario ->
  VariantA.draw_demand scenario w
  = (Raise (ValueError "Unknown scenario."), w).
Proof.
  unfold VariantA.draw_demand, VariantA.recognised. intros N.
  destruct (String.eqb_spec scenario "stateless"); [tauto |].
  destruct (String.eqb_spec scenario "state-heavy"); [tauto |].
  destruct (String.eqb_spec scenario "mixed"); [tauto |].
  reflexivity.
Qed.
End SlotA.


Section SlotBodyA.
Context {G : Type} {RS : RandomSource G}.
Variable cfg : Config.
Hypothesis C_pos : 0 < C cfg.
Hypothesis P_pos : 0 < P cfg.

Lemma A_slot_body_inv scenario epoch priorities slot (w : World G) L w' :
  VariantA.slot_body cfg scenario epoch priorities slot w = (Ok L, w') ->
  A_slot_facts cfg L.
Proof.
  unfold VariantA.slot_body. intros H.
  inv_bind H. inv_bind H. clear E E0. inv_bind H.
  destruct a1 as [wl wi].
  apply A_draw_demand_inv in E as (_ & Hwl & Hwi).
  inv_bind H. inv_bind H.
  apply multinomial_inv in E, E0; try lia.
  rewrite (A_core_loop_spec cfg P_pos) in H. inv_ret H.
  unfold A_slot_facts, VariantA.demand, VariantA.capacity. cbn.
  repeat split; tauto || lia.
Qed.

Lemma A_slot_body_total scenario epoch priorities slot (w : World G) :
  VariantA.recognised scenario -> 0 <= slot < Zlen priorities ->
  exists L w', VariantA.slot_body cfg scenario epoch priorities slot w
               = (Ok L, w').
Proof.
  intros Hs Hslot. unfold VariantA.slot_body.
  destruct (getitem_in_range priorities slot Hslot) as (pr & Epr).
  rewrite (bind_Ok (lift (getitem priorities slot)) _ w pr w)
    by (unfold lift; now rewrite Epr).
  assert (exists w1,
             (if epoch && (slot mod 100 =? 0)
              then bind (randint 0 (2 ^ 32 - 1)) (fun s => random_seed s)
              else ret tt) w = (Ok tt, w1)) as (w1 & E1).
  { destruct (epoch && (slot mod 100 =? 0)).
    - destruct (randint_Ok 0 (2 ^ 32 - 1) w) as (v & w0 & E).
      rewrite (bind_Ok _ _ _ _ _ E). eexists. reflexivity.
    - eexists. reflexivity. }
  rewrite (bind_Ok _ _ _ _ _ E1).
  destruct (A_draw_demand_total scenario w1 Hs) as ([wl wi] & w2 & E2).
  rewrite (bind_Ok _ _ _ _ _ E2).
  destruct (multinomial_total wl (C cfg) w2) as (a1 & w3 & E3).
  rewrite (bind_Ok _ _ _ _ _ E3).
  destruct (multinomial_total wi (C cfg) w3) as (a2 & w4 & E4).
  rewrite (bind_Ok _ _ _ _ _ E4).
  destruct (VariantA.core_loop cfg a1 a2) as [count total].
  eexists _, _. reflexivity.
Qed.

Lemma A_trace_Forall (Phi : VariantA.SlotLocals -> Prop)
      scenario epoch priorities :
  (forall slot (w : World G) L w',
      VariantA.slot_body cfg scenario epoch priorities slot w = (Ok L, w') ->
      Phi L) ->
  forall slots (w : World G),
    Forall Phi (VariantA.slot_trace cfg scenario epoch priorities slots w).
Proof.
  intros HPhi. induction slots as [| slot rest IH]; intros w;
    cbn [VariantA.slot_trace].
  - constructor.
  - destruct (VariantA.slot_body _ _ _ _ _ _) as [[L | e] w1] eqn:E.
    + constructor; [eapply HPhi; eauto | apply IH].
    + constructor.
Qed.

Lemma A_trace_facts scenario epoch priorities slots (w : World G) :
  Forall (A_slot_facts cfg)
         (VariantA.slot_trace cfg scenario epoch priorities slots w).
Proof.
  apply A_trace_Forall. intros. eapply A_slot_body_inv; eauto.
Qed.
End SlotBodyA.

(** ** The finality delay *)

Lemma delayed_nil fds : delayed fds [] [].
Proof.
  split; [reflexivity |]. intros s Hs. change (Zlen (@nil Q)) with 0 in Hs.
  lia.
Qed.

Lemma delayed_snoc fds eff fin e f :
  0 <= fds -> delayed fds eff fin ->
  (if fds <=? Zlen eff then getitem (eff ++ [e]) (Zlen eff - fds)
   else Ok 0%Q) = Ok f ->
  delayed fds (eff ++ [e]) (fin ++ [f]).
Proof.
  intros Hfds [Hlen Hd] Hf. split.
  - rewrite !Zlen_snoc. lia.
  - intros s Hs. rewrite Zlen_snoc in Hs.
    pose proof (Zlen_nonneg fin).
    destruct (Z.eq_dec s (Zlen fin)) as [-> | Hne].
    + rewrite getitem_app_last, Hlen. symmetry. exact Hf.
    + rewrite getitem_app_l by lia. rewrite Hd by lia.
      destruct (fds <=? s) eqn:E; [| reflexivity].
      apply Z.leb_le in E. rewrite getitem_app_l by lia. reflexivity.
Qed.

Lemma delayed_lookup_Ok fds (eff : list Q) e :
  0 <= fds ->
  exists f, (if fds <=? Zlen eff then getitem (eff ++ [e]) (Zlen eff - fds)
             else Ok 0%Q) = Ok f.
Proof.
  intros Hfds. destruct (fds <=? Zlen eff) eqn:E; [| eauto].
  apply Z.leb_le in E. apply getitem_in_range.
  rewrite Zlen_snoc. lia.
Qed.

(** ** Variant A, the slot loop and the run *)

Section LoopA.
Context {G : Type} {RS : RandomSource G}.
Variable cfg : Config.
Hypothesis fds_nonneg : 0 <= finality_delay_slots cfg.
Variables (scenario : string) (epoch : bool) (priorities : list Q).
Hypothesis known : VariantA.recognised scenario.

Lemma A_slot_iter_Ok slot st (w : World G) L w1 :
  VariantA.slot_body cfg scenario epoch priorities slot w = (Ok L, w1) ->
  Zlen (VariantA.tps_effective st) = slot ->
  exists st',
    VariantA.slot_iter cfg scenario epoch priorities slot st w = (Ok st', w1)
    /\ VariantA.tps_effective st'
       = VariantA.tps_effective st ++ [VariantA.effective_tps L]
    /\ VariantA.contention_history st'
       = VariantA.contention_history st ++ [VariantA.contended L]
    /\ (delayed (finality_delay_slots cfg) (VariantA.tps_effective st)
                (VariantA.tps_finalized st) ->
        delayed (finality_delay_slots cfg) (VariantA.tps_effective st')
                (VariantA.tps_finalized st')).
Proof.
  intros E Hlen. unfold VariantA.slot_iter.
  rewrite (bind_Ok _ _ _ _ _ E).
  destruct (delayed_lookup_Ok (finality_delay_slots cfg)
              (VariantA.tps_effective st) (VariantA.effective_tps L)
              fds_nonneg) as (f & Ef).
  rewrite Hlen in Ef.
  erewrite bind_Ok.
  2:{ destruct (finality_delay_slots cfg <=? slot); unfold lift, ret.
      - rewrite Ef. reflexivity.
      - inversion Ef; subst. reflexivity. }
  eexists. split; [reflexivity |]. cbn.
  split; [reflexivity | split; [reflexivity |]].
  intros D. apply delayed_snoc; auto. rewrite Hlen. exact Ef.
Qed.

Lemma A_loop_Ok m : forall k st (w : World G),
  Zlen (VariantA.tps_effective st) = Z.of_nat k ->
  Zlen (VariantA.contention_history st) = Z.of_nat k ->
  delayed (finality_delay_slots cfg) (VariantA.tps_effective st)
          (VariantA.tps_finalized st) ->
  Z.of_nat (k + m) <= Zlen priorities ->
  exists st' w',
    for_each (map Z.of_nat (seq k m))
             (VariantA.slot_iter cfg scenario epoch priorities) st w
    = (Ok st', w') /\
    let tr := VariantA.slot_trace cfg scenario epoch priorities
                                  (map Z.of_nat (seq k m)) w in
    List.length tr = m /\
    VariantA.tps_effective st'
    = VariantA.tps_effective st ++ map VariantA.effective_tps tr /\
    VariantA.contention_history st'
    = VariantA.contention_history st ++ map VariantA.contended tr /\
    delayed (finality_delay_slots cfg) (VariantA.tps_effective st')
            (VariantA.tps_finalized st').
Proof.
  induction m as [| m IH]; intros k st w He Hc Hd Hp.
  - exists st, w. cbn. rewrite !app_nil_r. auto.
  - cbn [seq map for_each VariantA.slot_trace].
    destruct (A_slot_body_total cfg scenario epoch priorities
                (Z.of_nat k) w known) as (L & w1 & E); [lia |].
    destruct (A_slot_iter_Ok (Z.of_nat k) st w L w1 E He)
      as (st1 & E1 & He1 & Hc1 & Hd1).
    rewrite (bind_Ok _ _ _ _ _ E1), E.
    destruct (IH (S k) st1 w1) as (st' & w' & E' & Hl & He' & Hc' & Hd').
    + rewrite He1, Zlen_snoc, He. lia.
    + rewrite Hc1, Zlen_snoc, Hc. lia.
    + auto.
    + lia.
    + exists st', w'. split; [exact E' |]. cbn zeta. cbn [List.length map].
      cbv zeta in Hl. split; [lia |].
      split; [rewrite He', He1, <- app_assoc; reflexivity |].
      split; [rewrite Hc', Hc1, <- app_assoc; reflexivity | exact Hd'].
Qed.
End LoopA.

Lemma linspace_Ok a b n :
  0 <= n -> exists l, linspace a b n = Ok l /\ Zlen l = n.
Proof.
  intros Hn. unfold linspace.
  destruct (n <? 0) eqn:E; [apply Z.ltb_lt in E; lia |].
  eexists. split; [reflexivity |].
  unfold Zlen. rewrite length_map, range_length. lia.
Qed.

Section RunA.
Context {G : Type} {RS : RandomSource G}.
Variable cfg : Config.

Lemma A_csv_loop_Ok st slots : forall rows (w : World G),
  (forall s, In s slots ->
             0 <= s < Zlen (VariantA.tps_effective st) /\
             0 <= s < Zlen (VariantA.tps_finalized st) /\
             0 <= s < Zlen (VariantA.contention_history st)) ->
  exists rows',
    for_each slots (VariantA.csv_row st) rows w = (Ok rows', w).
Proof.
  induction slots as [| s rest IH]; intros rows w Hin.
  - exists rows. reflexivity.
  - destruct (Hin s (or_introl eq_refl)) as (He & Hf & Hc).
    apply getitem_in_range in He as (e & Ee), Hf as (f & Ef),
        Hc as (c & Ec).
    cbn [for_each]. unfold VariantA.csv_row at 1, bind at 1, bind at 1,
      bind at 1, bind at 1, lift, ret.
    rewrite Ee, Ef, Ec. apply IH. intros s' Hs'. apply Hin. now right.
Qed.

(** A run of variant A over at least one slot and a known tag returns, and
    its series are those of the trace. *)
Lemma A_run_spec n scenario epoch (w : World G) :
  0 <= finality_delay_slots cfg ->
  VariantA.recognised scenario ->
  0 < VariantA.slots_run n epoch ->
  exists r w',
    VariantA.run_simulation cfg n scenario epoch w = (Ok r, w') /\
    let tr := VariantA.run_trace cfg n scenario epoch w in
    Zlen tr = VariantA.slots_run n epoch /\
    VariantA.r_scenario r = scenario /\
    VariantA.r_tps_effective r = map VariantA.effective_tps tr /\
    VariantA.r_contention_history r = map VariantA.contended tr /\
    delayed (finality_delay_slots cfg) (VariantA.r_tps_effective r)
            (VariantA.r_tps_finalized r) /\
    VariantA.r_tps_theoretical r
    = (inject_Z (C cfg * T cfg) / inject_Z (P cfg))%Q /\
    VariantA.r_avg_tps_effective r = mean (VariantA.r_tps_effective r) /\
    VariantA.r_avg_tps_finalized r = mean (VariantA.r_tps_finalized r).
Proof.
  intros Hfds Hs Hn.
  unfold VariantA.run_simulation, VariantA.run_trace. cbv zeta.
  fold (VariantA.slots_run n epoch).
  set (N := VariantA.slots_run n epoch) in *.
  destruct (linspace_Ok (3 # 10) (7 # 10) N) as (pr & Epr & Lpr); [lia |].
  rewrite Epr.
  rewrite (bind_Ok (lift (Ok pr)) _ w pr w) by reflexivity.
  destruct (A_loop_Ok cfg Hfds scenario epoch pr Hs (Z.to_nat N) 0%nat
              (VariantA.mkSeries [] [] [] []) w)
    as (st & w1 & E1 & Hl & He & Hc & Hd);
    try reflexivity; [apply delayed_nil | cbn; lia |].
  fold (range N) in E1, Hl, He, Hc. cbv zeta in Hl.
  cbn [VariantA.tps_effective VariantA.contention_history app] in He, Hc.
  rewrite (bind_Ok _ _ _ _ _ E1).
  destruct (N =? 0) eqn:EN; [apply Z.eqb_eq in EN; lia |].
  rewrite (bind_Ok (ret _) _ w1 _ w1) by reflexivity.
  assert (Le : Zlen (VariantA.tps_effective st) = N).
  { rewrite He. unfold Zlen. rewrite length_map, Hl. lia. }
  assert (Lc : Zlen (VariantA.contention_history st) = N).
  { rewrite Hc. unfold Zlen. rewrite length_map, Hl. lia. }
  destruct (A_csv_loop_Ok st (range N) [VariantA.csv_header] w1)
    as (rows & Erows).
  { intros s Hin. apply in_range in Hin. destruct Hd as [Hlf _]. lia. }
  rewrite (bind_Ok _ _ _ _ _ Erows).
  unfold bind, write_csv, ret.
  eexists _, _. split; [reflexivity |]. cbn.
  repeat split; auto.
  - unfold Zlen. rewrite Hl. lia.
  - apply Hd.
  - apply Hd.
Qed.
End RunA.

(** ** Variant B *)


Section SlotB.
Context {G : Type} {RS : RandomSource G}.
Variable cfg : VariantB.ConfigB.

Lemma B_workloads_for_slot_inv scenario (w : World G) nw w' :
  VariantB.workloads_for_slot scenario w = (Ok nw, w') -> 5 <= nw <= 30.
Proof.
  unfold VariantB.workloads_for_slot. intros H.
  destruct (String.eqb scenario "stateless");
    [| destruct (String.eqb scenario "state-heavy")];
    apply randint_inv in H; lia.
Qed.

Lemma B_workloads_for_slot_total scenario (w : World G) :
  exists nw w', VariantB.workloads_for_slot scenario w = (Ok nw, w').
Proof.
  unfold VariantB.workloads_for_slot.
  destruct (String.eqb scenario "stateless");
    [| destruct (String.eqb scenario "state-heavy")]; apply randint_Ok.
Qed.

(** A tag that is neither of the first two is read as ["mixed"]. *)
Lemma B_workloads_for_slot_fallthrough scenario :
  scenario <> "stateless" -> scenario <> "state-heavy" ->
  @VariantB.workloads_for_slot G RS scenario
  = VariantB.workloads_for_slot "mixed".
Proof.
  intros N1 N2. unfold VariantB.workloads_for_slot.
  destruct (String.eqb_spec scenario "stateless"); [tauto |].
  destruct (String.eqb_spec scenario "state-heavy"); [tauto |].
  reflexivity.
Qed.

Lemma B_slot_body_total scenario (w : World G) :
  exists L w', VariantB.slot_body cfg scenario w = (Ok L, w').
Proof.
  unfold VariantB.slot_body.
  destruct (B_workloads_for_slot_total scenario w) as (nw & w1 & E1).
  rewrite (bind_Ok _ _ _ _ _ E1).
  destruct (multinomial_total
              (nw * (work_package_size (VariantB.base cfg)
                     / VariantB.CHUNK_SIZE cfg))
              (C (VariantB.base cfg)) w1) as (a & w2 & E2).
  rewrite (bind_Ok _ _ _ _ _ E2).
  destruct (VariantB.core_loop cfg nw a). eexists _, _. reflexivity.
Qed.

Lemma B_slot_body_inv scenario (w : World G) L w' :
  VariantB.wf_configB cfg ->
  VariantB.slot_body cfg scenario w = (Ok L, w') -> B_slot_facts cfg L.
Proof.
  intros [(HC & HP & HT & Hbw & Hwps & Hws & Hfds) Hch].
  unfold VariantB.slot_body. intros H.
  inv_bind H. apply B_workloads_for_slot_inv in E.
  inv_bind H. apply multinomial_inv in E0; try lia.
  2:{ apply Z.mul_nonneg_nonneg; [lia |]. apply Z.div_pos; lia. }
  rewrite B_core_loop_spec in H. inv_ret H.
  unfold B_slot_facts, VariantB.demand. cbn. repeat split; tauto || lia.
Qed.

Lemma B_trace_Forall (Phi : VariantB.SlotLocals -> Prop) scenario :
  (forall (w : World G) L w',
      VariantB.slot_body cfg scenario w = (Ok L, w') -> Phi L) ->
  forall slots (w : World G),
    Forall Phi (VariantB.slot_trace cfg scenario slots w).
Proof.
  intros HPhi. induction slots as [| slot rest IH]; intros w;
    cbn [VariantB.slot_trace].
  - constructor.
  - destruct (VariantB.slot_body _ _ _) as [[L | e] w1] eqn:E.
    + constructor; [eapply HPhi; eauto | apply IH].
    + constructor.
Qed.

Lemma B_trace_facts scenario slots (w : World G) :
  VariantB.wf_configB cfg ->
  Forall (B_slot_facts cfg) (VariantB.slot_trace cfg scenario slots w).
Proof.
  intros Hwf. apply B_trace_Forall. intros. eapply B_slot_body_inv; eauto.
Qed.

Hypothesis fds_nonneg : 0 <= finality_delay_slots (VariantB.base cfg).

Lemma B_slot_iter_Ok scenario slot st (w : World G) L w1 :
  VariantB.slot_body cfg scenario w = (Ok L, w1) ->
  Zlen (VariantB.effective_tps_series st) = slot ->
  exists st',
    VariantB.slot_iter cfg scenario slot st w = (Ok st', w1)
    /\ VariantB.effective_tps_series st'
       = VariantB.effective_tps_series st ++ [VariantB.effective_tps L]
    /\ VariantB.contention_flags st'
       = VariantB.contention_flags st ++ [VariantB.slot_contended L]
    /\ (delayed (finality_delay_slots (VariantB.base cfg))
                (VariantB.effective_tps_series st)
                (VariantB.finalized_tps_series st) ->
        delayed (finality_delay_slots (VariantB.base cfg))
                (VariantB.effective_tps_series st')
                (VariantB.finalized_tps_series st')).
Proof.
  intros E Hlen. unfold VariantB.slot_iter.
  rewrite (bind_Ok _ _ _ _ _ E).
  destruct (delayed_lookup_Ok (finality_delay_slots (VariantB.base cfg))
              (VariantB.effective_tps_series st) (VariantB.effective_tps L)
              fds_nonneg) as (f & Ef).
  rewrite Hlen in Ef.
  erewrite bind_Ok.
  2:{ destruct (finality_delay_slots (VariantB.base cfg) <=? slot);
      unfold lift, ret.
      - rewrite Ef. reflexivity.
      - inversion Ef; subst. reflexivity. }
  eexists. split; [reflexivity |]. cbn.
  split; [reflexivity | split; [reflexivity |]].
  intros D. apply delayed_snoc; auto. rewrite Hlen. exact Ef.
Qed.

Lemma B_loop_Ok scenario m : forall k st (w : World G),
  Zlen (VariantB.effective_tps_series st) = Z.of_nat k ->
  delayed (finality_delay_slots (VariantB.base cfg))
          (VariantB.effective_tps_series st)
          (VariantB.finalized_tps_series st) ->
  exists st' w',
    for_each (map Z.of_nat (seq k m)) (VariantB.slot_iter cfg scenario) st w
    = (Ok st', w') /\
    let tr := VariantB.slot_trace cfg scenario (map Z.of_nat (seq k m)) w in
    List.length tr = m /\
    VariantB.effective_tps_series st'
    = VariantB.effective_tps_series st ++ map VariantB.effective_tps tr /\
    VariantB.contention_flags st'
    = VariantB.contention_flags st ++ map VariantB.slot_contended tr /\
    delayed (finality_delay_slots (VariantB.base cfg))
            (VariantB.effective_tps_series st')
            (VariantB.finalized_tps_series st').
Proof.
  induction m as [| m IH]; intros k st w He Hd.
  - exists st, w. cbn. rewrite !app_nil_r. auto.
  - cbn [seq map for_each VariantB.slot_trace].
    destruct (B_slot_body_total scenario w) as (L & w1 & E).
    destruct (B_slot_iter_Ok scenario (Z.of_nat k) st w L w1 E He)
      as (st1 & E1 & He1 & Hc1 & Hd1).
    rewrite (bind_Ok _ _ _ _ _ E1), E.
    destruct (IH (S k) st1 w1) as (st' & w' & E' & Hl & He' & Hc' & Hd').
    + rewrite He1, Zlen_snoc, He. lia.
    + auto.
    + exists st', w'. split; [exact E' |]. cbn zeta. cbn [List.length map].
      cbv zeta in Hl. split; [lia |].
      split; [rewrite He', He1, <- app_assoc; reflexivity |].
      split; [rewrite Hc', Hc1, <- app_assoc; reflexivity | exact Hd'].
Qed.

(** A run of variant B over at least one slot returns, whatever the tag,
    and its series are those of the trace. *)
Lemma B_run_spec n scenario (w : World G) :
  0 < n ->
  exists r w',
    VariantB.run_simulation cfg n scenario w = (Ok r, w') /\
    let tr := VariantB.run_trace cfg n scenario w in
    Zlen tr = n /\
    VariantB.r_scenario r = scenario /\
    VariantB.r_effective_series r = map VariantB.effective_tps tr /\
    VariantB.r_contention_series r = map VariantB.slot_contended tr /\
    delayed (finality_delay_slots (VariantB.base cfg))
            (VariantB.r_effective_series r)
            (VariantB.r_finalized_series r) /\
    VariantB.r_theoretical_tps r
    = (inject_Z (C (VariantB.base cfg) * T (VariantB.base cfg))
       / inject_Z (P (VariantB.base cfg)))%Q /\
    VariantB.r_avg_effective_tps r = mean (VariantB.r_effective_series r) /\
    VariantB.r_avg_finalized_tps r = mean (VariantB.r_finalized_series r).
Proof.
  intros Hn. unfold VariantB.run_simulation, VariantB.run_trace.
  destruct (B_loop_Ok scenario (Z.to_nat n) 0%nat
              (VariantB.mkSeries [] [] [] []) w)
    as (st & w1 & E1 & Hl & He & Hc & Hd);
    try reflexivity; [apply delayed_nil |].
  fold (range n) in E1, Hl, He, Hc. cbv zeta in Hl.
  cbn [VariantB.effective_tps_series VariantB.contention_flags app]
    in He, Hc.
  rewrite (bind_Ok _ _ _ _ _ E1).
  destruct (n =? 0) eqn:EN; [apply Z.eqb_eq in EN; lia |].
  unfold bind, ret.
  eexists _, _. split; [reflexivity |]. cbn.
  repeat split; auto.
  - unfold Zlen. rewrite Hl. lia.
  - apply Hd.
  - apply Hd.
Qed.
End SlotB.

(** ** Every slot of a run *)

Section Coverage.
Context {G : Type} {RS : RandomSource G}.

Lemma A_run_trace_facts cfg n scenario epoch (w : World G) :
  0 < C cfg -> 0 < P cfg ->
  Forall (A_slot_facts cfg) (VariantA.run_trace cfg n scenario epoch w).
Proof.
  intros HC HP. unfold VariantA.run_trace.
  destruct (linspace _ _ _); [apply A_trace_facts; assumption | constructor].
Qed.

Lemma B_run_trace_facts cfg n scenario (w : World G) :
  VariantB.wf_configB cfg ->
  Forall (B_slot_facts cfg) (VariantB.run_trace cfg n scenario w).
Proof. intros Hwf. now apply B_trace_facts. Qed.

Lemma slots_run_pos n epoch : 0 < n -> 0 < VariantA.slots_run n epoch.
Proof. unfold VariantA.slots_run. destruct epoch; lia. Qed.
End Coverage.

(** ** Contention, one slot *)

Lemma A_contended_iff cfg L :
  A_slot_facts cfg L ->
  VariantA.contended L = true <->
  exists i, 0 <= i < C cfg /\ VariantA.capacity cfg < VariantA.demand cfg L i.
Proof.
  intros (_ & _ & _ & Hcount & _). unfold VariantA.contended.
  rewrite Hcount, Z.ltb_lt, indicator_sum_pos.
  split; intros (i & Hi & Hover); exists i.
  - apply in_range in Hi. apply Z.ltb_lt in Hover. auto.
  - split; [now apply in_range | now apply Z.ltb_lt].
Qed.

Lemma B_contended_iff cfg L :
  B_slot_facts cfg L ->
  VariantB.slot_contended L = true <->
  exists i, 0 <= i < C (VariantB.base cfg) /\
            VariantB.capacity cfg < VariantB.demand cfg L i.
Proof.
  intros (_ & _ & _ & Hflag & _). rewrite Hflag, existsb_exists.
  split; intros (i & Hi & Hover); exists i.
  - apply in_range in Hi. apply Z.ltb_lt in Hover. auto.
  - split; [now apply in_range | now apply Z.ltb_lt].
Qed.

Lemma single_core_iff (c : Z) (over : Z -> Prop) :
  c = 1 -> (exists i, 0 <= i < c /\ over i) <-> over 0.
Proof.
  intros ->. split.
  - intros (i & Hi & H). now replace i with 0 in H by lia.
  - intros H. exists 0. split; [lia | exact H].
Qed.

(** ** Transmitted bytes, one slot *)

Lemma min_sum_bounds (d : Z -> Z) (cap : Z) l :
  Zsum (map (fun i => Z.min (d i) cap) l) <= Zlen l * cap /\
  Zsum (map (fun i => Z.min (d i) cap) l) <= Zsum (map d l).
Proof.
  split.
  - rewrite <- (Zsum_map_const cap l). apply Zsum_map_le. intros; lia.
  - apply Zsum_map_le. intros; lia.
Qed.

Lemma A_total_demand cfg L :
  0 <= C cfg -> A_slot_facts cfg L ->
  Zsum (map (VariantA.demand cfg L) (range (C cfg)))
  = VariantA.workloads L * work_package_size cfg
    + VariantA.witnesses L * witness_size cfg.
Proof.
  intros HC (_ & (Lw & _ & Sw) & (Li & _ & Si) & _).
  unfold VariantA.demand, VariantA.core_data.
  rewrite (Zsum_map_add
             (fun i => nth (Z.to_nat i) (VariantA.workloads_per_core L) 0
                       * work_package_size cfg)
             (fun i => nth (Z.to_nat i) (VariantA.witnesses_per_core L) 0
                       * witness_size cfg)).
  rewrite !Zsum_map_mul_r.
  rewrite <- Lw at 1. rewrite <- Li. rewrite !map_nth_range. lia.
Qed.

Lemma B_total_demand cfg L :
  0 <= C (VariantB.base cfg) -> B_slot_facts cfg L ->
  Zsum (map (VariantB.demand cfg L) (range (C (VariantB.base cfg))))
  = VariantB.total_chunks L * VariantB.CHUNK_SIZE cfg
    + C (VariantB.base cfg)
      * VariantB.witness_bytes cfg (VariantB.num_workloads L).
Proof.
  intros HC (_ & _ & (Lc & _ & Sc) & _).
  unfold VariantB.demand, VariantB.needed.
  rewrite (Zsum_map_add
             (fun i => nth (Z.to_nat i) (VariantB.chunks_per_core L) 0
                       * VariantB.CHUNK_SIZE cfg)
             (fun _ => VariantB.witness_bytes cfg (VariantB.num_workloads L))).
  rewrite Zsum_map_mul_r, Zsum_map_const, Zlen_range by lia.
  rewrite <- Lc at 1. rewrite map_nth_range. lia.
Qed.

(** ** Effective TPS, one slot *)

Lemma tps_proportional (processed wps t p : Z) :
  0 < wps -> 0 < p ->
  (inject_Z processed / inject_Z wps * inject_Z t / inject_Z p
   * (inject_Z wps * inject_Z p)
   == inject_Z processed * inject_Z t)%Q.
Proof.
  intros Hw Hp.
  assert (Qw : (0 < inject_Z wps)%Q) by (rewrite (Zlt_Qlt 0 wps) in Hw; exact Hw).
  assert (Qp : (0 < inject_Z p)%Q) by (rewrite (Zlt_Qlt 0 p) in Hp; exact Hp).
  field. split; intros E; rewrite E in *; eapply Qlt_irrefl; eassumption.
Qed.

(** * The properties of the specification *)

(** C2: in a run of either variant the finalized TPS of slot [s] is the
    effective TPS of slot [s - finality_delay_slots] when
    [s >= finality_delay_slots], and zero for the earlier slots. *)
Theorem C2_finalized_tps_delayed
        {G : Type} {RS : RandomSource G}
        (cfgA : Config) (cfgB : VariantB.ConfigB)
        (n : Z) (scenario : string) (epoch : bool) (w : World G) :
  0 <= finality_delay_slots cfgA ->
  0 <= finality_delay_slots (VariantB.base cfgB) ->
  VariantA.recognised scenario ->
  0 < n ->
  (exists r w',
      VariantA.run_simulation cfgA n scenario epoch w = (Ok r, w') /\
      Zlen (VariantA.r_tps_finalized r) = VariantA.slots_run n epoch /\
      Zlen (VariantA.r_tps_effective r) = VariantA.slots_run n epoch /\
      forall s, 0 <= s < VariantA.slots_run n epoch ->
        getitem (VariantA.r_tps_finalized r) s
        = if finality_delay_slots cfgA <=? s
          then getitem (VariantA.r_tps_effective r)
                       (s - finality_delay_slots cfgA)
          else Ok 0%Q) /\
  (exists r w',
      VariantB.run_simulation cfgB n scenario w = (Ok r, w') /\
      Zlen (VariantB.r_finalized_series r) = n /\
      Zlen (VariantB.r_effective_series r) = n /\
      forall s, 0 <= s < n ->
        getitem (VariantB.r_finalized_series r) s
        = if finality_delay_slots (VariantB.base cfgB) <=? s
          then getitem (VariantB.r_effective_series r)
                       (s - finality_delay_slots (VariantB.base cfgB))
          else Ok 0%Q).
Proof.
  intros HfA HfB Hs Hn. split.
  - destruct (A_run_spec cfgA n scenario epoch w HfA Hs
                (slots_run_pos n epoch Hn))
      as (r & w' & E & Hl & _ & He & _ & [Hlen Hd] & _).
    cbv zeta in Hl, He.
    assert (Le : Zlen (VariantA.r_tps_effective r)
                 = VariantA.slots_run n epoch).
    { rewrite He. unfold Zlen in *. rewrite length_map. exact Hl. }
    exists r, w'. split; [exact E |].
    split; [lia | split; [exact Le |]].
    intros s Hrange. apply Hd. lia.
  - destruct (B_run_spec cfgB HfB n scenario w Hn)
      as (r & w' & E & Hl & _ & He & _ & [Hlen Hd] & _).
    cbv zeta in Hl, He.
    assert (Le : Zlen (VariantB.r_effective_series r) = n).
    { rewrite He. unfold Zlen in *. rewrite length_map. exact Hl. }
    exists r, w'. split; [exact E |].
    split; [lia | split; [exact Le |]].
    intros s Hrange. apply Hd. lia.
Qed.

Lemma C2_finalized_tps_delayed_witness :
  let w := empty_world [7; 11; 13] [1; 2; 3] in
  (exists r w',
      VariantA.run_simulation VariantA.config 4 "mixed" false w = (Ok r, w') /\
      Zlen (VariantA.r_tps_finalized r) = 4 /\
      Zlen (VariantA.r_tps_effective r) = 4 /\
      forall s, 0 <= s < 4 ->
        getitem (VariantA.r_tps_finalized r) s
        = if 2 <=? s
          then getitem (VariantA.r_tps_effective r) (s - 2)
          else Ok 0%Q) /\
  (exists r w',
      VariantB.run_simulation VariantB.config 4 "mixed" w = (Ok r, w') /\
      Zlen (VariantB.r_finalized_series r) = 4 /\
      Zlen (VariantB.r_effective_series r) = 4 /\
      forall s, 0 <= s < 4 ->
        getitem (VariantB.r_finalized_series r) s
        = if 2 <=? s
          then getitem (VariantB.r_effective_series r) (s - 2)
          else Ok 0%Q).
Proof.
  intros w.
  apply (C2_finalized_tps_delayed VariantA.config VariantB.config 4 "mixed"
           false w).
  - cbn. lia.
  - cbn. lia.
  - right. right. reflexivity.
  - lia.
Defined.

(** C3: a slot is flagged contended exactly when at least one core has to
    push more bytes than its capacity for the slot; with a single core the
    flag is decided by that core's demand against
    [core_bandwidth * P]. *)
Theorem C3_contended_iff_some_core_over
        {G : Type} {RS : RandomSource G}
        (cfgA : Config) (cfgB : VariantB.ConfigB)
        (n : Z) (scenario : string) (epoch : bool) (w : World G) :
  wf_config cfgA ->
  VariantB.wf_configB cfgB ->
  VariantA.recognised scenario ->
  0 < n ->
  (exists r w',
      VariantA.run_simulation cfgA n scenario epoch w = (Ok r, w') /\
      let tr := VariantA.run_trace cfgA n scenario epoch w in
      Zlen tr = VariantA.slots_run n epoch /\
      VariantA.r_contention_history r = map VariantA.contended tr /\
      Forall (fun L =>
                (VariantA.contended L = true <->
                 exists i, 0 <= i < C cfgA /\
                           VariantA.capacity cfgA < VariantA.demand cfgA L i)
                /\ (C cfgA = 1 ->
                    (VariantA.contended L = true <->
                     core_bandwidth cfgA * P cfgA < VariantA.demand cfgA L 0)))
             tr) /\
  (exists r w',
      VariantB.run_simulation cfgB n scenario w = (Ok r, w') /\
      let tr := VariantB.run_trace cfgB n scenario w in
      Zlen tr = n /\
      VariantB.r_contention_series r = map VariantB.slot_contended tr /\
      Forall (fun L =>
                (VariantB.slot_contended L = true <->
                 exists i, 0 <= i < C (VariantB.base cfgB) /\
                           VariantB.capacity cfgB < VariantB.demand cfgB L i)
                /\ (C (VariantB.base cfgB) = 1 ->
                    (VariantB.slot_contended L = true <->
                     core_bandwidth (VariantB.base cfgB)
                     * P (VariantB.base cfgB)
                     < VariantB.demand cfgB L 0)))
             tr).
Proof.
  intros HwfA HwfB Hs Hn.
  pose proof HwfA as (HC & HP & _ & _ & _ & _ & HfA).
  pose proof HwfB as [(_ & _ & _ & _ & _ & _ & HfB) _].
  split.
  - destruct (A_run_spec cfgA n scenario epoch w HfA Hs
                (slots_run_pos n epoch Hn))
      as (r & w' & E & Hl & _ & _ & Hc & _).
    exists r, w'. split; [exact E |]. cbv zeta in *.
    split; [exact Hl | split; [exact Hc |]].
    eapply Forall_impl; [| apply (A_run_trace_facts cfgA); assumption].
    intros L HL. split; [now apply A_contended_iff |].
    intros H1. rewrite (A_contended_iff cfgA L HL).
    apply (single_core_iff (C cfgA)
             (fun i => VariantA.capacity cfgA < VariantA.demand cfgA L i) H1).
  - destruct (B_run_spec cfgB HfB n scenario w Hn)
      as (r & w' & E & Hl & _ & _ & Hc & _).
    exists r, w'. split; [exact E |]. cbv zeta in *.
    split; [exact Hl | split; [exact Hc |]].
    eapply Forall_impl; [| apply (B_run_trace_facts cfgB); assumption].
    intros L HL. split; [now apply B_contended_iff |].
    intros H1. rewrite (B_contended_iff cfgB L HL).
    apply (single_core_iff (C (VariantB.base cfgB))
             (fun i => VariantB.capacity cfgB < VariantB.demand cfgB L i) H1).
Qed.


Lemma C3_contended_iff_some_core_over_witness :
  let w := empty_world [7; 11; 13] [1; 2; 3] in
  let cfgB := VariantB.mkConfigB single_core 100 in
  (exists r w',
      VariantA.run_simulation single_core 2 "stateless" false w = (Ok r, w') /\
      let tr := VariantA.run_trace single_core 2 "stateless" false w in
      Zlen tr = 2 /\
      VariantA.r_contention_history r = map VariantA.contended tr /\
      Forall (fun L =>
                (VariantA.contended L = true <->
                 exists i, 0 <= i < 1 /\
                           VariantA.capacity single_core
                           < VariantA.demand single_core L i)
                /\ (1 = 1 ->
                    (VariantA.contended L = true <->
                     1000 * 1 < VariantA.demand single_core L 0)))
             tr) /\
  (exists r w',
      VariantB.run_simulation cfgB 2 "stateless" w = (Ok r, w') /\
      let tr := VariantB.run_trace cfgB 2 "stateless" w in
      Zlen tr = 2 /\
      VariantB.r_contention_series r = map VariantB.slot_contended tr /\
      Forall (fun L =>
                (VariantB.slot_contended L = true <->
                 exists i, 0 <= i < 1 /\
                           VariantB.capacity cfgB < VariantB.demand cfgB L i)
                /\ (1 = 1 ->
                    (VariantB.slot_contended L = true <->
                     1000 * 1 < VariantB.demand cfgB L 0)))
             tr).
Proof.
  intros w cfgB.
  apply (C3_contended_iff_some_core_over single_core cfgB 2 "stateless"
           false w).
  - unfold wf_config. cbn. lia.
  - unfold VariantB.wf_configB, wf_config. cbn. lia.
  - left. reflexivity.
  - lia.
Defined.

(** C4: the bytes transmitted in a slot are the sum over the cores of
    [min(demand, capacity)]; they exceed neither the capacity of the whole
    pool nor the bytes demanded in the slot. *)
Theorem C4_transmitted_bytes_capped
        {G : Type} {RS : RandomSource G}
        (cfgA : Config) (cfgB : VariantB.ConfigB)
        (n : Z) (scenario : string) (epoch : bool) (w : World G) :
  wf_config cfgA ->
  VariantB.wf_configB cfgB ->
  VariantA.recognised scenario ->
  0 < n ->
  (exists r w',
      VariantA.run_simulation cfgA n scenario epoch w = (Ok r, w') /\
      let tr := VariantA.run_trace cfgA n scenario epoch w in
      Zlen tr = VariantA.slots_run n epoch /\
      VariantA.r_tps_effective r = map VariantA.effective_tps tr /\
      Forall (fun L =>
                let sent := VariantA.total_processed_data_in_slot L in
                let asked :=
                  Zsum (map (VariantA.demand cfgA L) (range (C cfgA))) in
                sent = Zsum (map (fun i => Z.min (VariantA.demand cfgA L i)
                                                 (VariantA.capacity cfgA))
                                 (range (C cfgA))) /\
                sent <= C cfgA * VariantA.capacity cfgA /\
                sent <= asked /\
                asked = VariantA.workloads L * work_package_size cfgA
                        + VariantA.witnesses L * witness_size cfgA)
             tr) /\
  (exists r w',
      VariantB.run_simulation cfgB n scenario w = (Ok r, w') /\
      let tr := VariantB.run_trace cfgB n scenario w in
      Zlen tr = n /\
      VariantB.r_effective_series r = map VariantB.effective_tps tr /\
      Forall (fun L =>
                let sent := VariantB.processed_bytes L in
                let asked :=
                  Zsum (map (VariantB.demand cfgB L)
                            (range (C (VariantB.base cfgB)))) in
                sent = Zsum (map (fun i => Z.min (VariantB.demand cfgB L i)
                                                 (VariantB.capacity cfgB))
                                 (range (C (VariantB.base cfgB)))) /\
                sent <= C (VariantB.base cfgB) * VariantB.capacity cfgB /\
                sent <= asked /\
                asked = VariantB.total_chunks L * VariantB.CHUNK_SIZE cfgB
                        + C (VariantB.base cfgB)
                          * VariantB.witness_bytes
                              cfgB (VariantB.num_workloads L))
             tr).
Proof.
  intros HwfA HwfB Hs Hn.
  pose proof HwfA as (HC & HP & _ & _ & _ & _ & HfA).
  pose proof HwfB as [(HCB & _ & _ & _ & _ & _ & HfB) _].
  split.
  - destruct (A_run_spec cfgA n scenario epoch w HfA Hs
                (slots_run_pos n epoch Hn))
      as (r & w' & E & Hl & _ & He & _).
    exists r, w'. split; [exact E |]. cbv zeta in *.
    split; [exact Hl | split; [exact He |]].
    eapply Forall_impl; [| apply (A_run_trace_facts cfgA); assumption].
    intros L HL.
    pose proof (A_total_demand cfgA L ltac:(lia) HL) as Hasked.
    destruct HL as (_ & _ & _ & _ & Hsent & _).
    assert (Hsum : VariantA.total_processed_data_in_slot L
                   = Zsum (map (fun i => Z.min (VariantA.demand cfgA L i)
                                               (VariantA.capacity cfgA))
                               (range (C cfgA)))).
    { rewrite Hsent. f_equal. apply map_ext. intros i. apply Z.min_comm. }
    destruct (min_sum_bounds (VariantA.demand cfgA L) (VariantA.capacity cfgA)
                (range (C cfgA))) as [B1 B2].
    rewrite Zlen_range in B1 by lia.
    rewrite Hsum. auto.
  - destruct (B_run_spec cfgB HfB n scenario w Hn)
      as (r & w' & E & Hl & _ & He & _).
    exists r, w'. split; [exact E |]. cbv zeta in *.
    split; [exact Hl | split; [exact He |]].
    eapply Forall_impl; [| apply (B_run_trace_facts cfgB); assumption].
    intros L HL.
    pose proof (B_total_demand cfgB L ltac:(lia) HL) as Hasked.
    destruct HL as (_ & _ & _ & _ & Hsent & _).
    destruct (min_sum_bounds (VariantB.demand cfgB L) (VariantB.capacity cfgB)
                (range (C (VariantB.base cfgB)))) as [B1 B2].
    rewrite Zlen_range in B1 by lia.
    rewrite Hsent. auto.
Qed.


Lemma C4_transmitted_bytes_capped_witness :
  let w := empty_world [7; 11; 13] [1; 2; 3] in
  let cfgB := VariantB.mkConfigB two_cores 100 in
  (exists r w',
      VariantA.run_simulation two_cores 2 "stateless" false w = (Ok r, w') /\
      let tr := VariantA.run_trace two_cores 2 "stateless" false w in
      Zlen tr = 2 /\
      VariantA.r_tps_effective r = map VariantA.effective_tps tr /\
      Forall (fun L =>
                let sent := VariantA.total_processed_data_in_slot L in
                let asked :=
                  Zsum (map (VariantA.demand two_cores L) (range 2)) in
                sent = Zsum (map (fun i => Z.min (VariantA.demand two_cores L i)
                                                 (VariantA.capacity two_cores))
                                 (range 2)) /\
                sent <= 2 * VariantA.capacity two_cores /\
                sent <= asked /\
                asked = VariantA.workloads L * 1000
                        + VariantA.witnesses L * 640)
             tr) /\
  (exists r w',
      VariantB.run_simulation cfgB 2 "stateless" w = (Ok r, w') /\
      let tr := VariantB.run_trace cfgB 2 "stateless" w in
      Zlen tr = 2 /\
      VariantB.r_effective_series r = map VariantB.effective_tps tr /\
      Forall (fun L =>
                let sent := VariantB.processed_bytes L in
                let asked := Zsum (map (VariantB.demand cfgB L) (range 2)) in
                sent = Zsum (map (fun i => Z.min (VariantB.demand cfgB L i)
                                                 (VariantB.capacity cfgB))
                                 (range 2)) /\
                sent <= 2 * VariantB.capacity cfgB /\
                sent <= asked /\
                asked = VariantB.total_chunks L * 100
                        + 2 * VariantB.witness_bytes
                                cfgB (VariantB.num_workloads L))
             tr).
Proof.
  intros w cfgB.
  apply (C4_transmitted_bytes_capped two_cores cfgB 2 "stateless" false w).
  - unfold wf_config. cbn. lia.
  - unfold VariantB.wf_configB, wf_config. cbn. lia.
  - left. reflexivity.
  - lia.
Defined.

(** C5: the effective TPS of a slot is
    [(transmitted_bytes / work_package_size) * T / P], in true division:
    it is proportional to the bytes transmitted, a part of a work-package
    counting for its share of the extrinsics. *)
Theorem C5_effective_tps_formula
        {G : Type} {RS : RandomSource G}
        (cfgA : Config) (cfgB : VariantB.ConfigB)
        (n : Z) (scenario : string) (epoch : bool) (w : World G) :
  wf_config cfgA ->
  VariantB.wf_configB cfgB ->
  VariantA.recognised scenario ->
  0 < n ->
  (exists r w',
      VariantA.run_simulation cfgA n scenario epoch w = (Ok r, w') /\
      let tr := VariantA.run_trace cfgA n scenario epoch w in
      Zlen tr = VariantA.slots_run n epoch /\
      VariantA.r_tps_effective r = map VariantA.effective_tps tr /\
      Forall (fun L =>
                let sent := VariantA.total_processed_data_in_slot L in
                VariantA.effective_tps L
                = (inject_Z sent / inject_Z (work_package_size cfgA)
                   * inject_Z (T cfgA) / inject_Z (P cfgA))%Q /\
                (VariantA.effective_tps L
                 * (inject_Z (work_package_size cfgA) * inject_Z (P cfgA))
                 == inject_Z sent * inject_Z (T cfgA))%Q)
             tr) /\
  (exists r w',
      VariantB.run_simulation cfgB n scenario w = (Ok r, w') /\
      let tr := VariantB.run_trace cfgB n scenario w in
      Zlen tr = n /\
      VariantB.r_effective_series r = map VariantB.effective_tps tr /\
      Forall (fun L =>
                let sent := VariantB.processed_bytes L in
                VariantB.effective_tps L
                = (inject_Z sent
                   / inject_Z (work_package_size (VariantB.base cfgB))
                   * inject_Z (T (VariantB.base cfgB))
                   / inject_Z (P (VariantB.base cfgB)))%Q /\
                (VariantB.effective_tps L
                 * (inject_Z (work_package_size (VariantB.base cfgB))
                    * inject_Z (P (VariantB.base cfgB)))
                 == inject_Z sent * inject_Z (T (VariantB.base cfgB)))%Q)
             tr).
Proof.
  intros HwfA HwfB Hs Hn.
  pose proof HwfA as (HC & HP & _ & _ & HW & _ & HfA).
  pose proof HwfB as [(HCB & HPB & _ & _ & HWB & _ & HfB) _].
  split.
  - destruct (A_run_spec cfgA n scenario epoch w HfA Hs
                (slots_run_pos n epoch Hn))
      as (r & w' & E & Hl & _ & He & _).
    exists r, w'. split; [exact E |]. cbv zeta in *.
    split; [exact Hl | split; [exact He |]].
    eapply Forall_impl; [| apply (A_run_trace_facts cfgA); assumption].
    intros L (_ & _ & _ & _ & _ & Heff). split; [exact Heff |].
    rewrite Heff. now apply tps_proportional.
  - destruct (B_run_spec cfgB HfB n scenario w Hn)
      as (r & w' & E & Hl & _ & He & _).
    exists r, w'. split; [exact E |]. cbv zeta in *.
    split; [exact Hl | split; [exact He |]].
    eapply Forall_impl; [| apply (B_run_trace_facts cfgB); assumption].
    intros L (_ & _ & _ & _ & _ & Heff). split; [exact Heff |].
    rewrite Heff. now apply tps_proportional.
Qed.

Lemma C5_effective_tps_formula_witness :
  let w := empty_world [7; 11; 13] [1; 2; 3] in
  let cfgB := VariantB.mkConfigB two_cores 100 in
  (exists r w',
      VariantA.run_simulation two_cores 2 "stateless" false w = (Ok r, w') /\
      let tr := VariantA.run_trace two_cores 2 "stateless" false w in
      Zlen tr = 2 /\
      VariantA.r_tps_effective r = map VariantA.effective_tps tr /\
      Forall (fun L =>
                let sent := VariantA.total_processed_data_in_slot L in
                VariantA.effective_tps L
                = (inject_Z sent / inject_Z 1000 * inject_Z 10
                   / inject_Z 1)%Q /\
                (VariantA.effective_tps L * (inject_Z 1000 * inject_Z 1)
                 == inject_Z sent * inject_Z 10)%Q)
             tr) /\
  (exists r w',
      VariantB.run_simulation cfgB 2 "stateless" w = (Ok r, w') /\
      let tr := VariantB.run_trace cfgB 2 "stateless" w in
      Zlen tr = 2 /\
      VariantB.r_effective_series r = map VariantB.effective_tps tr /\
      Forall (fun L =>
                let sent := VariantB.processed_bytes L in
                VariantB.effective_tps L
                = (inject_Z sent / inject_Z 1000 * inject_Z 10
                   / inject_Z 1)%Q /\
                (VariantB.effective_tps L * (inject_Z 1000 * inject_Z 1)
                 == inject_Z sent * inject_Z 10)%Q)
             tr).
Proof.
  intros w cfgB.
  apply (C5_effective_tps_formula two_cores cfgB 2 "stateless" false w).
  - unfold wf_config. cbn. lia.
  - unfold VariantB.wf_configB, wf_config. cbn. lia.
  - left. reflexivity.
  - lia.
Defined.

(** ** The ceiling *)

Lemma tps_le_theoretical (sent wps t p c : Z) :
  0 < wps -> 0 < p -> 0 <= t -> sent <= c * wps ->
  (inject_Z sent / inject_Z wps * inject_Z t / inject_Z p
   <= inject_Z (c * t) / inject_Z p)%Q.
Proof.
  intros Hw Hp Ht Hs.
  assert (Qw : (0 < inject_Z wps)%Q) by (rewrite (Zlt_Qlt 0 wps) in Hw; exact Hw).
  assert (Qp : (0 < inject_Z p)%Q) by (rewrite (Zlt_Qlt 0 p) in Hp; exact Hp).
  assert (Qt : (0 <= inject_Z t)%Q) by (rewrite (Zle_Qle 0 t) in Ht; exact Ht).
  assert (H1 : (inject_Z sent / inject_Z wps <= inject_Z c)%Q).
  { apply Qle_shift_div_r; [exact Qw |].
    rewrite <- inject_Z_mult, <- Zle_Qle. exact Hs. }
  unfold Qdiv at 1 3. apply Qmult_le_compat_r.
  - rewrite inject_Z_mult. apply Qmult_le_compat_r; assumption.
  - apply Qinv_le_0_compat. now apply Qlt_le_weak.
Qed.

Lemma Qsum_le_bound l b :
  Forall (fun x => (x <= b)%Q) l -> (Qsum l <= inject_Z (Zlen l) * b)%Q.
Proof.
  induction 1 as [| x l Hx Hl IH].
  - change (0 <= 0 * b)%Q. lra.
  - cbn [Qsum]. unfold Zlen in *. cbn [List.length].
    rewrite Nat2Z.inj_succ, <- Z.add_1_r, inject_Z_plus.
    change (inject_Z 1) with 1%Q. lra.
Qed.

Lemma mean_le l b :
  l <> [] -> Forall (fun x => (x <= b)%Q) l ->
  exists a, mean l = Num a /\ (a <= b)%Q.
Proof.
  intros Hne Hall. destruct l as [| x l]; [congruence |].
  eexists. split; [reflexivity |].
  apply Qle_shift_div_r.
  - unfold Zlen. cbn [List.length]. rewrite Nat2Z.inj_succ.
    change 0%Q with (inject_Z 0). rewrite <- Zlt_Qlt. lia.
  - rewrite Qmult_comm. now apply Qsum_le_bound.
Qed.

(** In variant A a slot asks for at most 6 work-packages and 3000
    witnesses. *)
Lemma A_slot_under_ceiling cfg L :
  wf_config cfg ->
  6 * work_package_size cfg + 3000 * witness_size cfg
  <= C cfg * work_package_size cfg ->
  A_slot_facts cfg L ->
  (VariantA.effective_tps L
   <= inject_Z (C cfg * T cfg) / inject_Z (P cfg))%Q.
Proof.
  intros (HC & HP & HT & _ & HW & HS & _) Hroom HL.
  pose proof (A_total_demand cfg L ltac:(lia) HL) as Hasked.
  destruct HL as ((Hwl & Hwi) & _ & _ & _ & Hsent & Heff).
  rewrite Heff. apply tps_le_theoretical; try lia.
  rewrite Hsent.
  assert (B2 : Zsum (map (fun i => Z.min (VariantA.capacity cfg)
                                         (VariantA.demand cfg L i))
                         (range (C cfg)))
               <= Zsum (map (VariantA.demand cfg L) (range (C cfg))))
    by (apply Zsum_map_le; intros; lia).
  nia.
Qed.

(** In variant B a slot asks for at most 30 work-packages, each cut in
    whole chunks, and one witness per work-package. *)
Lemma B_slot_under_ceiling cfg L :
  VariantB.wf_configB cfg ->
  30 * (work_package_size (VariantB.base cfg)
        + witness_size (VariantB.base cfg))
  <= C (VariantB.base cfg) * work_package_size (VariantB.base cfg) ->
  B_slot_facts cfg L ->
  (VariantB.effective_tps L
   <= inject_Z (C (VariantB.base cfg) * T (VariantB.base cfg))
      / inject_Z (P (VariantB.base cfg)))%Q.
Proof.
  intros [(HC & HP & HT & _ & HW & HS & _) HK] Hroom HL.
  pose proof (B_total_demand cfg L ltac:(lia) HL) as Hasked.
  destruct HL as (Hnw & Hchunks & _ & _ & Hsent & Heff).
  rewrite Heff. apply tps_le_theoretical; try lia.
  rewrite Hsent.
  assert (B2 : Zsum (map (fun i => Z.min (VariantB.demand cfg L i)
                                         (VariantB.capacity cfg))
                         (range (C (VariantB.base cfg))))
               <= Zsum (map (VariantB.demand cfg L)
                            (range (C (VariantB.base cfg)))))
    by (apply Zsum_map_le; intros; lia).
  unfold VariantB.witness_bytes in Hasked.
  pose proof (Z.mul_div_le (work_package_size (VariantB.base cfg))
                (VariantB.CHUNK_SIZE cfg) HK) as D1.
  pose proof (Z.mul_div_le (VariantB.num_workloads L)
                (C (VariantB.base cfg)) HC) as D2.
  pose proof (Z.div_pos (work_package_size (VariantB.base cfg))
                (VariantB.CHUNK_SIZE cfg) ltac:(lia) HK) as D3.
  pose proof (Z.div_pos (VariantB.num_workloads L)
                (C (VariantB.base cfg)) ltac:(lia) HC) as D4.
  rewrite Hchunks in Hasked.
  set (q := work_package_size (VariantB.base cfg) / VariantB.CHUNK_SIZE cfg) in *.
  set (s := VariantB.num_workloads L / C (VariantB.base cfg)) in *.
  assert (VariantB.num_workloads L * q * VariantB.CHUNK_SIZE cfg
          <= VariantB.num_workloads L * work_package_size (VariantB.base cfg))
    by nia.
  assert (C (VariantB.base cfg) * (s * witness_size (VariantB.base cfg))
          <= VariantB.num_workloads L * witness_size (VariantB.base cfg))
    by nia.
  nia.
Qed.

Lemma A_config_wf : wf_config VariantA.config.
Proof. unfold wf_config. cbn. lia. Qed.

Lemma B_config_wf : VariantB.wf_configB VariantB.config.
Proof. unfold VariantB.wf_configB, wf_config. cbn. lia. Qed.

Lemma nonempty_of_Zlen {A} (l : list A) : 0 < Zlen l -> l <> [].
Proof. intros H ->. unfold Zlen in H. cbn in H. lia. Qed.

(** C6, as the programs have it: [theoretical_tps] is [C * T / P]
    whatever the draws, and the average effective TPS of a run does not
    exceed it when the pool outsizes the largest slot the scenario policy
    can draw: 6 work-packages and 3000 witnesses against [C] work-packages
    in variant A, 30 work-packages and 30 witnesses in variant B.  The
    constants of both sources ([C = 341]) are within that. *)
Theorem C6_average_below_theoretical_with_room
        {G : Type} {RS : RandomSource G}
        (cfgA : Config) (cfgB : VariantB.ConfigB)
        (n : Z) (scenario : string) (epoch : bool) (w : World G) :
  wf_config cfgA ->
  VariantB.wf_configB cfgB ->
  6 * work_package_size cfgA + 3000 * witness_size cfgA
  < C cfgA * work_package_size cfgA ->
  30 * (work_package_size (VariantB.base cfgB)
        + witness_size (VariantB.base cfgB))
  < C (VariantB.base cfgB) * work_package_size (VariantB.base cfgB) ->
  VariantA.recognised scenario ->
  0 < n ->
  (exists r w' avg,
      VariantA.run_simulation cfgA n scenario epoch w = (Ok r, w')
      /\ VariantA.r_tps_theoretical r
         = (inject_Z (C cfgA * T cfgA) / inject_Z (P cfgA))%Q
      /\ VariantA.r_avg_tps_effective r = Num avg
      /\ (avg <= VariantA.r_tps_theoretical r)%Q) /\
  (exists r w' avg,
      VariantB.run_simulation cfgB n scenario w = (Ok r, w')
      /\ VariantB.r_theoretical_tps r
         = (inject_Z (C (VariantB.base cfgB) * T (VariantB.base cfgB))
            / inject_Z (P (VariantB.base cfgB)))%Q
      /\ VariantB.r_avg_effective_tps r = Num avg
      /\ (avg <= VariantB.r_theoretical_tps r)%Q).
Proof.
  intros HwfA HwfB HroomA HroomB Hs Hn. split.
  - pose proof HwfA as (HC & HP & _ & _ & _ & _ & Hf).
    destruct (A_run_spec cfgA n scenario epoch w Hf Hs
                (slots_run_pos n epoch Hn))
      as (r & w' & E & Hl & _ & He & _ & _ & Hth & Havg & _).
    cbv zeta in Hl, He.
    destruct (mean_le (VariantA.r_tps_effective r)
                (VariantA.r_tps_theoretical r)) as (avg & Eavg & Hle).
    + rewrite He. intros Hnil. apply map_eq_nil in Hnil. revert Hnil.
      apply nonempty_of_Zlen. rewrite Hl. now apply slots_run_pos.
    + rewrite He, Hth. apply Forall_map.
      eapply Forall_impl; [| apply (A_run_trace_facts cfgA); assumption].
      intros L HL. apply A_slot_under_ceiling; [exact HwfA | lia | exact HL].
    + exists r, w', avg. rewrite Havg. auto.
  - pose proof HwfB as [(HC & HP & _ & _ & _ & _ & Hf) _].
    destruct (B_run_spec cfgB Hf n scenario w Hn)
      as (r & w' & E & Hl & _ & He & _ & _ & Hth & Havg & _).
    cbv zeta in Hl, He.
    destruct (mean_le (VariantB.r_effective_series r)
                (VariantB.r_theoretical_tps r)) as (avg & Eavg & Hle).
    + rewrite He. intros Hnil. apply map_eq_nil in Hnil. revert Hnil.
      apply nonempty_of_Zlen. rewrite Hl. exact Hn.
    + rewrite He, Hth. apply Forall_map.
      eapply Forall_impl; [| apply (B_run_trace_facts cfgB); assumption].
      intros L HL. apply B_slot_under_ceiling; [exact HwfB | lia | exact HL].
    + exists r, w', avg. rewrite Havg. auto.
Qed.

Lemma C6_average_below_theoretical_with_room_witness :
  let w := empty_world [7; 11; 13] [1; 2; 3] in
  (exists r w' avg,
      VariantA.run_simulation VariantA.config 3 "state-heavy" false w
      = (Ok r, w')
      /\ VariantA.r_tps_theoretical r
         = (inject_Z (341 * 128) / inject_Z 6)%Q
      /\ VariantA.r_avg_tps_effective r = Num avg
      /\ (avg <= VariantA.r_tps_theoretical r)%Q) /\
  (exists r w' avg,
      VariantB.run_simulation VariantB.config 3 "state-heavy" w = (Ok r, w')
      /\ VariantB.r_theoretical_tps r
         = (inject_Z (341 * 128) / inject_Z 6)%Q
      /\ VariantB.r_avg_effective_tps r = Num avg
      /\ (avg <= VariantB.r_theoretical_tps r)%Q).
Proof.
  intros w.
  apply (C6_average_below_theoretical_with_room
           VariantA.config VariantB.config 3 "state-heavy" false w).
  - exact A_config_wf.
  - exact B_config_wf.
  - cbn. lia.
  - cbn. lia.
  - right. left. reflexivity.
  - lia.
Defined.

(** C7: the allocation the distributor returns has one entry per core,
    none negative, and sums to the units distributed; distributing zero
    units gives zeros only.  In every slot of variant A the work-package
    allocation sums to the workload count and the witness allocation to the
    witness count; in every slot of variant B the chunk allocation sums to
    the chunk count. *)
Theorem C7_allocation_sums_to_total
        {G : Type} {RS : RandomSource G}
        (cfgA : Config) (cfgB : VariantB.ConfigB)
        (n : Z) (scenario : string) (epoch : bool) (w : World G) :
  wf_config cfgA ->
  VariantB.wf_configB cfgB ->
  VariantA.recognised scenario ->
  0 < n ->
  (forall total (w0 : World G),
      0 <= total ->
      exists alloc w1,
        multinomial total (C cfgA) w0 = (Ok alloc, w1) /\
        Zlen alloc = C cfgA /\ Forall (fun x => 0 <= x) alloc /\
        Zsum alloc = total /\
        (total = 0 -> Forall (fun x => x = 0) alloc)) /\
  (exists r w',
      VariantA.run_simulation cfgA n scenario epoch w = (Ok r, w') /\
      let tr := VariantA.run_trace cfgA n scenario epoch w in
      Zlen tr = VariantA.slots_run n epoch /\
      VariantA.r_tps_effective r = map VariantA.effective_tps tr /\
      Forall (fun L =>
                (Zlen (VariantA.workloads_per_core L) = C cfgA /\
                 Forall (fun x => 0 <= x) (VariantA.workloads_per_core L) /\
                 Zsum (VariantA.workloads_per_core L) = VariantA.workloads L)
                /\
                (Zlen (VariantA.witnesses_per_core L) = C cfgA /\
                 Forall (fun x => 0 <= x) (VariantA.witnesses_per_core L) /\
                 Zsum (VariantA.witnesses_per_core L) = VariantA.witnesses L))
             tr) /\
  (exists r w',
      VariantB.run_simulation cfgB n scenario w = (Ok r, w') /\
      let tr := VariantB.run_trace cfgB n scenario w in
      Zlen tr = n /\
      VariantB.r_effective_series r = map VariantB.effective_tps tr /\
      Forall (fun L =>
                VariantB.total_chunks L
                = VariantB.num_workloads L
                  * (work_package_size (VariantB.base cfgB)
                     / VariantB.CHUNK_SIZE cfgB) /\
                Zlen (VariantB.chunks_per_core L) = C (VariantB.base cfgB) /\
                Forall (fun x => 0 <= x) (VariantB.chunks_per_core L) /\
                Zsum (VariantB.chunks_per_core L) = VariantB.total_chunks L)
             tr).
Proof.
  intros HwfA HwfB Hs Hn.
  pose proof HwfA as (HC & HP & _ & _ & _ & _ & HfA).
  pose proof HwfB as [(HCB & _ & _ & _ & _ & _ & HfB) _].
  split; [| split].
  - intros total w0 Ht.
    destruct (multinomial_spec total (C cfgA) w0 HC Ht)
      as (alloc & w1 & E & Hlen & Hpos & Hsum).
    exists alloc, w1. repeat split; auto.
    intros ->. now apply all_zero_of_sum_0.
  - destruct (A_run_spec cfgA n scenario epoch w HfA Hs
                (slots_run_pos n epoch Hn))
      as (r & w' & E & Hl & _ & He & _).
    exists r, w'. split; [exact E |]. cbv zeta in *.
    split; [exact Hl | split; [exact He |]].
    eapply Forall_impl; [| apply (A_run_trace_facts cfgA); assumption].
    intros L (_ & H1 & H2 & _). split; assumption.
  - destruct (B_run_spec cfgB HfB n scenario w Hn)
      as (r & w' & E & Hl & _ & He & _).
    exists r, w'. split; [exact E |]. cbv zeta in *.
    split; [exact Hl | split; [exact He |]].
    eapply Forall_impl; [| apply (B_run_trace_facts cfgB); assumption].
    intros L (_ & H1 & (H2 & H3 & H4) & _). auto.
Qed.

Lemma C7_allocation_sums_to_total_witness :
  let w := empty_world [7; 11; 13] [1; 2; 3] in
  let cfgB := VariantB.mkConfigB two_cores 100 in
  (forall total (w0 : World (list Z)),
      0 <= total ->
      exists alloc w1,
        multinomial total 2 w0 = (Ok alloc, w1) /\
        Zlen alloc = 2 /\ Forall (fun x => 0 <= x) alloc /\
        Zsum alloc = total /\
        (total = 0 -> Forall (fun x => x = 0) alloc)) /\
  (exists r w',
      VariantA.run_simulation two_cores 2 "stateless" false w = (Ok r, w') /\
      let tr := VariantA.run_trace two_cores 2 "stateless" false w in
      Zlen tr = 2 /\
      VariantA.r_tps_effective r = map VariantA.effective_tps tr /\
      Forall (fun L =>
                (Zlen (VariantA.workloads_per_core L) = 2 /\
                 Forall (fun x => 0 <= x) (VariantA.workloads_per_core L) /\
                 Zsum (VariantA.workloads_per_core L) = VariantA.workloads L)
                /\
                (Zlen (VariantA.witnesses_per_core L) = 2 /\
                 Forall (fun x => 0 <= x) (VariantA.witnesses_per_core L) /\
                 Zsum (VariantA.witnesses_per_core L) = VariantA.witnesses L))
             tr) /\
  (exists r w',
      VariantB.run_simulation cfgB 2 "stateless" w = (Ok r, w') /\
      let tr := VariantB.run_trace cfgB 2 "stateless" w in
      Zlen tr = 2 /\
      VariantB.r_effective_series r = map VariantB.effective_tps tr /\
      Forall (fun L =>
                VariantB.total_chunks L
                = VariantB.num_workloads L * (1000 / 100) /\
                Zlen (VariantB.chunks_per_core L) = 2 /\
                Forall (fun x => 0 <= x) (VariantB.chunks_per_core L) /\
                Zsum (VariantB.chunks_per_core L) = VariantB.total_chunks L)
             tr).
Proof.
  intros w cfgB.
  apply (C7_allocation_sums_to_total two_cores cfgB 2 "stateless" false w).
  - unfold wf_config. cbn. lia.
  - unfold VariantB.wf_configB, wf_config. cbn. lia.
  - left. reflexivity.
  - lia.
Defined.

(** C9: in variant B the bytes a core has to push in a slot are its chunks
    times [CHUNK_SIZE] plus the same witness share for every core,
    [num_workloads // C] witnesses of [witness_size] bytes (one witness per
    work-package, spread evenly, in integer division); contention and
    transmitted bytes are computed from that demand. *)
Theorem C9_variantB_even_witness_share
        {G : Type} {RS : RandomSource G}
        (cfg : VariantB.ConfigB) (n : Z) (scenario : string) (w : World G) :
  VariantB.wf_configB cfg ->
  0 < n ->
  exists r w',
    VariantB.run_simulation cfg n scenario w = (Ok r, w') /\
    let tr := VariantB.run_trace cfg n scenario w in
    let cores := C (VariantB.base cfg) in
    Zlen tr = n /\
    VariantB.r_effective_series r = map VariantB.effective_tps tr /\
    Forall (fun L =>
              let share :=
                VariantB.num_workloads L / cores
                * witness_size (VariantB.base cfg) in
              let bytes i :=
                nth (Z.to_nat i) (VariantB.chunks_per_core L) 0
                * VariantB.CHUNK_SIZE cfg + share in
              (forall i, VariantB.demand cfg L i = bytes i) /\
              (VariantB.slot_contended L = true <->
               exists i, 0 <= i < cores /\ VariantB.capacity cfg < bytes i) /\
              VariantB.processed_bytes L
              = Zsum (map (fun i => Z.min (bytes i) (VariantB.capacity cfg))
                          (range cores)))
           tr.
Proof.
  intros Hwf Hn.
  pose proof Hwf as [(HC & _ & _ & _ & _ & _ & Hf) _].
  destruct (B_run_spec cfg Hf n scenario w Hn)
    as (r & w' & E & Hl & _ & He & _).
  exists r, w'. split; [exact E |]. cbv zeta in *.
  split; [exact Hl | split; [exact He |]].
  eapply Forall_impl; [| apply (B_run_trace_facts cfg); assumption].
  intros L HL. split; [reflexivity |].
  split; [exact (B_contended_iff cfg L HL) |].
  destruct HL as (_ & _ & _ & _ & Hsent & _). exact Hsent.
Qed.

Lemma C9_variantB_even_witness_share_witness :
  let w := empty_world [7; 11; 13] [1; 2; 3] in
  let cfg := VariantB.mkConfigB two_cores 100 in
  exists r w',
    VariantB.run_simulation cfg 2 "mixed" w = (Ok r, w') /\
    let tr := VariantB.run_trace cfg 2 "mixed" w in
    Zlen tr = 2 /\
    VariantB.r_effective_series r = map VariantB.effective_tps tr /\
    Forall (fun L =>
              let share := VariantB.num_workloads L / 2 * 640 in
              let bytes i :=
                nth (Z.to_nat i) (VariantB.chunks_per_core L) 0 * 100 + share in
              (forall i, VariantB.demand cfg L i = bytes i) /\
              (VariantB.slot_contended L = true <->
               exists i, 0 <= i < 2 /\ VariantB.capacity cfg < bytes i) /\
              VariantB.processed_bytes L
              = Zsum (map (fun i => Z.min (bytes i) (VariantB.capacity cfg))
                          (range 2)))
           tr.
Proof.
  intros w cfg.
  apply (C9_variantB_even_witness_share cfg 2 "mixed" w).
  - unfold VariantB.wf_configB, wf_config. cbn. lia.
  - lia.
Defined.

(** With the constants of variant B the share is zero: a slot has at most
    30 work-packages for 341 cores. *)
Lemma B_witness_share_is_zero
      {G : Type} {RS : RandomSource G} (n : Z) (scenario : string)
      (w : World G) :
  Forall (fun L => VariantB.witness_bytes VariantB.config
                                          (VariantB.num_workloads L) = 0)
         (VariantB.run_trace VariantB.config n scenario w).
Proof.
  eapply Forall_impl;
    [| apply (B_run_trace_facts VariantB.config); apply B_config_wf].
  intros L (Hnw & _). unfold VariantB.witness_bytes.
  change (C (VariantB.base VariantB.config)) with 341.
  rewrite Z.div_small by lia. reflexivity.
Qed.

(** ** What a run reads and writes *)

Section Confinement.
Context {G : Type} {RS : RandomSource G}.
Variable writable : string -> bool.

Lemma confined_ret {A} (a : A) : confined (G := G) writable (ret a).
Proof. intros w1 w2 H. cbn. auto. Qed.

Lemma confined_raise {A} e : confined (G := G) (A := A) writable (raise e).
Proof. intros w1 w2 H. cbn. auto. Qed.

Lemma confined_lift {A} (o : outcome A) : confined (G := G) writable (lift o).
Proof. intros w1 w2 H. cbn. auto. Qed.

Lemma confined_bind {A B} (m : M G A) (k : A -> M G B) :
  confined writable m -> (forall a, confined writable (k a)) ->
  confined writable (bind m k).
Proof.
  intros Hm Hk w1 w2 Hw. unfold bind.
  destruct (Hm w1 w2 Hw) as (Ho & Hr & He & Hd & Hf).
  destruct (m w1) as [[a | e] w1'], (m w2) as [[a2 | e2] w2'];
    cbn in Ho, Hr, He, Hd, Hf; try discriminate.
  - injection Ho as <-.
    destruct (Hk a w1' w2' Hr) as (Ho' & Hr' & He' & Hd' & Hf').
    split; [exact Ho' |]. split; [exact Hr' |].
    split; [congruence |]. split; [congruence |].
    intros p Hp. rewrite Hf', Hf; auto.
  - injection Ho as <-. cbn. auto.
Qed.

Lemma confined_randint a b : confined writable (randint a b).
Proof.
  intros w1 w2 [Hpy Hnp]. unfold randint. rewrite Hpy.
  destruct (next_raw (py_random w2)) as [r g]. cbn.
  repeat split; auto.
Qed.

Lemma confined_random : confined writable random.
Proof.
  intros w1 w2 [Hpy Hnp]. unfold random. rewrite Hpy.
  destruct (next_raw (py_random w2)) as [r g]. cbn.
  repeat split; auto.
Qed.

Lemma confined_random_seed z : confined writable (random_seed z).
Proof. intros w1 w2 [Hpy Hnp]. cbn. repeat split; auto. Qed.

Lemma confined_multinomial n c : confined writable (multinomial n c).
Proof.
  intros w1 w2 [Hpy Hnp]. unfold multinomial. rewrite Hnp.
  destruct (throw _ _ _ _) as [bins g]. cbn. repeat split; auto.
Qed.

Lemma confined_write_csv path rows :
  writable path = true -> confined (G := G) writable (write_csv path rows).
Proof.
  intros Hpath w1 w2 [Hpy Hnp]. cbn. repeat split; auto.
  intros p Hp. destruct (String.eqb_spec p path) as [-> | Hne];
    [congruence | reflexivity].
Qed.

Lemma confined_for_each {A S} (body : A -> S -> M G S) xs :
  (forall x st, confined writable (body x st)) ->
  forall st, confined writable (for_each xs body st).
Proof.
  intros Hbody. induction xs as [| x xs IH]; intros st; cbn [for_each].
  - apply confined_ret.
  - apply confined_bind; [apply Hbody | exact IH].
Qed.

Lemma confined_if {A} (b : bool) (m1 m2 : M G A) :
  confined writable m1 -> confined writable m2 ->
  confined writable (if b then m1 else m2).
Proof. destruct b; auto. Qed.
End Confinement.

Create HintDb confined.

#[local] Hint Resolve confined_ret confined_raise confined_lift
  confined_randint confined_random confined_random_seed
  confined_multinomial confined_if : confined.

Ltac confine :=
  repeat first
    [ solve [auto with confined]
    | solve [apply confined_write_csv; assumption]
    | apply confined_bind; [| intros ?]
    | apply confined_for_each; intros ? ?
    | apply confined_if
    | match goal with
      | |- confined _ (let (_, _) := ?p in _) => destruct p
      end ].

Section ConfinedRuns.
Context {G : Type} {RS : RandomSource G}.
Variable writable : string -> bool.

Lemma A_draw_demand_confined (cfg : Config) scenario :
  confined (G := G) writable (VariantA.draw_demand scenario).
Proof. unfold VariantA.draw_demand. confine. Qed.

Lemma A_slot_iter_confined (cfg : Config) scenario epoch priorities slot st :
  confined (G := G) writable
           (VariantA.slot_iter cfg scenario epoch priorities slot st).
Proof.
  unfold VariantA.slot_iter, VariantA.slot_body. confine.
Qed.

Lemma A_csv_row_confined st slot rows :
  confined (G := G) writable (VariantA.csv_row st slot rows).
Proof. unfold VariantA.csv_row. confine. Qed.

Lemma B_run_confined (cfg : VariantB.ConfigB) n scenario :
  confined (G := G) writable (VariantB.run_simulation cfg n scenario).
Proof.
  unfold VariantB.run_simulation, VariantB.slot_iter, VariantB.slot_body,
    VariantB.workloads_for_slot.
  confine.
Qed.

Lemma A_run_confined (cfg : Config) n scenario epoch :
  writable "simulation_results.csv" = true ->
  confined (G := G) writable (VariantA.run_simulation cfg n scenario epoch).
Proof.
  intros Hw. unfold VariantA.run_simulation. cbv zeta. confine.
Qed.
End ConfinedRuns.

Section WritesFile.
Context {G : Type} {RS : RandomSource G}.
Variable path : string.

Lemma confined_same_world {A} (m : M G A) (w : World G) :
  confined (fun _ => false) m ->
  forall p, files (snd (m w)) p = files w p.
Proof.
  intros Hm p.
  destruct (Hm w w (conj eq_refl eq_refl)) as (_ & _ & _ & _ & Hf).
  now apply Hf.
Qed.

Lemma writes_file_bind {A B} (m : M G A) (k : A -> M G B) :
  confined (fun _ => false) m ->
  (forall a, writes_file path (k a)) ->
  writes_file path (bind m k).
Proof.
  intros Hm Hk w. unfold bind.
  pose proof (confined_same_world m w Hm) as Hf.
  destruct (m w) as [[a | e] w1]; cbn [snd] in Hf.
  - specialize (Hk a w1). destruct (k a w1) as [[b | e] w2].
    + exact Hk.
    + intros p. rewrite Hk. apply Hf.
  - exact Hf.
Qed.

Lemma writes_file_write_csv {A} rows (a : A) :
  writes_file (G := G) path (bind (write_csv path rows) (fun _ => ret a)).
Proof.
  intros w. cbn. exists rows. now rewrite String.eqb_refl.
Qed.

End WritesFile.

Lemma A_run_writes_file {G : Type} {RS : RandomSource G}
      (cfg : Config) n scenario epoch :
  writes_file (G := G) "simulation_results.csv"
              (VariantA.run_simulation cfg n scenario epoch).
Proof.
  unfold VariantA.run_simulation. cbv zeta.
  repeat (apply writes_file_bind; [solve [confine] | intros ?]).
  apply writes_file_write_csv.
Qed.

(** C8, as the programs have it: a run of variant B reads nothing but the
    two random generators and changes neither file, environment nor
    display.  A run of variant A reads nothing else either and leaves the
    environment and the display alone, but when it returns it has written
    the per-slot table to [simulation_results.csv], and to no other file;
    when it raises, no file has changed. *)
Theorem C8_run_reads_random_writes_csv_only
        {G : Type} {RS : RandomSource G}
        (cfgA : Config) (cfgB : VariantB.ConfigB)
        (n : Z) (scenario : string) (epoch : bool) :
  confined (G := G) (fun _ => false)
           (VariantB.run_simulation cfgB n scenario) /\
  confined (G := G) (fun p => String.eqb p "simulation_results.csv")
           (VariantA.run_simulation cfgA n scenario epoch) /\
  writes_file (G := G) "simulation_results.csv"
              (VariantA.run_simulation cfgA n scenario epoch).
Proof.
  split; [apply B_run_confined |].
  split; [apply A_run_confined; reflexivity | apply A_run_writes_file].
Qed.

(** C8 does not hold of variant A: one slot of the stateless scenario
    leaves a file behind that was not there. *)
Lemma C8_variantA_run_writes_a_file :
  ~ confined (G := list Z) (fun _ => false)
      (VariantA.run_simulation VariantA.config 1 "stateless" false).
Proof.
  intros H.
  pose proof (confined_same_world _ (empty_world [] []) H
                "simulation_results.csv") as Hf.
  vm_compute in Hf. discriminate Hf.
Qed.

(** ** Unknown scenario tags *)

Lemma range_pos n : 0 < n -> exists rest, range n = 0 :: rest.
Proof.
  intros Hn. unfold range.
  destruct (Z.to_nat n) as [| k] eqn:E; [lia |].
  cbn [seq map]. eexists. reflexivity.
Qed.

Section UnknownTag.
Context {G : Type} {RS : RandomSource G}.

Lemma A_slot_body_unknown (cfg : Config) scenario epoch priorities slot
      (w : World G) :
  ~ VariantA.recognised scenario -> 0 <= slot < Zlen priorities ->
  exists w1,
    VariantA.slot_body cfg scenario epoch priorities slot w
    = (Raise (ValueError "Unknown scenario."), w1) /\
    files w1 = files w.
Proof.
  intros Hs Hslot. unfold VariantA.slot_body.
  destruct (getitem_in_range priorities slot Hslot) as (pr & Epr).
  rewrite (bind_Ok (lift (getitem priorities slot)) _ w pr w)
    by (unfold lift; now rewrite Epr).
  assert (exists w1,
             (if epoch && (slot mod 100 =? 0)
              then bind (randint 0 (2 ^ 32 - 1)) (fun s => random_seed s)
              else ret tt) w = (Ok tt, w1) /\ files w1 = files w)
    as (w1 & E1 & F1).
  { destruct (epoch && (slot mod 100 =? 0)).
    - unfold bind, randint, random_seed.
      destruct (next_raw (py_random w)) as [r g].
      eexists. split; reflexivity.
    - eexists. split; reflexivity. }
  rewrite (bind_Ok _ _ _ _ _ E1).
  rewrite (bind_Raise _ _ _ _ _ (A_draw_demand_unknown scenario w1 Hs)).
  exists w1. split; [reflexivity | exact F1].
Qed.

(** Variant A: an unknown tag raises [ValueError] in the first pass of the
    slot loop; no slot has been computed and no file written. *)
Lemma A_unknown_scenario_raises (cfg : Config) n scenario epoch (w : World G) :
  ~ VariantA.recognised scenario ->
  0 < VariantA.slots_run n epoch ->
  exists w',
    VariantA.run_simulation cfg n scenario epoch w
    = (Raise (ValueError "Unknown scenario."), w') /\
    files w' = files w /\
    VariantA.run_trace cfg n scenario epoch w = [].
Proof.
  intros Hs Hn.
  unfold VariantA.run_simulation, VariantA.run_trace. cbv zeta.
  fold (VariantA.slots_run n epoch).
  set (N := VariantA.slots_run n epoch) in *.
  destruct (linspace_Ok (3 # 10) (7 # 10) N) as (pr & Epr & Lpr); [lia |].
  rewrite Epr.
  rewrite (bind_Ok (lift (Ok pr)) _ w pr w) by reflexivity.
  destruct (range_pos N Hn) as (rest & ->).
  destruct (A_slot_body_unknown cfg scenario epoch pr 0 w Hs)
    as (w1 & E1 & F1); [lia |].
  cbn [for_each VariantA.slot_trace]. rewrite E1.
  exists w1. split; [| split; [exact F1 | reflexivity]].
  apply bind_Raise. apply bind_Raise.
  unfold VariantA.slot_iter. apply bind_Raise. exact E1.
Qed.

(** Variant A without slots: the division of line 106 fails first, whatever
    the tag. *)
Lemma A_no_slot_raises_ZeroDivisionError (cfg : Config) scenario
      (w : World G) :
  VariantA.run_simulation cfg 0 scenario false w = (Raise ZeroDivisionError, w).
Proof. reflexivity. Qed.

(** Variant B: a tag that is neither ["stateless"] nor ["state-heavy"] goes
    through the slots exactly as ["mixed"] does. *)
Lemma B_unknown_tag_read_as_mixed (cfg : VariantB.ConfigB) n scenario
      (w : World G) :
  scenario <> "stateless" -> scenario <> "state-heavy" ->
  VariantB.run_trace cfg n scenario w = VariantB.run_trace cfg n "mixed" w.
Proof.
  intros N1 N2. unfold VariantB.run_trace.
  generalize (range n) w. induction l as [| s rest IH]; intros w0.
  - reflexivity.
  - cbn [VariantB.slot_trace].
    assert (Hbody : VariantB.slot_body cfg scenario w0
                    = VariantB.slot_body cfg "mixed" w0).
    { unfold VariantB.slot_body.
      now rewrite (B_workloads_for_slot_fallthrough scenario N1 N2). }
    rewrite Hbody.
    destruct (VariantB.slot_body cfg "mixed" w0) as [[L | e] w1];
      [now rewrite IH | reflexivity].
Qed.
End UnknownTag.

(** C1 fails in variant B: with the constants of the source, one slot and
    the tag ["bogus"], [run_simulation] returns a result with one entry per
    series instead of raising, for every state of the generators. *)
Theorem C1_variantB_accepts_unknown_tag
        {G : Type} {RS : RandomSource G} (w : World G) :
  exists r w',
    VariantB.run_simulation VariantB.config 1 "bogus" w = (Ok r, w') /\
    VariantB.r_scenario r = "bogus" /\
    Zlen (VariantB.r_effective_series r) = 1 /\
    Zlen (VariantB.r_finalized_series r) = 1 /\
    VariantB.run_trace VariantB.config 1 "bogus" w
    = VariantB.run_trace VariantB.config 1 "mixed" w.
Proof.
  pose proof B_config_wf as [(_ & _ & _ & _ & _ & _ & Hf) _].
  destruct (B_run_spec VariantB.config Hf 1 "bogus" w ltac:(lia))
    as (r & w' & E & Hl & Hsc & He & _ & [Hlen _] & _).
  cbv zeta in Hl, He.
  assert (Le : Zlen (VariantB.r_effective_series r) = 1).
  { rewrite He. unfold Zlen in *. rewrite length_map. exact Hl. }
  exists r, w'.
  split; [exact E | split; [exact Hsc | split; [exact Le | split; [lia |]]]].
  apply B_unknown_tag_read_as_mixed; discriminate.
Qed.

(** C10: with [epoch_mode = True] variant A goes through 600 slots whatever
    [num_slots] it was called with. *)
Theorem C10_epoch_mode_runs_600_slots
        {G : Type} {RS : RandomSource G}
        (cfg : Config) (n : Z) (scenario : string) (w : World G) :
  0 <= finality_delay_slots cfg ->
  VariantA.recognised scenario ->
  VariantA.run_simulation cfg n scenario true w
  = VariantA.run_simulation cfg 600 scenario true w /\
  exists r w',
    VariantA.run_simulation cfg n scenario true w = (Ok r, w') /\
    Zlen (VariantA.run_trace cfg n scenario true w) = 600 /\
    Zlen (VariantA.r_tps_effective r) = 600 /\
    Zlen (VariantA.r_tps_finalized r) = 600 /\
    Zlen (VariantA.r_contention_history r) = 600.
Proof.
  intros Hf Hs. split; [reflexivity |].
  destruct (A_run_spec cfg n scenario true w Hf Hs ltac:(reflexivity))
    as (r & w' & E & Hl & _ & He & Hc & [Hlen _] & _).
  cbv zeta in Hl, He, Hc. change (VariantA.slots_run n true) with 600 in Hl.
  assert (Le : Zlen (VariantA.r_tps_effective r) = 600).
  { rewrite He. unfold Zlen in *. rewrite length_map. exact Hl. }
  assert (Lc : Zlen (VariantA.r_contention_history r) = 600).
  { rewrite Hc. unfold Zlen in *. rewrite length_map. exact Hl. }
  exists r, w'. repeat split; auto; lia.
Qed.

Lemma C10_epoch_mode_runs_600_slots_witness :
  let w := empty_world [7; 11; 13] [1; 2; 3] in
  VariantA.run_simulation two_cores 5 "mixed" true w
  = VariantA.run_simulation two_cores 600 "mixed" true w /\
  exists r w',
    VariantA.run_simulation two_cores 5 "mixed" true w = (Ok r, w') /\
    Zlen (VariantA.run_trace two_cores 5 "mixed" true w) = 600 /\
    Zlen (VariantA.r_tps_effective r) = 600 /\
    Zlen (VariantA.r_tps_finalized r) = 600 /\
    Zlen (VariantA.r_contention_history r) = 600.
Proof.
  intros w.
  apply (C10_epoch_mode_runs_600_slots two_cores 5 "mixed" w).
  - cbn. lia.
  - right. right. reflexivity.
Defined.

(** C6 does not hold of every setting: with the 16 cores the settings of
    variant B suggest for a development box, a state-heavy slot of 30
    work-packages is transmitted whole, 632 TPS against a
    [theoretical_tps] of 341; in variant A two roomy cores transmit the
    two work-packages and 111 witnesses of a stateless slot, 21.11 TPS
    against 20. *)
Lemma C6_average_exceeds_theoretical_with_few_cores :
  (exists r w' avg,
      VariantB.run_simulation sixteen_cores 1 "state-heavy"
                              (empty_world [15] []) = (Ok r, w') /\
      VariantB.r_avg_effective_tps r = Num avg /\
      (VariantB.r_theoretical_tps r < avg)%Q) /\
  (exists r w' avg,
      VariantA.run_simulation roomy 1 "stateless" false
                              (empty_world [1; 11] []) = (Ok r, w') /\
      VariantA.r_avg_tps_effective r = Num avg /\
      (VariantA.r_tps_theoretical r < avg)%Q).
Proof.
  split.
  - eexists _, _, _. split; [vm_compute; reflexivity |].
    split; [reflexivity |]. vm_compute. reflexivity.
  - eexists _, _, _. split; [vm_compute; reflexivity |].
    split; [reflexivity |]. vm_compute. reflexivity.
Qed.

(** Bytes short of a whole work-package count for their share: 2111 bytes
    of 1000-byte packages of ten extrinsics make 21.11 TPS in a slot of one
    second. *)
Lemma A_partial_package_counts :
  map VariantA.effective_tps
      (VariantA.run_trace roomy 1 "stateless" false
                          (empty_world [1; 11] []))
  = [((inject_Z 2111 / inject_Z 1000) * inject_Z 10 / inject_Z 1)%Q].
Proof. vm_compute. reflexivity. Qed.

(** * Further properties of the two programs *)

(** ** What a returned run is made of *)

Lemma Qsum_app l1 l2 : (Qsum (l1 ++ l2) == Qsum l1 + Qsum l2)%Q.
Proof.
  induction l1 as [| x l1 IH]; cbn [app Qsum]; [lra | rewrite IH; lra].
Qed.

Lemma lift_or_ret_inv {G A} (b : bool) (o : outcome A) (d : A)
      (w : World G) x w' :
  (if b then lift o else ret d) w = (Ok x, w') -> w' = w.
Proof. destruct b; unfold lift, ret; intros H; now inversion H. Qed.

Section RunInversionA.
Context {G : Type} {RS : RandomSource G}.
Variable cfg : Config.
Variables (scenario : string) (epoch : bool) (priorities : list Q).

Lemma A_slot_iter_inv slot st (w : World G) st' w' :
  VariantA.slot_iter cfg scenario epoch priorities slot st w = (Ok st', w') ->
  exists L f,
    VariantA.slot_body cfg scenario epoch priorities slot w = (Ok L, w') /\
    st' = VariantA.mkSeries
            (VariantA.contention_history st ++ [VariantA.contended L])
            (VariantA.costs st ++ [VariantA.slot_cost cfg L])
            (VariantA.tps_effective st ++ [VariantA.effective_tps L])
            (VariantA.tps_finalized st ++ [f]).
Proof.
  unfold VariantA.slot_iter. intros H. inv_bind H. inv_bind H.
  apply lift_or_ret_inv in E0. subst w1. inv_ret H.
  exists a, a0. split; [exact E | reflexivity].
Qed.

Lemma A_loop_inv slots : forall st (w : World G) st' w',
  for_each slots (VariantA.slot_iter cfg scenario epoch priorities) st w
  = (Ok st', w') ->
  let tr := VariantA.slot_trace cfg scenario epoch priorities slots w in
  List.length tr = List.length slots /\
  VariantA.tps_effective st'
  = VariantA.tps_effective st ++ map VariantA.effective_tps tr /\
  VariantA.contention_history st'
  = VariantA.contention_history st ++ map VariantA.contended tr /\
  VariantA.costs st'
  = VariantA.costs st ++ map (VariantA.slot_cost cfg) tr /\
  Zlen (VariantA.tps_finalized st')
  = Zlen (VariantA.tps_finalized st) + Zlen slots.
Proof.
  induction slots as [| slot rest IH]; intros st w st' w' H.
  - inv_ret H. cbn. rewrite !app_nil_r. repeat split; auto. lia.
  - cbn [for_each] in H. inv_bind H.
    apply A_slot_iter_inv in E as (L & f & E & ->).
    apply IH in H. cbv zeta in H.
    destruct H as (Hl & He & Hc & Hk & Hf).
    cbn [VariantA.slot_trace]. rewrite E. cbv zeta.
    cbn [VariantA.tps_effective VariantA.contention_history VariantA.costs
         VariantA.tps_finalized] in He, Hc, Hk, Hf.
    rewrite He, Hc, Hk, Hf, Zlen_snoc, <- !app_assoc.
    cbn [List.length map app]. repeat split; auto.
    unfold Zlen. cbn [List.length]. lia.
Qed.

Lemma A_csv_row_inv st slot rows (w : World G) rows' w' :
  VariantA.csv_row st slot rows w = (Ok rows', w') ->
  w' = w /\
  exists e f c,
    getitem (VariantA.tps_effective st) slot = Ok e /\
    getitem (VariantA.tps_finalized st) slot = Ok f /\
    getitem (VariantA.contention_history st) slot = Ok c /\
    rows' = rows ++ [[CInt slot; CFloat e; CFloat f; CBool c]].
Proof.
  unfold VariantA.csv_row, bind, lift, ret. intros H.
  destruct (getitem (VariantA.tps_effective st) slot) as [e |];
    [| discriminate].
  destruct (getitem (VariantA.tps_finalized st) slot) as [f |];
    [| discriminate].
  destruct (getitem (VariantA.contention_history st) slot) as [c |];
    [| discriminate].
  inversion H; subst. split; [reflexivity |]. exists e, f, c. auto.
Qed.
End RunInversionA.

Lemma getitem_Ok_nth {A} (l : list A) i x d :
  0 <= i -> getitem l i = Ok x -> nth (Z.to_nat i) l d = x.
Proof.
  intros Hi H. rewrite getitem_nonneg in H by exact Hi.
  destruct (nth_error l (Z.to_nat i)) as [y |] eqn:E; [| discriminate].
  inversion H; subst. now apply nth_error_nth.
Qed.

Lemma getitem_Ok_range {A} (l : list A) i x :
  0 <= i -> getitem l i = Ok x -> i < Zlen l.
Proof.
  intros Hi H. rewrite getitem_nonneg in H by exact Hi.
  destruct (nth_error l (Z.to_nat i)) as [y |] eqn:E; [| discriminate].
  assert (Z.to_nat i < List.length l)%nat
    by (apply nth_error_Some; congruence).
  unfold Zlen. lia.
Qed.

Lemma getitem_out_of_range {A} (l : list A) i :
  Zlen l <= i -> getitem l i = Raise IndexError.
Proof.
  intros Hi. pose proof (Zlen_nonneg l).
  rewrite getitem_nonneg by lia.
  destruct (nth_error l (Z.to_nat i)) as [y |] eqn:E; [| reflexivity].
  assert (Z.to_nat i < List.length l)%nat
    by (apply nth_error_Some; congruence).
  unfold Zlen in Hi. lia.
Qed.

Lemma linspace_inv a b n l : linspace a b n = Ok l -> 0 <= n.
Proof.
  unfold linspace. destruct (n <? 0) eqn:E; [discriminate |].
  intros _. now apply Z.ltb_ge.
Qed.

Section RunInversionA2.
Context {G : Type} {RS : RandomSource G}.
Variable cfg : Config.

Lemma A_csv_loop_inv st slots : forall rows (w : World G) rows' w',
  for_each slots (VariantA.csv_row st) rows w = (Ok rows', w') ->
  (forall s, In s slots -> 0 <= s) ->
  w' = w /\
  rows' = rows
          ++ map (fun s =>
                    [CInt s;
                     CFloat (nth (Z.to_nat s) (VariantA.tps_effective st) 0%Q);
                     CFloat (nth (Z.to_nat s) (VariantA.tps_finalized st) 0%Q);
                     CBool (nth (Z.to_nat s) (VariantA.contention_history st)
                                false)])
                 slots.
Proof.
  induction slots as [| s rest IH]; intros rows w rows' w' H Hpos.
  - inv_ret H. cbn. now rewrite app_nil_r.
  - cbn [for_each] in H. inv_bind H.
    apply A_csv_row_inv in E as (-> & e & f & c & Ee & Ef & Ec & ->).
    assert (Hs : 0 <= s) by (apply Hpos; now left).
    apply IH in H as (-> & ->); [| intros; apply Hpos; now right].
    split; [reflexivity |]. cbn [map].
    rewrite (getitem_Ok_nth _ _ _ 0%Q Hs Ee), (getitem_Ok_nth _ _ _ 0%Q Hs Ef),
      (getitem_Ok_nth _ _ _ false Hs Ec), <- app_assoc. reflexivity.
Qed.

(** The pieces of a run of variant A that has returned. *)
Lemma A_run_inv n scenario epoch (w : World G) r w' :
  VariantA.run_simulation cfg n scenario epoch w = (Ok r, w') ->
  let N := VariantA.slots_run n epoch in
  0 < N /\
  exists pr st w1,
    linspace (3 # 10) (7 # 10) N = Ok pr /\
    for_each (range N) (VariantA.slot_iter cfg scenario epoch pr)
             (VariantA.mkSeries [] [] [] []) w = (Ok st, w1) /\
    r = VariantA.mkResults
          scenario
          (inject_Z (C cfg * T cfg) / inject_Z (P cfg))%Q
          (mean (VariantA.tps_effective st))
          (mean (VariantA.tps_finalized st))
          (mean (VariantA.costs st))
          (inject_Z (count_true (VariantA.contention_history st))
           / inject_Z N * 100)%Q
          (VariantA.tps_effective st) (VariantA.tps_finalized st)
          (VariantA.contention_history st) /\
    py_random w' = py_random w1 /\ np_random w' = np_random w1 /\
    environ w' = environ w1 /\ display w' = display w1 /\
    files w' "simulation_results.csv"
    = Some (VariantA.csv_header :: map (VariantA.csv_row_of r) (range N)) /\
    (forall p, p <> "simulation_results.csv" -> files w' p = files w1 p).
Proof.
  unfold VariantA.run_simulation. cbv zeta.
  fold (VariantA.slots_run n epoch).
  set (N := VariantA.slots_run n epoch). intros H.
  apply bind_Ok_inv in H as (pr & w0 & Epr & H).
  unfold lift in Epr. inversion Epr as [[Epr' Ew]]. subst w0. clear Epr.
  pose proof (linspace_inv _ _ _ _ Epr') as HN.
  apply bind_Ok_inv in H as (st & w1 & Eloop & H).
  apply bind_Ok_inv in H as (rate & w2 & Erate & H).
  destruct (N =? 0) eqn:EN; [discriminate Erate |].
  apply Z.eqb_neq in EN. inv_ret Erate.
  apply bind_Ok_inv in H as (rows & w3 & Erows & H).
  apply A_csv_loop_inv in Erows as (-> & ->);
    [| intros s Hs; apply in_range in Hs; lia].
  unfold bind, write_csv, ret in H. inversion H; subst. clear H.
  split; [lia |]. exists pr, st, w2. cbn.
  split; [exact Epr' |]. split; [exact Eloop |].
  split; [reflexivity |]. repeat split; auto.
  intros p Hp. destruct (String.eqb_spec p "simulation_results.csv");
    [contradiction | reflexivity].
Qed.
End RunInversionA2.

Section RunInversionB.
Context {G : Type} {RS : RandomSource G}.
Variable cfg : VariantB.ConfigB.
Variable scenario : string.

Lemma B_slot_iter_inv slot st (w : World G) st' w' :
  VariantB.slot_iter cfg scenario slot st w = (Ok st', w') ->
  exists L f,
    VariantB.slot_body cfg scenario w = (Ok L, w') /\
    st' = VariantB.mkSeries
            (VariantB.contention_flags st ++ [VariantB.slot_contended L])
            (VariantB.effective_tps_series st ++ [VariantB.effective_tps L])
            (VariantB.finalized_tps_series st ++ [f])
            (VariantB.cost_series st ++ [VariantB.slot_cost cfg L]).
Proof.
  unfold VariantB.slot_iter. intros H.
  apply bind_Ok_inv in H as (L & w1 & E & H).
  apply bind_Ok_inv in H as (f & w2 & Ef & H).
  apply lift_or_ret_inv in Ef. subst w2. inv_ret H.
  exists L, f. split; [exact E | reflexivity].
Qed.

Lemma B_loop_inv slots : forall st (w : World G) st' w',
  for_each slots (VariantB.slot_iter cfg scenario) st w = (Ok st', w') ->
  let tr := VariantB.slot_trace cfg scenario slots w in
  List.length tr = List.length slots /\
  VariantB.effective_tps_series st'
  = VariantB.effective_tps_series st ++ map VariantB.effective_tps tr /\
  VariantB.contention_flags st'
  = VariantB.contention_flags st ++ map VariantB.slot_contended tr /\
  VariantB.cost_series st'
  = VariantB.cost_series st ++ map (VariantB.slot_cost cfg) tr /\
  Zlen (VariantB.finalized_tps_series st')
  = Zlen (VariantB.finalized_tps_series st) + Zlen slots.
Proof.
  induction slots as [| slot rest IH]; intros st w st' w' H.
  - inv_ret H. cbn. rewrite !app_nil_r. repeat split; auto. lia.
  - cbn [for_each] in H. apply bind_Ok_inv in H as (st1 & w1 & E & H).
    apply B_slot_iter_inv in E as (L & f & E & ->).
    apply IH in H. cbv zeta in H.
    destruct H as (Hl & He & Hc & Hk & Hf).
    cbn [VariantB.slot_trace]. rewrite E. cbv zeta.
    cbn [VariantB.effective_tps_series VariantB.contention_flags
         VariantB.cost_series VariantB.finalized_tps_series] in He, Hc, Hk, Hf.
    rewrite He, Hc, Hk, Hf, Zlen_snoc, <- !app_assoc.
    cbn [List.length map app]. repeat split; auto.
    unfold Zlen. cbn [List.length]. lia.
Qed.

(** The pieces of a run of variant B that has returned. *)
Lemma B_run_inv n (w : World G) r w' :
  VariantB.run_simulation cfg n scenario w = (Ok r, w') ->
  n <> 0 /\
  exists st,
    for_each (range n) (VariantB.slot_iter cfg scenario)
             (VariantB.mkSeries [] [] [] []) w = (Ok st, w') /\
    r = VariantB.mkResults
          scenario
          (inject_Z (C (VariantB.base cfg) * T (VariantB.base cfg))
           / inject_Z (P (VariantB.base cfg)))%Q
          (mean (VariantB.effective_tps_series st))
          (mean (VariantB.finalized_tps_series st))
          (100 * inject_Z (count_true (VariantB.contention_flags st))
           / inject_Z n)%Q
          (mean (VariantB.cost_series st))
          (VariantB.effective_tps_series st)
          (VariantB.finalized_tps_series st)
          (VariantB.contention_flags st) (VariantB.cost_series st).
Proof.
  unfold VariantB.run_simulation. intros H.
  apply bind_Ok_inv in H as (st & w1 & Eloop & H).
  apply bind_Ok_inv in H as (rate & w2 & Erate & H).
  destruct (n =? 0) eqn:EN; [discriminate Erate |].
  apply Z.eqb_neq in EN. inv_ret Erate. inv_ret H.
  split; [exact EN |]. exists st. split; [exact Eloop | reflexivity].
Qed.
End RunInversionB.

Section RunSeries.
Context {G : Type} {RS : RandomSource G}.

Lemma A_run_series (cfg : Config) n scenario epoch (w : World G) r w' :
  VariantA.run_simulation cfg n scenario epoch w = (Ok r, w') ->
  let N := VariantA.slots_run n epoch in
  let tr := VariantA.run_trace cfg n scenario epoch w in
  0 < N /\ Zlen tr = N /\
  VariantA.r_tps_effective r = map VariantA.effective_tps tr /\
  VariantA.r_contention_history r = map VariantA.contended tr /\
  Zlen (VariantA.r_tps_finalized r) = N /\
  VariantA.r_avg_tps_effective r = mean (VariantA.r_tps_effective r) /\
  VariantA.r_avg_tps_finalized r = mean (VariantA.r_tps_finalized r) /\
  VariantA.r_avg_cost r = mean (map (VariantA.slot_cost cfg) tr) /\
  VariantA.r_contention_rate r
  = (inject_Z (count_true (VariantA.r_contention_history r))
     / inject_Z N * 100)%Q.
Proof.
  intros H. apply A_run_inv in H.
  destruct H as (HN & pr & st & w1 & Epr & Eloop & -> & _).
  cbv zeta. unfold VariantA.run_trace. rewrite Epr.
  apply A_loop_inv in Eloop. cbv zeta in Eloop.
  destruct Eloop as (Hl & He & Hc & Hk & Hf).
  cbn [VariantA.tps_effective VariantA.contention_history VariantA.costs
       VariantA.tps_finalized app] in He, Hc, Hk, Hf.
  rewrite range_length in Hl. rewrite Zlen_range in Hf by lia.
  cbn. rewrite He, Hc, Hk. repeat split; auto.
  unfold Zlen. rewrite Hl. lia.
Qed.

Lemma B_run_series (cfg : VariantB.ConfigB) n scenario (w : World G) r w' :
  VariantB.run_simulation cfg n scenario w = (Ok r, w') ->
  let tr := VariantB.run_trace cfg n scenario w in
  n <> 0 /\ Zlen tr = Z.max 0 n /\
  VariantB.r_effective_series r = map VariantB.effective_tps tr /\
  VariantB.r_contention_series r = map VariantB.slot_contended tr /\
  VariantB.r_cost_series r = map (VariantB.slot_cost cfg) tr /\
  Zlen (VariantB.r_finalized_series r) = Z.max 0 n /\
  VariantB.r_avg_effective_tps r = mean (VariantB.r_effective_series r) /\
  VariantB.r_avg_finalized_tps r = mean (VariantB.r_finalized_series r) /\
  VariantB.r_avg_cost_per_slot_usd r = mean (VariantB.r_cost_series r) /\
  VariantB.r_contention_rate_pct r
  = (100 * inject_Z (count_true (VariantB.r_contention_series r))
     / inject_Z n)%Q.
Proof.
  intros H. apply B_run_inv in H. destruct H as (HN & st & Eloop & ->).
  cbv zeta. unfold VariantB.run_trace.
  apply B_loop_inv in Eloop. cbv zeta in Eloop.
  destruct Eloop as (Hl & He & Hc & Hk & Hf).
  cbn [VariantB.effective_tps_series VariantB.contention_flags
       VariantB.cost_series VariantB.finalized_tps_series app]
    in He, Hc, Hk, Hf.
  rewrite range_length in Hl.
  assert (Hr : Zlen (range n) = Z.max 0 n)
    by (unfold Zlen; rewrite range_length; lia).
  rewrite Hr in Hf.
  cbn. rewrite He, Hc, Hk. repeat split; auto.
  unfold Zlen. rewrite Hl. lia.
Qed.
End RunSeries.

(** ** The draws of a slot, by scenario *)

Section Draws.
Context {G : Type} {RS : RandomSource G}.

Lemma A_draw_demand_ranges scenario (w : World G) wl wi w' :
  VariantA.draw_demand scenario w = (Ok (wl, wi), w') ->
  let light := 1 <= wl <= 3 /\ 100 <= wi <= 500 in
  let heavy := 3 <= wl <= 6 /\ 1000 <= wi <= 3000 in
  (scenario = "stateless" -> light) /\
  (scenario = "state-heavy" -> heavy) /\
  (scenario = "mixed" -> light \/ heavy).
Proof.
  unfold VariantA.draw_demand. intros H. cbv zeta.
  destruct (String.eqb_spec scenario "stateless") as [-> | N1].
  { inv_bind H. inv_bind H. inv_ret H.
    apply randint_inv in E, E0; try lia.
    repeat split; try discriminate; lia. }
  destruct (String.eqb_spec scenario "state-heavy") as [-> | N2].
  { inv_bind H. inv_bind H. inv_ret H.
    apply randint_inv in E, E0; try lia.
    repeat split; try discriminate; lia. }
  destruct (String.eqb_spec scenario "mixed") as [-> | N3];
    [| discriminate H].
  inv_bind H. destruct (Qltb a (8 # 10)).
  - inv_bind H. inv_bind H. inv_ret H.
    apply randint_inv in E0, E1; try lia.
    split; [discriminate |]. split; [discriminate |]. intros _. left. lia.
  - inv_bind H. inv_bind H. inv_ret H.
    apply randint_inv in E0, E1; try lia.
    split; [discriminate |]. split; [discriminate |]. intros _. right. lia.
Qed.

Lemma A_slot_body_draw (cfg : Config) scenario epoch priorities slot
      (w : World G) L w' :
  VariantA.slot_body cfg scenario epoch priorities slot w = (Ok L, w') ->
  exists w1 w2,
    VariantA.draw_demand scenario w1
    = (Ok (VariantA.workloads L, VariantA.witnesses L), w2).
Proof.
  unfold VariantA.slot_body. intros H.
  apply bind_Ok_inv in H as (pr & w0 & _ & H).
  apply bind_Ok_inv in H as (u & w1 & _ & H).
  apply bind_Ok_inv in H as ([wl wi] & w2 & Ed & H).
  apply bind_Ok_inv in H as (a1 & w3 & _ & H).
  apply bind_Ok_inv in H as (a2 & w4 & _ & H).
  destruct (VariantA.core_loop cfg a1 a2). inv_ret H.
  exists w1, w2. exact Ed.
Qed.

Lemma B_workloads_for_slot_ranges scenario (w : World G) nw w' :
  VariantB.workloads_for_slot scenario w = (Ok nw, w') ->
  (scenario = "stateless" -> 5 <= nw <= 15) /\
  (scenario = "state-heavy" -> 15 <= nw <= 30) /\
  (scenario <> "stateless" -> scenario <> "state-heavy" -> 5 <= nw <= 30).
Proof.
  unfold VariantB.workloads_for_slot. intros H.
  destruct (String.eqb_spec scenario "stateless") as [-> | N1].
  { apply randint_inv in H; [| lia].
    repeat split; try discriminate; try lia; congruence. }
  destruct (String.eqb_spec scenario "state-heavy") as [-> | N2].
  { apply randint_inv in H; [| lia].
    repeat split; try discriminate; try lia; congruence. }
  apply randint_inv in H; [| lia].
  repeat split; try contradiction; lia.
Qed.

Lemma B_slot_body_draw (cfg : VariantB.ConfigB) scenario (w : World G) L w' :
  VariantB.slot_body cfg scenario w = (Ok L, w') ->
  exists w2,
    VariantB.workloads_for_slot scenario w
    = (Ok (VariantB.num_workloads L), w2).
Proof.
  unfold VariantB.slot_body. intros H.
  apply bind_Ok_inv in H as (nw & w1 & Ed & H).
  apply bind_Ok_inv in H as (a1 & w3 & _ & H).
  destruct (VariantB.core_loop cfg nw a1). inv_ret H.
  exists w1. exact Ed.
Qed.
End Draws.

(** X1: in variant A a stateless slot draws 1 to 3 work-packages and 100
    to 500 witnesses, a state-heavy slot 3 to 6 and 1000 to 3000, and a
    mixed slot one of these two pairs of ranges, never a light count with a
    heavy one. *)
Theorem X1_variantA_draws_by_scenario
        {G : Type} {RS : RandomSource G}
        (cfg : Config) (n : Z) (scenario : string) (epoch : bool)
        (w : World G) :
  0 <= finality_delay_slots cfg ->
  VariantA.recognised scenario ->
  0 < n ->
  exists r w',
    VariantA.run_simulation cfg n scenario epoch w = (Ok r, w') /\
    let tr := VariantA.run_trace cfg n scenario epoch w in
    Zlen tr = VariantA.slots_run n epoch /\
    Forall (fun L =>
              let wl := VariantA.workloads L in
              let wi := VariantA.witnesses L in
              let light := 1 <= wl <= 3 /\ 100 <= wi <= 500 in
              let heavy := 3 <= wl <= 6 /\ 1000 <= wi <= 3000 in
              (scenario = "stateless" -> light) /\
              (scenario = "state-heavy" -> heavy) /\
              (scenario = "mixed" -> light \/ heavy))
           tr.
Proof.
  intros Hf Hs Hn.
  destruct (A_run_spec cfg n scenario epoch w Hf Hs (slots_run_pos n epoch Hn))
    as (r & w' & E & Hl & _).
  exists r, w'. split; [exact E |]. cbv zeta in *. split; [exact Hl |].
  unfold VariantA.run_trace. destruct (linspace _ _ _); [| constructor].
  apply A_trace_Forall. intros slot w0 L w1 Hbody.
  apply A_slot_body_draw in Hbody as (w2 & w3 & Hd).
  exact (A_draw_demand_ranges scenario w2 _ _ w3 Hd).
Qed.

Lemma X1_variantA_draws_by_scenario_witness :
  let w := empty_world [7; 11; 13] [1; 2; 3] in
  exists r w',
    VariantA.run_simulation two_cores 3 "mixed" false w = (Ok r, w') /\
    let tr := VariantA.run_trace two_cores 3 "mixed" false w in
    Zlen tr = 3 /\
    Forall (fun L =>
              let wl := VariantA.workloads L in
              let wi := VariantA.witnesses L in
              let light := 1 <= wl <= 3 /\ 100 <= wi <= 500 in
              let heavy := 3 <= wl <= 6 /\ 1000 <= wi <= 3000 in
              ("mixed" = "stateless" -> light) /\
              ("mixed" = "state-heavy" -> heavy) /\
              ("mixed" = "mixed" -> light \/ heavy))
           tr.
Proof.
  intros w.
  apply (X1_variantA_draws_by_scenario two_cores 3 "mixed" false w).
  - cbn. lia.
  - right. right. reflexivity.
  - lia.
Defined.

(** X2: in variant B a stateless slot draws 5 to 15 work-packages, a
    state-heavy slot 15 to 30, and a slot under any other tag 5 to 30. *)
Theorem X2_variantB_draws_by_scenario
        {G : Type} {RS : RandomSource G}
        (cfg : VariantB.ConfigB) (n : Z) (scenario : string) (w : World G) :
  0 <= finality_delay_slots (VariantB.base cfg) ->
  0 < n ->
  exists r w',
    VariantB.run_simulation cfg n scenario w = (Ok r, w') /\
    let tr := VariantB.run_trace cfg n scenario w in
    Zlen tr = n /\
    Forall (fun L =>
              let nw := VariantB.num_workloads L in
              (scenario = "stateless" -> 5 <= nw <= 15) /\
              (scenario = "state-heavy" -> 15 <= nw <= 30) /\
              (scenario <> "stateless" -> scenario <> "state-heavy" ->
               5 <= nw <= 30))
           tr.
Proof.
  intros Hf Hn.
  destruct (B_run_spec cfg Hf n scenario w Hn) as (r & w' & E & Hl & _).
  exists r, w'. split; [exact E |]. cbv zeta in *. split; [exact Hl |].
  apply B_trace_Forall. intros w0 L w1 Hbody.
  apply B_slot_body_draw in Hbody as (w2 & Hd).
  exact (B_workloads_for_slot_ranges scenario w0 _ w2 Hd).
Qed.

Lemma X2_variantB_draws_by_scenario_witness :
  let w := empty_world [7; 11; 13] [1; 2; 3] in
  exists r w',
    VariantB.run_simulation VariantB.config 3 "state-heavy" w = (Ok r, w') /\
    let tr := VariantB.run_trace VariantB.config 3 "state-heavy" w in
    Zlen tr = 3 /\
    Forall (fun L =>
              let nw := VariantB.num_workloads L in
              ("state-heavy" = "stateless" -> 5 <= nw <= 15) /\
              ("state-heavy" = "state-heavy" -> 15 <= nw <= 30) /\
              ("state-heavy" <> "stateless" ->
               "state-heavy" <> "state-heavy" -> 5 <= nw <= 30))
           tr.
Proof.
  intros w.
  apply (X2_variantB_draws_by_scenario VariantB.config 3 "state-heavy" w).
  - cbn. lia.
  - lia.
Defined.

(** ** Variant A: a work-package is more than a core can push *)

Lemma nth_nonneg (l : list Z) i :
  Forall (fun x => 0 <= x) l -> 0 <= nth i l 0.
Proof.
  intros H. revert i. induction H as [| x l Hx Hl IH]; intros [| i]; cbn;
    auto; lia.
Qed.

Lemma nth_le_Zsum (l : list Z) i :
  Forall (fun x => 0 <= x) l -> nth i l 0 <= Zsum l.
Proof.
  intros H. revert i. induction H as [| x l Hx Hl IH]; intros [| i]; cbn.
  - lia.
  - lia.
  - pose proof (Zsum_nonneg l Hl). lia.
  - specialize (IH i). lia.
Qed.

Lemma positive_sum_has_positive (l : list Z) :
  Forall (fun x => 0 <= x) l -> 0 < Zsum l ->
  exists i, 0 <= i < Zlen l /\ 0 < nth (Z.to_nat i) l 0.
Proof.
  induction 1 as [| x l Hx Hl IH]; cbn [Zsum]; intros Hs; [lia |].
  destruct (Z.eq_dec x 0) as [-> | Hne].
  - destruct IH as (i & Hi & Hp); [lia |].
    exists (i + 1). unfold Zlen in *. cbn [List.length]. split; [lia |].
    replace (Z.to_nat (i + 1)) with (S (Z.to_nat i)) by lia. exact Hp.
  - exists 0. unfold Zlen. cbn. lia.
Qed.

Lemma count_true_all (l : list bool) :
  Forall (fun b => b = true) l -> count_true l = Zlen l.
Proof.
  unfold count_true, Zlen. induction 1 as [| b l Hb Hl IH]; [reflexivity |].
  cbn [map Zsum List.length]. rewrite IH, Hb. lia.
Qed.

Lemma count_true_bounds (l : list bool) : 0 <= count_true l <= Zlen l.
Proof.
  unfold count_true, Zlen. induction l as [| b l IH]; cbn [map Zsum List.length].
  - lia.
  - destruct b; lia.
Qed.

Lemma A_overloaded_cores cfg L :
  wf_config cfg ->
  VariantA.capacity cfg < work_package_size cfg ->
  3000 * witness_size cfg <= VariantA.capacity cfg ->
  A_slot_facts cfg L ->
  VariantA.contended L = true /\
  1 <= VariantA.slot_contention_count L <= VariantA.workloads L.
Proof.
  intros (HC & HP & HT & HB & HW & HS & _) Hbig Hsmall HL.
  pose proof HL as ((Hwl & Hwi) & (Lw & Pw & Sw) & (Li & Pi & Si) & Hcount & _).
  assert (Hc : VariantA.contended L = true).
  { apply (A_contended_iff cfg L HL).
    destruct (positive_sum_has_positive _ Pw) as (i & Hi & Hp); [lia |].
    exists i. split; [lia |].
    unfold VariantA.demand, VariantA.core_data.
    pose proof (nth_nonneg (VariantA.witnesses_per_core L) (Z.to_nat i) Pi).
    nia. }
  split; [exact Hc |]. split.
  - unfold VariantA.contended in Hc. apply Z.ltb_lt in Hc. lia.
  - rewrite Hcount, <- Sw.
    assert (Zsum (VariantA.workloads_per_core L)
            = Zsum (map (fun i => nth (Z.to_nat i)
                                      (VariantA.workloads_per_core L) 0)
                        (range (C cfg)))) as ->
        by (rewrite <- Lw, map_nth_range; reflexivity).
    apply Zsum_map_le. intros i _.
    pose proof (nth_nonneg (VariantA.workloads_per_core L) (Z.to_nat i) Pw)
      as H0.
    pose proof (nth_le_Zsum (VariantA.witnesses_per_core L) (Z.to_nat i) Pi)
      as H1.
    destruct (VariantA.capacity cfg <? VariantA.demand cfg L i) eqn:E;
      [| exact H0].
    apply Z.ltb_lt in E. unfold VariantA.demand, VariantA.core_data in E.
    destruct (Z.eq_dec (nth (Z.to_nat i) (VariantA.workloads_per_core L) 0) 0)
      as [Hz | Hz]; [| lia].
    rewrite Hz in E. nia.
Qed.

(** X3: with the constants of variant A a single work-package (13 794 305
    bytes) exceeds what a core can push in a slot (12 582 912 bytes), and
    every slot has at least one: every slot of every run is flagged
    contended, the contention rate is 100, and the cores over capacity are
    those holding a work-package, between one and the number of
    work-packages of the slot. *)
Theorem X3_variantA_every_slot_contended
        {G : Type} {RS : RandomSource G}
        (n : Z) (scenario : string) (epoch : bool) (w : World G) :
  VariantA.recognised scenario ->
  0 < n ->
  exists r w',
    VariantA.run_simulation VariantA.config n scenario epoch w = (Ok r, w') /\
    let tr := VariantA.run_trace VariantA.config n scenario epoch w in
    Zlen tr = VariantA.slots_run n epoch /\
    Forall (fun b => b = true) (VariantA.r_contention_history r) /\
    (VariantA.r_contention_rate r == 100)%Q /\
    Forall (fun L => 1 <= VariantA.slot_contention_count L
                     <= VariantA.workloads L) tr.
Proof.
  intros Hs Hn.
  pose proof A_config_wf as Hwf.
  pose proof Hwf as (HC & HP & _ & _ & _ & _ & Hf).
  destruct (A_run_spec VariantA.config n scenario epoch w Hf Hs
              (slots_run_pos n epoch Hn)) as (r & w' & E & _).
  pose proof (A_run_series VariantA.config n scenario epoch w r w' E) as HS.
  cbv zeta in HS.
  destruct HS as (HN & Hl & _ & Hc & _ & _ & _ & _ & Hrate).
  assert (Hall : Forall (fun L => VariantA.contended L = true /\
                                  1 <= VariantA.slot_contention_count L
                                  <= VariantA.workloads L)
                        (VariantA.run_trace VariantA.config n scenario epoch w)).
  { eapply Forall_impl;
      [| apply (A_run_trace_facts VariantA.config); assumption].
    intros L HL. apply (A_overloaded_cores VariantA.config); auto;
      unfold VariantA.capacity; cbn; lia. }
  assert (Htrue : Forall (fun b => b = true) (VariantA.r_contention_history r)).
  { rewrite Hc. apply Forall_map. eapply Forall_impl; [| exact Hall].
    intros L [H _]. exact H. }
  exists r, w'. split; [exact E |]. cbv zeta.
  split; [exact Hl |]. split; [exact Htrue |]. split.
  - rewrite Hrate, (count_true_all _ Htrue), Hc.
    unfold Zlen in *. rewrite length_map, Hl.
    field. intros E0.
    assert (Hq : (0 < inject_Z (VariantA.slots_run n epoch))%Q)
      by (change 0%Q with (inject_Z 0); rewrite <- Zlt_Qlt; exact HN).
    rewrite E0 in Hq. now apply Qlt_irrefl in Hq.
  - eapply Forall_impl; [| exact Hall]. intros L [_ H]. exact H.
Qed.

Lemma X3_variantA_every_slot_contended_witness :
  let w := empty_world [7; 11; 13] [1; 2; 3] in
  exists r w',
    VariantA.run_simulation VariantA.config 2 "stateless" false w
    = (Ok r, w') /\
    let tr := VariantA.run_trace VariantA.config 2 "stateless" false w in
    Zlen tr = 2 /\
    Forall (fun b => b = true) (VariantA.r_contention_history r) /\
    (VariantA.r_contention_rate r == 100)%Q /\
    Forall (fun L => 1 <= VariantA.slot_contention_count L
                     <= VariantA.workloads L) tr.
Proof.
  intros w.
  apply (X3_variantA_every_slot_contended 2 "stateless" false w).
  - left. reflexivity.
  - lia.
Defined.

(** ** Variant B: chunks against capacity *)

Lemma Zsum_map_lt {A} (f g : A -> Z) l x :
  (forall y, In y l -> f y <= g y) -> In x l -> f x < g x ->
  Zsum (map f l) < Zsum (map g l).
Proof.
  induction l as [| y l IH]; cbn [map Zsum]; intros Hle Hin Hlt;
    [contradiction |].
  pose proof (Hle y (or_introl eq_refl)) as Hy.
  assert (Hrest : Zsum (map f l) <= Zsum (map g l))
    by (apply Zsum_map_le; intros; apply Hle; now right).
  destruct Hin as [-> | Hin]; [lia |].
  assert (Zsum (map f l) < Zsum (map g l))
    by (apply IH; auto; intros; apply Hle; now right).
  lia.
Qed.

Lemma B_config_demand L i :
  B_slot_facts VariantB.config L ->
  VariantB.demand VariantB.config L i
  = nth (Z.to_nat i) (VariantB.chunks_per_core L) 0 * 1048576.
Proof.
  intros (Hnw & _). unfold VariantB.demand, VariantB.needed,
    VariantB.witness_bytes.
  change (C (VariantB.base VariantB.config)) with 341.
  rewrite Z.div_small by lia.
  change (VariantB.CHUNK_SIZE VariantB.config) with 1048576. lia.
Qed.

Lemma B_config_slot L :
  B_slot_facts VariantB.config L ->
  let nw := VariantB.num_workloads L in
  VariantB.total_chunks L = 13 * nw /\
  (VariantB.slot_contended L = true <->
   exists i, 0 <= i < 341 /\
             55 <= nth (Z.to_nat i) (VariantB.chunks_per_core L) 0) /\
  VariantB.processed_bytes L <= nw * 13631488 /\
  (VariantB.slot_contended L = false <->
   VariantB.processed_bytes L = nw * 13631488).
Proof.
  intros HL. cbv zeta.
  pose proof (B_contended_iff VariantB.config L HL) as Hiff.
  pose proof (B_total_demand VariantB.config L ltac:(cbn; lia) HL) as Hasked.
  pose proof HL as (Hnw & Hch & (Lc & Pc & Sc) & _ & Hsent & _).
  change (work_package_size (VariantB.base VariantB.config)
          / VariantB.CHUNK_SIZE VariantB.config) with 13 in Hch.
  change (C (VariantB.base VariantB.config)) with 341 in *.
  change (VariantB.capacity VariantB.config) with 57656304 in *.
  assert (Hw : VariantB.witness_bytes VariantB.config
                 (VariantB.num_workloads L) = 0).
  { unfold VariantB.witness_bytes.
    change (C (VariantB.base VariantB.config)) with 341.
    rewrite Z.div_small by lia. reflexivity. }
  rewrite Hw in Hasked.
  change (VariantB.CHUNK_SIZE VariantB.config) with 1048576 in Hasked.
  assert (Hover : VariantB.slot_contended L = true <->
                  exists i, 0 <= i < 341 /\
                    55 <= nth (Z.to_nat i) (VariantB.chunks_per_core L) 0).
  { rewrite Hiff. split; intros (i & Hi & H); exists i; split; auto;
      rewrite (B_config_demand L i HL) in *; lia. }
  assert (Hle : VariantB.processed_bytes L
                <= Zsum (map (VariantB.demand VariantB.config L) (range 341)))
    by (rewrite Hsent; apply Zsum_map_le; intros; lia).
  split; [lia |]. split; [exact Hover |]. split; [lia |].
  split.
  - intros Hno. rewrite Hsent.
    assert (Heq : map (fun i => Z.min (VariantB.demand VariantB.config L i)
                                      57656304) (range 341)
                  = map (VariantB.demand VariantB.config L) (range 341)).
    { apply map_ext_in. intros i Hi. apply in_range in Hi.
      apply Z.min_l. destruct (Z_le_gt_dec
        (VariantB.demand VariantB.config L i) 57656304) as [Hok | Hbad];
        [exact Hok |].
      assert (VariantB.slot_contended L = true)
        by (apply Hiff; exists i; split; [exact Hi | lia]).
      congruence. }
    rewrite Heq. lia.
  - intros Hall. destruct (VariantB.slot_contended L) eqn:Ec; [| reflexivity].
    exfalso. destruct Hiff as [Hiff _].
    destruct (Hiff eq_refl) as (i & Hi & Hbad).
    assert (VariantB.processed_bytes L
            < Zsum (map (VariantB.demand VariantB.config L) (range 341))).
    { rewrite Hsent. apply (Zsum_map_lt _ _ _ i).
      - intros; lia.
      - now apply in_range.
      - lia. }
    lia.
Qed.

(** X4: with the constants of variant B a core is over capacity exactly
    when it holds at least 55 of the slot's [13 * num_workloads] chunks; a
    slot transmits all its chunk bytes, [num_workloads * 13 631 488],
    exactly when it is not contended, and fewer otherwise. *)
Theorem X4_variantB_contention_threshold
        {G : Type} {RS : RandomSource G}
        (n : Z) (scenario : string) (w : World G) :
  0 < n ->
  exists r w',
    VariantB.run_simulation VariantB.config n scenario w = (Ok r, w') /\
    let tr := VariantB.run_trace VariantB.config n scenario w in
    Zlen tr = n /\
    VariantB.r_contention_series r = map VariantB.slot_contended tr /\
    Forall (fun L =>
              let nw := VariantB.num_workloads L in
              VariantB.total_chunks L = 13 * nw /\
              (VariantB.slot_contended L = true <->
               exists i, 0 <= i < 341 /\
                   55 <= nth (Z.to_nat i) (VariantB.chunks_per_core L) 0) /\
              VariantB.processed_bytes L <= nw * 13631488 /\
              (VariantB.slot_contended L = false <->
               VariantB.processed_bytes L = nw * 13631488))
           tr.
Proof.
  intros Hn.
  pose proof B_config_wf as Hwf.
  pose proof Hwf as [(_ & _ & _ & _ & _ & _ & Hf) _].
  destruct (B_run_spec VariantB.config Hf n scenario w Hn)
    as (r & w' & E & Hl & _ & _ & Hc & _).
  exists r, w'. split; [exact E |]. cbv zeta in *.
  split; [exact Hl | split; [exact Hc |]].
  eapply Forall_impl; [| apply (B_run_trace_facts VariantB.config); exact Hwf].
  intros L HL. exact (B_config_slot L HL).
Qed.

Lemma X4_variantB_contention_threshold_witness :
  let w := empty_world [7; 11; 13] [1; 2; 3] in
  exists r w',
    VariantB.run_simulation VariantB.config 2 "mixed" w = (Ok r, w') /\
    let tr := VariantB.run_trace VariantB.config 2 "mixed" w in
    Zlen tr = 2 /\
    VariantB.r_contention_series r = map VariantB.slot_contended tr /\
    Forall (fun L =>
              let nw := VariantB.num_workloads L in
              VariantB.total_chunks L = 13 * nw /\
              (VariantB.slot_contended L = true <->
               exists i, 0 <= i < 341 /\
                   55 <= nth (Z.to_nat i) (VariantB.chunks_per_core L) 0) /\
              VariantB.processed_bytes L <= nw * 13631488 /\
              (VariantB.slot_contended L = false <->
               VariantB.processed_bytes L = nw * 13631488))
           tr.
Proof.
  intros w.
  apply (X4_variantB_contention_threshold 2 "mixed" w). lia.
Defined.

Lemma tps_lt_workload (sent wps t p c : Z) :
  0 < wps -> 0 < p -> 0 < t -> sent < c * wps ->
  (inject_Z sent / inject_Z wps * inject_Z t / inject_Z p
   < inject_Z (c * t) / inject_Z p)%Q.
Proof.
  intros Hw Hp Ht Hs.
  assert (Qw : (0 < inject_Z wps)%Q) by (rewrite (Zlt_Qlt 0 wps) in Hw; exact Hw).
  assert (Qp : (0 < inject_Z p)%Q) by (rewrite (Zlt_Qlt 0 p) in Hp; exact Hp).
  assert (Qt : (0 < inject_Z t)%Q) by (rewrite (Zlt_Qlt 0 t) in Ht; exact Ht).
  assert (H1 : (inject_Z sent / inject_Z wps < inject_Z c)%Q).
  { apply Qlt_shift_div_r; [exact Qw |].
    rewrite <- inject_Z_mult, <- Zlt_Qlt. exact Hs. }
  apply Qlt_shift_div_l; [exact Qp |].
  assert (X : (inject_Z sent / inject_Z wps * inject_Z t / inject_Z p
               * inject_Z p
               == inject_Z sent / inject_Z wps * inject_Z t)%Q).
  { field. split; intros E0; rewrite E0 in *; eapply Qlt_irrefl; eassumption. }
  rewrite X, inject_Z_mult. apply Qmult_lt_compat_r; assumption.
Qed.

(** X5: in variant B the effective TPS of a slot stays strictly below
    [num_workloads * T / P], the TPS of the work-packages it generated,
    whether or not the slot is contended: a work-package is distributed as
    13 whole chunks of 1 MiB, 162 817 bytes short of its size. *)
Theorem X5_variantB_effective_below_generated
        {G : Type} {RS : RandomSource G}
        (n : Z) (scenario : string) (w : World G) :
  0 < n ->
  exists r w',
    VariantB.run_simulation VariantB.config n scenario w = (Ok r, w') /\
    let tr := VariantB.run_trace VariantB.config n scenario w in
    Zlen tr = n /\
    VariantB.r_effective_series r = map VariantB.effective_tps tr /\
    Forall (fun L =>
              (VariantB.effective_tps L
               < inject_Z (VariantB.num_workloads L * 128) / inject_Z 6)%Q)
           tr.
Proof.
  intros Hn.
  pose proof B_config_wf as Hwf.
  pose proof Hwf as [(_ & _ & _ & _ & _ & _ & Hf) _].
  destruct (B_run_spec VariantB.config Hf n scenario w Hn)
    as (r & w' & E & Hl & _ & He & _).
  exists r, w'. split; [exact E |]. cbv zeta in *.
  split; [exact Hl | split; [exact He |]].
  eapply Forall_impl; [| apply (B_run_trace_facts VariantB.config); exact Hwf].
  intros L HL.
  destruct (B_config_slot L HL) as (_ & _ & Hsent & _).
  destruct HL as (Hnw & _ & _ & _ & _ & Heff).
  rewrite Heff.
  change (work_package_size (VariantB.base VariantB.config)) with 13794305.
  change (T (VariantB.base VariantB.config)) with 128.
  change (P (VariantB.base VariantB.config)) with 6.
  apply tps_lt_workload; lia.
Qed.

Lemma X5_variantB_effective_below_generated_witness :
  let w := empty_world [7; 11; 13] [1; 2; 3] in
  exists r w',
    VariantB.run_simulation VariantB.config 2 "mixed" w = (Ok r, w') /\
    let tr := VariantB.run_trace VariantB.config 2 "mixed" w in
    Zlen tr = 2 /\
    VariantB.r_effective_series r = map VariantB.effective_tps tr /\
    Forall (fun L =>
              (VariantB.effective_tps L
               < inject_Z (VariantB.num_workloads L * 128) / inject_Z 6)%Q)
           tr.
Proof.
  intros w.
  apply (X5_variantB_effective_below_generated 2 "mixed" w). lia.
Defined.

(** ** Cost and contention rate *)

Lemma Qsum_ge_bound l b :
  Forall (fun x => (b <= x)%Q) l -> (inject_Z (Zlen l) * b <= Qsum l)%Q.
Proof.
  induction 1 as [| x l Hx Hl IH].
  - change (0 * b <= 0)%Q. lra.
  - cbn [Qsum]. unfold Zlen in *. cbn [List.length].
    rewrite Nat2Z.inj_succ, <- Z.add_1_r, inject_Z_plus.
    change (inject_Z 1) with 1%Q. lra.
Qed.

Lemma mean_ge l b :
  l <> [] -> Forall (fun x => (b <= x)%Q) l ->
  exists a, mean l = Num a /\ (b <= a)%Q.
Proof.
  intros Hne Hall. destruct l as [| x l]; [congruence |].
  eexists. split; [reflexivity |].
  apply Qle_shift_div_l.
  - unfold Zlen. cbn [List.length]. rewrite Nat2Z.inj_succ.
    change 0%Q with (inject_Z 0). rewrite <- Zlt_Qlt. lia.
  - rewrite Qmult_comm. now apply Qsum_ge_bound.
Qed.

Lemma mean_between l lo hi :
  l <> [] -> Forall (fun x => (lo <= x <= hi)%Q) l ->
  exists a, mean l = Num a /\ (lo <= a <= hi)%Q.
Proof.
  intros Hne Hall.
  destruct (mean_ge l lo Hne) as (a & Ea & Ha).
  { eapply Forall_impl; [| exact Hall]. intros x [H _]. exact H. }
  destruct (mean_le l hi Hne) as (a' & Ea' & Ha').
  { eapply Forall_impl; [| exact Hall]. intros x [_ H]. exact H. }
  exists a. rewrite Ea in Ea'. inversion Ea'; subst. auto.
Qed.

Lemma cost_per_workload (ga gz : Q) (nw t : Z) :
  (ga * inject_Z nw + gz * inject_Z (nw * t)
   == (ga + gz * inject_Z t) * inject_Z nw)%Q.
Proof. rewrite inject_Z_mult. ring. Qed.

(** X6: the cost of a slot is computed from the number of work-packages
    generated for it alone, whatever was transmitted:
    [GAMMA_A * n + GAMMA_Z * (n * T)], with the constants of the sources
    about 0.065 per work-package (between 0.064 and 0.066).  The average
    cost of a run of variant A lies between 0.064 and 0.396, that of
    variant B between 0.32 and 1.98. *)
Theorem X6_cost_per_generated_workload
        {G : Type} {RS : RandomSource G}
        (n : Z) (scenario : string) (epoch : bool) (w : World G) :
  VariantA.recognised scenario ->
  0 < n ->
  (exists r w' avg,
      VariantA.run_simulation VariantA.config n scenario epoch w = (Ok r, w')
      /\ let tr := VariantA.run_trace VariantA.config n scenario epoch w in
      Zlen tr = VariantA.slots_run n epoch /\
      VariantA.r_avg_cost r
      = mean (map (VariantA.slot_cost VariantA.config) tr) /\
      Forall (fun L =>
                ((64 # 1000) * inject_Z (VariantA.workloads L)
                 <= VariantA.slot_cost VariantA.config L
                 <= (66 # 1000) * inject_Z (VariantA.workloads L))%Q) tr
      /\ VariantA.r_avg_cost r = Num avg
      /\ ((64 # 1000) <= avg <= (396 # 1000))%Q) /\
  (exists r w' avg,
      VariantB.run_simulation VariantB.config n scenario w = (Ok r, w')
      /\ let tr := VariantB.run_trace VariantB.config n scenario w in
      Zlen tr = n /\
      VariantB.r_cost_series r = map (VariantB.slot_cost VariantB.config) tr /\
      Forall (fun L =>
                ((64 # 1000) * inject_Z (VariantB.num_workloads L)
                 <= VariantB.slot_cost VariantB.config L
                 <= (66 # 1000) * inject_Z (VariantB.num_workloads L))%Q) tr
      /\ VariantB.r_avg_cost_per_slot_usd r = Num avg
      /\ ((320 # 1000) <= avg <= (1980 # 1000))%Q).
Proof.
  intros Hs Hn. split.
  - pose proof A_config_wf as Hwf.
    pose proof Hwf as (HC & HP & _ & _ & _ & _ & Hf).
    destruct (A_run_spec VariantA.config n scenario epoch w Hf Hs
                (slots_run_pos n epoch Hn)) as (r & w' & E & _).
    pose proof (A_run_series VariantA.config n scenario epoch w r w' E) as HS.
    cbv zeta in HS. destruct HS as (HN & Hl & _ & _ & _ & _ & _ & Hk & _).
    assert (Hcost : Forall (fun L =>
                (VariantA.slot_cost VariantA.config L
                 == (65 # 1000) * inject_Z (VariantA.workloads L))%Q /\
                (1 <= inject_Z (VariantA.workloads L) <= 6)%Q)
              (VariantA.run_trace VariantA.config n scenario epoch w)).
    { eapply Forall_impl;
        [| apply (A_run_trace_facts VariantA.config); assumption].
      intros L ((Hwl & _) & _). split.
      - unfold VariantA.slot_cost. rewrite cost_per_workload.
        apply Qmult_comp; [reflexivity | reflexivity].
      - split; [change 1%Q with (inject_Z 1) | change 6%Q with (inject_Z 6)];
          rewrite <- Zle_Qle; lia. }
    destruct (mean_between
                (map (VariantA.slot_cost VariantA.config)
                     (VariantA.run_trace VariantA.config n scenario epoch w))
                (64 # 1000) (396 # 1000)) as (avg & Eavg & Havg).
    + intros Hnil. apply map_eq_nil in Hnil. revert Hnil.
      apply nonempty_of_Zlen. lia.
    + apply Forall_map. eapply Forall_impl; [| exact Hcost].
      intros L [Heq Hwl]. rewrite Heq. lra.
    + exists r, w', avg. split; [exact E |]. cbv zeta.
      split; [exact Hl |]. split; [exact Hk |]. split.
      * eapply Forall_impl; [| exact Hcost]. intros L [Heq Hwl].
        rewrite Heq. lra.
      * split; [congruence | exact Havg].
  - pose proof B_config_wf as Hwf.
    pose proof Hwf as [(_ & _ & _ & _ & _ & _ & Hf) _].
    destruct (B_run_spec VariantB.config Hf n scenario w Hn)
      as (r & w' & E & _).
    pose proof (B_run_series VariantB.config n scenario w r w' E) as HS.
    cbv zeta in HS.
    destruct HS as (_ & Hl & _ & _ & Hk & _ & _ & _ & Havgk & _).
    rewrite Z.max_r in Hl by lia.
    assert (Hcost : Forall (fun L =>
                (VariantB.slot_cost VariantB.config L
                 == (65 # 1000) * inject_Z (VariantB.num_workloads L))%Q /\
                (5 <= inject_Z (VariantB.num_workloads L) <= 30)%Q)
              (VariantB.run_trace VariantB.config n scenario w)).
    { eapply Forall_impl;
        [| apply (B_run_trace_facts VariantB.config); exact Hwf].
      intros L (Hnw & _). split.
      - unfold VariantB.slot_cost. rewrite cost_per_workload.
        apply Qmult_comp; [reflexivity | reflexivity].
      - split; [change 5%Q with (inject_Z 5) | change 30%Q with (inject_Z 30)];
          rewrite <- Zle_Qle; lia. }
    destruct (mean_between (VariantB.r_cost_series r)
                (320 # 1000) (1980 # 1000)) as (avg & Eavg & Havg).
    + rewrite Hk. intros Hnil. apply map_eq_nil in Hnil. revert Hnil.
      apply nonempty_of_Zlen. lia.
    + rewrite Hk. apply Forall_map. eapply Forall_impl; [| exact Hcost].
      intros L [Heq Hnw]. rewrite Heq. lra.
    + exists r, w', avg. split; [exact E |]. cbv zeta.
      split; [exact Hl |]. split; [exact Hk |]. split.
      * eapply Forall_impl; [| exact Hcost]. intros L [Heq Hnw].
        rewrite Heq. lra.
      * split; [congruence | exact Havg].
Qed.

Lemma X6_cost_per_generated_workload_witness :
  let w := empty_world [7; 11; 13] [1; 2; 3] in
  (exists r w' avg,
      VariantA.run_simulation VariantA.config 2 "mixed" false w = (Ok r, w')
      /\ let tr := VariantA.run_trace VariantA.config 2 "mixed" false w in
      Zlen tr = 2 /\
      VariantA.r_avg_cost r
      = mean (map (VariantA.slot_cost VariantA.config) tr) /\
      Forall (fun L =>
                ((64 # 1000) * inject_Z (VariantA.workloads L)
                 <= VariantA.slot_cost VariantA.config L
                 <= (66 # 1000) * inject_Z (VariantA.workloads L))%Q) tr
      /\ VariantA.r_avg_cost r = Num avg
      /\ ((64 # 1000) <= avg <= (396 # 1000))%Q) /\
  (exists r w' avg,
      VariantB.run_simulation VariantB.config 2 "mixed" w = (Ok r, w')
      /\ let tr := VariantB.run_trace VariantB.config 2 "mixed" w in
      Zlen tr = 2 /\
      VariantB.r_cost_series r = map (VariantB.slot_cost VariantB.config) tr /\
      Forall (fun L =>
                ((64 # 1000) * inject_Z (VariantB.num_workloads L)
                 <= VariantB.slot_cost VariantB.config L
                 <= (66 # 1000) * inject_Z (VariantB.num_workloads L))%Q) tr
      /\ VariantB.r_avg_cost_per_slot_usd r = Num avg
      /\ ((320 # 1000) <= avg <= (1980 # 1000))%Q).
Proof.
  intros w.
  apply (X6_cost_per_generated_workload 2 "mixed" false w).
  - right. right. reflexivity.
  - lia.
Defined.

Lemma rate_between (count n : Z) :
  0 < n -> 0 <= count <= n ->
  (0 <= inject_Z count / inject_Z n * 100 <= 100)%Q /\
  (0 <= 100 * inject_Z count / inject_Z n <= 100)%Q.
Proof.
  intros Hn [H0 H1].
  assert (Qn : (0 < inject_Z n)%Q) by (rewrite (Zlt_Qlt 0 n) in Hn; exact Hn).
  assert (Q0 : (0 <= inject_Z count)%Q) by (rewrite (Zle_Qle 0) in H0; exact H0).
  assert (Q1 : (inject_Z count <= inject_Z n)%Q) by (now rewrite <- Zle_Qle).
  assert (Hq0 : (0 <= inject_Z count / inject_Z n)%Q)
    by (apply Qle_shift_div_l; [exact Qn | lra]).
  assert (Hq1 : (inject_Z count / inject_Z n <= 1)%Q)
    by (apply Qle_shift_div_r; [exact Qn | lra]).
  assert (Heq : (100 * inject_Z count / inject_Z n
                 == inject_Z count / inject_Z n * 100)%Q).
  { field. intros E0. rewrite E0 in Qn. now apply Qlt_irrefl in Qn. }
  rewrite Heq. split; lra.
Qed.

(** X7: the contention rate a run returns is the share of its slots that
    were flagged contended, in percent: it lies between 0 and 100. *)
Theorem X7_contention_rate_is_a_percentage
        {G : Type} {RS : RandomSource G}
        (cfgA : Config) (cfgB : VariantB.ConfigB)
        (n : Z) (scenario : string) (epoch : bool) (w : World G) :
  0 <= finality_delay_slots cfgA ->
  0 <= finality_delay_slots (VariantB.base cfgB) ->
  VariantA.recognised scenario ->
  0 < n ->
  (exists r w',
      VariantA.run_simulation cfgA n scenario epoch w = (Ok r, w') /\
      VariantA.r_contention_rate r
      = (inject_Z (count_true (VariantA.r_contention_history r))
         / inject_Z (Zlen (VariantA.r_contention_history r)) * 100)%Q /\
      (0 <= VariantA.r_contention_rate r <= 100)%Q) /\
  (exists r w',
      VariantB.run_simulation cfgB n scenario w = (Ok r, w') /\
      VariantB.r_contention_rate_pct r
      = (100 * inject_Z (count_true (VariantB.r_contention_series r))
         / inject_Z (Zlen (VariantB.r_contention_series r)))%Q /\
      (0 <= VariantB.r_contention_rate_pct r <= 100)%Q).
Proof.
  intros HfA HfB Hs Hn. split.
  - destruct (A_run_spec cfgA n scenario epoch w HfA Hs
                (slots_run_pos n epoch Hn)) as (r & w' & E & _).
    pose proof (A_run_series cfgA n scenario epoch w r w' E) as HS.
    cbv zeta in HS. destruct HS as (HN & Hl & _ & Hc & _ & _ & _ & _ & Hrate).
    assert (Len : Zlen (VariantA.r_contention_history r)
                  = VariantA.slots_run n epoch).
    { rewrite Hc. unfold Zlen in *. now rewrite length_map. }
    exists r, w'. split; [exact E |]. rewrite Len. split; [exact Hrate |].
    rewrite Hrate. apply rate_between; [exact HN |].
    rewrite <- Len. apply count_true_bounds.
  - destruct (B_run_spec cfgB HfB n scenario w Hn) as (r & w' & E & _).
    pose proof (B_run_series cfgB n scenario w r w' E) as HS.
    cbv zeta in HS.
    destruct HS as (_ & Hl & _ & Hc & _ & _ & _ & _ & _ & Hrate).
    rewrite Z.max_r in Hl by lia.
    assert (Len : Zlen (VariantB.r_contention_series r) = n).
    { rewrite Hc. unfold Zlen in *. now rewrite length_map. }
    exists r, w'. split; [exact E |]. rewrite Len. split; [exact Hrate |].
    rewrite Hrate. apply rate_between; [exact Hn |].
    rewrite <- Len. apply count_true_bounds.
Qed.

Lemma X7_contention_rate_is_a_percentage_witness :
  let w := empty_world [7; 11; 13] [1; 2; 3] in
  let cfgB := VariantB.mkConfigB two_cores 100 in
  (exists r w',
      VariantA.run_simulation two_cores 3 "mixed" false w = (Ok r, w') /\
      VariantA.r_contention_rate r
      = (inject_Z (count_true (VariantA.r_contention_history r))
         / inject_Z (Zlen (VariantA.r_contention_history r)) * 100)%Q /\
      (0 <= VariantA.r_contention_rate r <= 100)%Q) /\
  (exists r w',
      VariantB.run_simulation cfgB 3 "mixed" w = (Ok r, w') /\
      VariantB.r_contention_rate_pct r
      = (100 * inject_Z (count_true (VariantB.r_contention_series r))
         / inject_Z (Zlen (VariantB.r_contention_series r)))%Q /\
      (0 <= VariantB.r_contention_rate_pct r <= 100)%Q).
Proof.
  intros w cfgB.
  apply (X7_contention_rate_is_a_percentage two_cores cfgB 3 "mixed" false w).
  - cbn. lia.
  - cbn. lia.
  - right. right. reflexivity.
  - lia.
Defined.

(** ** The finalized series against the effective series *)

Lemma getitem_nth {A} (l : list A) i d :
  0 <= i < Zlen l -> getitem l i = Ok (nth (Z.to_nat i) l d).
Proof.
  intros Hi. destruct (getitem_in_range l i Hi) as (x & E).
  rewrite E. f_equal. symmetry. apply getitem_Ok_nth; [lia | exact E].
Qed.

(** The finalized series is the effective series shifted right by the
    delay, zeros coming in. *)
Lemma delayed_shape fds eff fin :
  0 <= fds -> delayed fds eff fin ->
  fin = repeat 0%Q (Z.to_nat (Z.min fds (Zlen eff)))
        ++ firstn (Z.to_nat (Zlen eff - fds)) eff.
Proof.
  intros Hf [Hlen Hd]. pose proof (Zlen_nonneg eff) as Hn.
  apply (nth_ext _ _ 0%Q 0%Q).
  - rewrite length_app, repeat_length, length_firstn.
    unfold Zlen in *. lia.
  - intros s Hs.
    assert (Hs' : 0 <= Z.of_nat s < Zlen fin) by (unfold Zlen; lia).
    specialize (Hd (Z.of_nat s) Hs').
    rewrite (getitem_nth fin _ 0%Q Hs'), Nat2Z.id in Hd.
    destruct (fds <=? Z.of_nat s) eqn:E.
    + apply Z.leb_le in E.
      rewrite (getitem_nth eff _ 0%Q) in Hd by lia.
      injection Hd as Hd'. rewrite Hd'.
      rewrite app_nth2; rewrite repeat_length; [| lia].
      rewrite nth_firstn.
      replace (s - Z.to_nat (Z.min fds (Zlen eff)))%nat
        with (Z.to_nat (Z.of_nat s - fds)) by lia.
      destruct (Nat.ltb_spec (Z.to_nat (Z.of_nat s - fds))
                             (Z.to_nat (Zlen eff - fds))); [reflexivity | lia].
    + apply Z.leb_gt in E. injection Hd as Hd'.
      rewrite app_nth1 by (rewrite repeat_length; lia).
      rewrite nth_repeat. exact Hd'.
Qed.

Lemma Qsum_repeat_0 k : (Qsum (repeat 0%Q k) == 0)%Q.
Proof. induction k as [| k IH]; cbn [repeat Qsum]; [| rewrite IH]; lra. Qed.

Lemma Qsum_nonneg l : Forall (fun x => (0 <= x)%Q) l -> (0 <= Qsum l)%Q.
Proof. induction 1; cbn [Qsum]; lra. Qed.

Lemma Qsum_firstn_le k l :
  Forall (fun x => (0 <= x)%Q) l -> (Qsum (firstn k l) <= Qsum l)%Q.
Proof.
  intros H. revert k. induction H as [| x l Hx Hl IH]; intros [| k];
    cbn [firstn Qsum]; try lra.
  - pose proof (Qsum_nonneg l Hl). lra.
  - specialize (IH k). lra.
Qed.

Lemma Forall_firstn {A} (Phi : A -> Prop) k l :
  Forall Phi l -> Forall Phi (firstn k l).
Proof.
  intros H. revert k. induction H; intros [| k]; cbn [firstn]; constructor;
    auto.
Qed.

Lemma delayed_means fds eff fin :
  0 <= fds -> delayed fds eff fin -> eff <> [] ->
  Forall (fun x => (0 <= x)%Q) eff ->
  exists af ae,
    mean fin = Num af /\ mean eff = Num ae /\ (0 <= af <= ae)%Q.
Proof.
  intros Hf Hd Hne Hpos.
  pose proof (delayed_shape fds eff fin Hf Hd) as Hshape.
  destruct Hd as [Hlen _].
  assert (Hsum : (0 <= Qsum fin <= Qsum eff)%Q).
  { rewrite Hshape, Qsum_app, Qsum_repeat_0. split.
    - pose proof (Qsum_nonneg _ (Forall_firstn _ (Z.to_nat (Zlen eff - fds))
                                   _ Hpos)). lra.
    - pose proof (Qsum_firstn_le (Z.to_nat (Zlen eff - fds)) eff Hpos). lra. }
  destruct eff as [| e eff]; [congruence |].
  destruct fin as [| f fin]; [unfold Zlen in Hlen; cbn in Hlen; lia |].
  eexists _, _. split; [reflexivity |]. split; [reflexivity |].
  rewrite Hlen.
  assert (Qn : (0 < inject_Z (Zlen (e :: eff)))%Q).
  { change 0%Q with (inject_Z 0). rewrite <- Zlt_Qlt. unfold Zlen.
    cbn [List.length]. lia. }
  split.
  - apply Qle_shift_div_l; [exact Qn | lra].
  - apply Qle_shift_div_r; [exact Qn |].
    assert (X : (Qsum (e :: eff) / inject_Z (Zlen (e :: eff))
                 * inject_Z (Zlen (e :: eff)) == Qsum (e :: eff))%Q).
    { field. intros E0. rewrite E0 in Qn. now apply Qlt_irrefl in Qn. }
    rewrite X. lra.
Qed.

Lemma tps_nonneg (sent wps t p : Z) :
  0 < wps -> 0 < p -> 0 <= t -> 0 <= sent ->
  (0 <= inject_Z sent / inject_Z wps * inject_Z t / inject_Z p)%Q.
Proof.
  intros Hw Hp Ht Hs.
  assert (Qw : (0 < inject_Z wps)%Q) by (rewrite (Zlt_Qlt 0 wps) in Hw; exact Hw).
  assert (Qp : (0 < inject_Z p)%Q) by (rewrite (Zlt_Qlt 0 p) in Hp; exact Hp).
  assert (Qt : (0 <= inject_Z t)%Q) by (rewrite (Zle_Qle 0 t) in Ht; exact Ht).
  assert (Qs : (0 <= inject_Z sent)%Q) by (rewrite (Zle_Qle 0) in Hs; exact Hs).
  apply Qle_shift_div_l; [exact Qp |]. rewrite Qmult_0_l.
  apply Qmult_le_0_compat; [| exact Qt].
  apply Qle_shift_div_l; [exact Qw |]. lra.
Qed.

Lemma Zsum_map_nonneg {A} (f : A -> Z) l :
  (forall x, In x l -> 0 <= f x) -> 0 <= Zsum (map f l).
Proof.
  intros H. apply Zsum_nonneg, Forall_map, Forall_forall. exact H.
Qed.

Lemma A_effective_nonneg cfg L :
  wf_config cfg -> A_slot_facts cfg L -> (0 <= VariantA.effective_tps L)%Q.
Proof.
  intros (HC & HP & HT & HB & HW & HS & _)
         (_ & (_ & Pw & _) & (_ & Pi & _) & _ & Hsent & Heff).
  rewrite Heff. apply tps_nonneg; try lia.
  rewrite Hsent. apply Zsum_map_nonneg. intros i _.
  unfold VariantA.capacity, VariantA.demand, VariantA.core_data.
  pose proof (nth_nonneg (VariantA.workloads_per_core L) (Z.to_nat i) Pw).
  pose proof (nth_nonneg (VariantA.witnesses_per_core L) (Z.to_nat i) Pi).
  apply Z.min_glb; nia.
Qed.

Lemma B_effective_nonneg cfg L :
  VariantB.wf_configB cfg -> B_slot_facts cfg L ->
  (0 <= VariantB.effective_tps L)%Q.
Proof.
  intros [(HC & HP & HT & HB & HW & HS & _) HK]
         (Hnw & _ & (_ & Pc & _) & _ & Hsent & Heff).
  rewrite Heff. apply tps_nonneg; try lia.
  rewrite Hsent. apply Zsum_map_nonneg. intros i _.
  unfold VariantB.capacity, VariantB.demand, VariantB.needed,
    VariantB.witness_bytes.
  pose proof (nth_nonneg (VariantB.chunks_per_core L) (Z.to_nat i) Pc).
  pose proof (Z.div_pos (VariantB.num_workloads L) (C (VariantB.base cfg))
                ltac:(lia) HC).
  apply Z.min_glb; nia.
Qed.

(** X8: the finalized series of a run is its effective series shifted by
    the finality delay with zeros coming in, so the last
    [finality_delay_slots] effective values are never finalized and the
    average finalized TPS is at most the average effective TPS; neither is
    negative. *)
Theorem X8_average_finalized_below_effective
        {G : Type} {RS : RandomSource G}
        (cfgA : Config) (cfgB : VariantB.ConfigB)
        (n : Z) (scenario : string) (epoch : bool) (w : World G) :
  wf_config cfgA ->
  VariantB.wf_configB cfgB ->
  VariantA.recognised scenario ->
  0 < n ->
  (exists r w' af ae,
      VariantA.run_simulation cfgA n scenario epoch w = (Ok r, w') /\
      VariantA.r_tps_finalized r
      = repeat 0%Q (Z.to_nat (Z.min (finality_delay_slots cfgA)
                                    (VariantA.slots_run n epoch)))
        ++ firstn (Z.to_nat (VariantA.slots_run n epoch
                             - finality_delay_slots cfgA))
                  (VariantA.r_tps_effective r) /\
      VariantA.r_avg_tps_finalized r = Num af /\
      VariantA.r_avg_tps_effective r = Num ae /\
      (0 <= af <= ae)%Q) /\
  (exists r w' af ae,
      VariantB.run_simulation cfgB n scenario w = (Ok r, w') /\
      VariantB.r_finalized_series r
      = repeat 0%Q (Z.to_nat (Z.min (finality_delay_slots (VariantB.base cfgB))
                                    n))
        ++ firstn (Z.to_nat (n - finality_delay_slots (VariantB.base cfgB)))
                  (VariantB.r_effective_series r) /\
      VariantB.r_avg_finalized_tps r = Num af /\
      VariantB.r_avg_effective_tps r = Num ae /\
      (0 <= af <= ae)%Q).
Proof.
  intros HwfA HwfB Hs Hn.
  pose proof HwfA as (HC & HP & _ & _ & _ & _ & HfA).
  pose proof HwfB as [(HCB & _ & _ & _ & _ & _ & HfB) _].
  split.
  - destruct (A_run_spec cfgA n scenario epoch w HfA Hs
                (slots_run_pos n epoch Hn))
      as (r & w' & E & Hl & _ & He & _ & Hd & _ & Hae & Haf).
    cbv zeta in Hl, He.
    assert (Len : Zlen (VariantA.r_tps_effective r)
                  = VariantA.slots_run n epoch).
    { rewrite He. unfold Zlen in *. now rewrite length_map. }
    destruct (delayed_means _ _ _ HfA Hd) as (af & ae & Ef & Ee & Hle).
    + apply nonempty_of_Zlen. rewrite Len. now apply slots_run_pos.
    + rewrite He. apply Forall_map.
      eapply Forall_impl; [| apply (A_run_trace_facts cfgA); assumption].
      intros L HL. now apply (A_effective_nonneg cfgA).
    + exists r, w', af, ae. split; [exact E |].
      split; [rewrite <- Len; now apply delayed_shape |].
      rewrite Haf, Hae. auto.
  - destruct (B_run_spec cfgB HfB n scenario w Hn)
      as (r & w' & E & Hl & _ & He & _ & Hd & _ & Hae & Haf).
    cbv zeta in Hl, He.
    assert (Len : Zlen (VariantB.r_effective_series r) = n).
    { rewrite He. unfold Zlen in *. now rewrite length_map. }
    destruct (delayed_means _ _ _ HfB Hd) as (af & ae & Ef & Ee & Hle).
    + apply nonempty_of_Zlen. rewrite Len. exact Hn.
    + rewrite He. apply Forall_map.
      eapply Forall_impl; [| apply (B_run_trace_facts cfgB); assumption].
      intros L HL. now apply (B_effective_nonneg cfgB).
    + exists r, w', af, ae. split; [exact E |].
      split; [rewrite <- Len; now apply delayed_shape |].
      rewrite Haf, Hae. auto.
Qed.

Lemma X8_average_finalized_below_effective_witness :
  let w := empty_world [7; 11; 13] [1; 2; 3] in
  let cfgB := VariantB.mkConfigB two_cores 100 in
  (exists r w' af ae,
      VariantA.run_simulation two_cores 3 "mixed" false w = (Ok r, w') /\
      VariantA.r_tps_finalized r
      = repeat 0%Q (Z.to_nat (Z.min 1 3))
        ++ firstn (Z.to_nat (3 - 1)) (VariantA.r_tps_effective r) /\
      VariantA.r_avg_tps_finalized r = Num af /\
      VariantA.r_avg_tps_effective r = Num ae /\
      (0 <= af <= ae)%Q) /\
  (exists r w' af ae,
      VariantB.run_simulation cfgB 3 "mixed" w = (Ok r, w') /\
      VariantB.r_finalized_series r
      = repeat 0%Q (Z.to_nat (Z.min 1 3))
        ++ firstn (Z.to_nat (3 - 1)) (VariantB.r_effective_series r) /\
      VariantB.r_avg_finalized_tps r = Num af /\
      VariantB.r_avg_effective_tps r = Num ae /\
      (0 <= af <= ae)%Q).
Proof.
  intros w cfgB.
  apply (X8_average_finalized_below_effective two_cores cfgB 3 "mixed"
           false w).
  - unfold wf_config. cbn. lia.
  - unfold VariantB.wf_configB, wf_config. cbn. lia.
  - right. right. reflexivity.
  - lia.
Defined.

(** ** The table variant A writes *)

(** X9: when a run of variant A returns, [simulation_results.csv] holds the
    header and one row per slot, [slot, tps_effective[slot],
    tps_finalized[slot], contention_history[slot]] of the result returned;
    whatever the file held before is gone, and no other file, nor the
    environment or the display, has changed. *)
Theorem X9_variantA_csv_holds_the_series
        {G : Type} {RS : RandomSource G}
        (cfg : Config) (n : Z) (scenario : string) (epoch : bool)
        (w : World G) :
  0 <= finality_delay_slots cfg ->
  VariantA.recognised scenario ->
  0 < n ->
  exists r w',
    VariantA.run_simulation cfg n scenario epoch w = (Ok r, w') /\
    files w' "simulation_results.csv"
    = Some (VariantA.csv_header
            :: map (VariantA.csv_row_of r)
                   (range (VariantA.slots_run n epoch))) /\
    Zlen (VariantA.r_tps_effective r) = VariantA.slots_run n epoch /\
    Zlen (VariantA.r_tps_finalized r) = VariantA.slots_run n epoch /\
    Zlen (VariantA.r_contention_history r) = VariantA.slots_run n epoch /\
    (forall p, p <> "simulation_results.csv" -> files w' p = files w p) /\
    environ w' = environ w /\ display w' = display w.
Proof.
  intros Hf Hs Hn.
  destruct (A_run_spec cfg n scenario epoch w Hf Hs (slots_run_pos n epoch Hn))
    as (r & w' & E & _).
  pose proof (A_run_series cfg n scenario epoch w r w' E) as HS.
  cbv zeta in HS. destruct HS as (HN & Hl & He & Hc & Hfin & _).
  pose proof (A_run_inv cfg n scenario epoch w r w' E) as HI.
  cbv zeta in HI.
  destruct HI as (_ & pr & st & w1 & _ & _ & _ & _ & _ & _ & _ & Hfile & _).
  destruct (A_run_confined (fun p => String.eqb p "simulation_results.csv")
              cfg n scenario epoch eq_refl w w (conj eq_refl eq_refl))
    as (_ & _ & Henv & Hdis & Hothers).
  rewrite E in Henv, Hdis, Hothers. cbn [snd] in Henv, Hdis, Hothers.
  exists r, w'. split; [exact E |]. split; [exact Hfile |].
  split; [rewrite He; unfold Zlen in *; now rewrite length_map |].
  split; [exact Hfin |].
  split; [rewrite Hc; unfold Zlen in *; now rewrite length_map |].
  split; [| split; assumption].
  intros p Hp. apply Hothers. now apply String.eqb_neq.
Qed.

Lemma X9_variantA_csv_holds_the_series_witness :
  let w := empty_world [7; 11; 13] [1; 2; 3] in
  exists r w',
    VariantA.run_simulation two_cores 3 "mixed" false w = (Ok r, w') /\
    files w' "simulation_results.csv"
    = Some (VariantA.csv_header :: map (VariantA.csv_row_of r) (range 3)) /\
    Zlen (VariantA.r_tps_effective r) = 3 /\
    Zlen (VariantA.r_tps_finalized r) = 3 /\
    Zlen (VariantA.r_contention_history r) = 3 /\
    (forall p, p <> "simulation_results.csv" -> files w' p = files w p) /\
    environ w' = environ w /\ display w' = display w.
Proof.
  intros w.
  apply (X9_variantA_csv_holds_the_series two_cores 3 "mixed" false w).
  - cbn. lia.
  - right. right. reflexivity.
  - lia.
Defined.

(** ** The CSV export of variant B *)

Lemma for_each_app {G A S} (l1 l2 : list A) (body : A -> S -> M G S) st w :
  for_each (l1 ++ l2) body st w
  = bind (for_each l1 body st) (for_each l2 body) w.
Proof.
  revert st w. induction l1 as [| x l1 IH]; intros st w.
  - reflexivity.
  - cbn [app for_each]. unfold bind in *.
    destruct (body x st w) as [[st1 | e] w1]; [apply IH | reflexivity].
Qed.

Lemma range_split k n :
  0 <= k < n ->
  exists rest, range n = range k ++ k :: rest.
Proof.
  intros Hk. unfold range.
  replace (Z.to_nat n) with (Z.to_nat k + S (Z.to_nat (n - k - 1)))%nat by lia.
  rewrite seq_app, map_app. cbn [seq map Nat.add].
  rewrite Z2Nat.id by lia. eexists. reflexivity.
Qed.

Lemma getitem_cases {A} (l : list A) i :
  0 <= i ->
  (exists x, getitem l i = Ok x /\ i < Zlen l) \/
  (getitem l i = Raise IndexError /\ Zlen l <= i).
Proof.
  intros Hi. destruct (Z_lt_le_dec i (Zlen l)) as [Hlt | Hge].
  - left. destruct (getitem_in_range l i) as (x & E); [lia |]. eauto.
  - right. split; [now apply getitem_out_of_range | exact Hge].
Qed.

Section ExportCsv.
Context {G : Type}.
Variable results : VariantB.Results.

Let filename := VariantB.csv_filename (VariantB.r_scenario results).

Lemma file_step_trans path c1 c2 (w w1 w2 : World G) :
  file_step path c1 w w1 -> file_step path c2 w1 w2 ->
  file_step path c2 w w2.
Proof.
  intros (P1 & N1 & E1 & _ & O1) (P2 & N2 & E2 & F2 & O2).
  repeat split; try congruence.
  intros p Hp. rewrite O2, O1; auto.
Qed.

Lemma open_w_spec path (w : World G) :
  exists w', open_w path w = (Ok tt, w') /\
             file_step path [] w w' /\ display w' = display w.
Proof.
  eexists. split; [reflexivity |]. unfold file_step. cbn.
  rewrite String.eqb_refl. repeat split; auto.
  intros p Hp. now destruct (String.eqb_spec p path).
Qed.

Lemma writerow_spec path row rows (w : World G) :
  files w path = Some rows ->
  exists w', writerow path row w = (Ok tt, w') /\
             file_step path (rows ++ [row]) w w' /\ display w' = display w.
Proof.
  intros Hrows. eexists. split; [reflexivity |]. unfold file_step. cbn.
  rewrite String.eqb_refl, Hrows. repeat split; auto.
  intros p Hp. now destruct (String.eqb_spec p path).
Qed.

Lemma B_export_row_Ok i rows (w : World G) :
  0 <= i ->
  i < Zlen (VariantB.r_effective_series results) ->
  i < Zlen (VariantB.r_finalized_series results) ->
  i < Zlen (VariantB.r_contention_series results) ->
  i < Zlen (VariantB.r_cost_series results) ->
  files w filename = Some rows ->
  exists w',
    VariantB.export_row filename results i tt w = (Ok tt, w') /\
    file_step filename (rows ++ [VariantB.csv_row_of results i]) w w' /\
    display w' = display w.
Proof.
  intros Hi He Hf Hc Hk Hrows. unfold VariantB.export_row, bind, lift.
  rewrite (getitem_nth _ i 0%Q) by lia.
  rewrite (getitem_nth _ i 0%Q) by lia.
  rewrite (getitem_nth _ i false) by lia.
  rewrite (getitem_nth _ i 0%Q) by lia.
  apply writerow_spec. exact Hrows.
Qed.

Lemma B_export_row_IndexError i (w : World G) :
  0 <= i ->
  Z.min (Zlen (VariantB.r_effective_series results))
        (Z.min (Zlen (VariantB.r_finalized_series results))
               (Z.min (Zlen (VariantB.r_contention_series results))
                      (Zlen (VariantB.r_cost_series results)))) <= i ->
  VariantB.export_row filename results i tt w = (Raise IndexError, w).
Proof.
  intros Hi Hmin. unfold VariantB.export_row, bind, lift.
  destruct (getitem_cases (VariantB.r_effective_series results) i Hi)
    as [(e & -> & He) | [-> _]]; [| reflexivity].
  destruct (getitem_cases (VariantB.r_finalized_series results) i Hi)
    as [(f & -> & Hf) | [-> _]]; [| reflexivity].
  destruct (getitem_cases (VariantB.r_contention_series results) i Hi)
    as [(c & -> & Hc) | [-> _]]; [| reflexivity].
  destruct (getitem_cases (VariantB.r_cost_series results) i Hi)
    as [(k & -> & Hk) | [-> _]]; [| reflexivity].
  lia.
Qed.

Lemma B_export_loop_Ok slots : forall rows (w : World G),
  files w filename = Some rows ->
  (forall i, In i slots ->
             0 <= i /\
             i < Zlen (VariantB.r_effective_series results) /\
             i < Zlen (VariantB.r_finalized_series results) /\
             i < Zlen (VariantB.r_contention_series results) /\
             i < Zlen (VariantB.r_cost_series results)) ->
  exists w',
    for_each slots (VariantB.export_row filename results) tt w = (Ok tt, w') /\
    file_step filename (rows ++ map (VariantB.csv_row_of results) slots) w w'
    /\ display w' = display w.
Proof.
  induction slots as [| i rest IH]; intros rows w Hrows Hin.
  - exists w. split; [reflexivity |]. cbn [map]. rewrite app_nil_r.
    unfold file_step. repeat split; auto.
  - destruct (Hin i (or_introl eq_refl)) as (Hi & He & Hf & Hc & Hk).
    destruct (B_export_row_Ok i rows w Hi He Hf Hc Hk Hrows)
      as (w1 & E1 & S1 & D1).
    destruct (IH (rows ++ [VariantB.csv_row_of results i]) w1)
      as (w2 & E2 & S2 & D2).
    + apply S1.
    + intros j Hj. apply Hin. now right.
    + exists w2. cbn [for_each]. rewrite (bind_Ok _ _ _ _ _ E1).
      split; [exact E2 |]. cbn [map].
      rewrite <- app_assoc in S2. cbn [app] in S2.
      split; [eapply file_step_trans; eassumption | congruence].
Qed.
End ExportCsv.

Lemma string_length_append (s t : string) :
  String.length (String.append s t) = (String.length s + String.length t)%nat.
Proof. induction s as [| c s IH]; cbn; [reflexivity | now rewrite IH]. Qed.

Lemma string_append_cancel_r (t s s' : string) :
  String.append s t = String.append s' t -> s = s'.
Proof.
  revert s'. induction s as [| c s IH]; intros [| c' s'] H.
  - reflexivity.
  - apply (f_equal String.length) in H. cbn in H.
    rewrite string_length_append in H. lia.
  - apply (f_equal String.length) in H. cbn in H.
    rewrite string_length_append in H. lia.
  - cbn in H. injection H as -> H. f_equal. now apply IH.
Qed.

(** The files of two scenarios are two files. *)
Lemma B_csv_filename_inj s s' :
  VariantB.csv_filename s = VariantB.csv_filename s' -> s = s'.
Proof.
  unfold VariantB.csv_filename. intros H. cbn in H.
  injection H as H. now apply string_append_cancel_r in H.
Qed.

Section ExportCsvWhole.
Context {G : Type}.

Lemma B_export_csv_Ok (results : VariantB.Results) (w : World G) :
  let n := Zlen (VariantB.r_effective_series results) in
  n <= Zlen (VariantB.r_finalized_series results) ->
  n <= Zlen (VariantB.r_contention_series results) ->
  n <= Zlen (VariantB.r_cost_series results) ->
  let filename := VariantB.csv_filename (VariantB.r_scenario results) in
  exists w',
    VariantB.export_csv results w = (Ok tt, w') /\
    file_step filename
              (VariantB.csv_header
               :: map (VariantB.csv_row_of results) (range n)) w w' /\
    display w'
    = display w ++ [String.append "[+] CSV exported → " filename].
Proof.
  intros n Hf Hc Hk filename. unfold VariantB.export_csv. cbv zeta.
  fold filename. fold n.
  destruct (open_w_spec filename w) as (w1 & E1 & S1 & D1).
  rewrite (bind_Ok _ _ _ _ _ E1).
  destruct (writerow_spec filename VariantB.csv_header [] w1)
    as (w2 & E2 & S2 & D2); [apply S1 |].
  rewrite (bind_Ok _ _ _ _ _ E2).
  destruct (B_export_loop_Ok results (range n) ([] ++ [VariantB.csv_header]) w2)
    as (w3 & E3 & S3 & D3).
  - apply S2.
  - intros i Hi. apply in_range in Hi. lia.
  - rewrite (bind_Ok _ _ _ _ _ E3). unfold print.
    eexists. split; [reflexivity |]. cbn [app] in S3.
    pose proof (file_step_trans _ _ _ _ _ _ S1
                  (file_step_trans _ _ _ _ _ _ S2 S3)) as S.
    split.
    + destruct S as (P & N & Ev & F & O). unfold file_step. cbn.
      repeat split; auto.
    + cbn. congruence.
Qed.

Lemma B_export_csv_IndexError (results : VariantB.Results) (w : World G) :
  let k := Z.min (Zlen (VariantB.r_finalized_series results))
                 (Z.min (Zlen (VariantB.r_contention_series results))
                        (Zlen (VariantB.r_cost_series results))) in
  k < Zlen (VariantB.r_effective_series results) ->
  let filename := VariantB.csv_filename (VariantB.r_scenario results) in
  exists w',
    VariantB.export_csv results w = (Raise IndexError, w') /\
    file_step filename
              (VariantB.csv_header
               :: map (VariantB.csv_row_of results) (range k)) w w' /\
    display w' = display w.
Proof.
  intros k Hk filename. unfold VariantB.export_csv. cbv zeta.
  fold filename.
  assert (Hk0 : 0 <= k).
  { pose proof (Zlen_nonneg (VariantB.r_finalized_series results)).
    pose proof (Zlen_nonneg (VariantB.r_contention_series results)).
    pose proof (Zlen_nonneg (VariantB.r_cost_series results)). lia. }
  destruct (open_w_spec filename w) as (w1 & E1 & S1 & D1).
  rewrite (bind_Ok _ _ _ _ _ E1).
  destruct (writerow_spec filename VariantB.csv_header [] w1)
    as (w2 & E2 & S2 & D2); [apply S1 |].
  rewrite (bind_Ok _ _ _ _ _ E2).
  destruct (range_split k (Zlen (VariantB.r_effective_series results)))
    as (rest & ->); [lia |].
  destruct (B_export_loop_Ok results (range k) ([] ++ [VariantB.csv_header]) w2)
    as (w3 & E3 & S3 & D3).
  - apply S2.
  - intros i Hi. apply in_range in Hi. lia.
  - exists w3. split.
    + apply bind_Raise. rewrite for_each_app, (bind_Ok _ _ _ _ _ E3).
      cbn [for_each]. apply bind_Raise.
      apply B_export_row_IndexError; lia.
    + cbn [app] in S3.
      split; [| congruence].
      exact (file_step_trans _ _ _ _ _ _ S1
               (file_step_trans _ _ _ _ _ _ S2 S3)).
Qed.
End ExportCsvWhole.

(** X10: [export_csv] applied to what [run_simulation] returned does not
    raise: it leaves in [jam_results_<scenario>.csv] the header followed by
    one row per slot, [i, effective, finalized, contended, cost] of the
    result, prints one line, and changes no other file. *)
Theorem X10_variantB_export_after_run
        {G : Type} {RS : RandomSource G}
        (cfg : VariantB.ConfigB) (n : Z) (scenario : string) (w : World G) :
  0 <= finality_delay_slots (VariantB.base cfg) ->
  0 < n ->
  exists r w1 w2,
    VariantB.run_simulation cfg n scenario w = (Ok r, w1) /\
    VariantB.export_csv r w1 = (Ok tt, w2) /\
    files w2 (VariantB.csv_filename scenario)
    = Some (VariantB.csv_header :: map (VariantB.csv_row_of r) (range n)) /\
    (forall p, p <> VariantB.csv_filename scenario ->
               files w2 p = files w p) /\
    display w2
    = display w ++ [String.append "[+] CSV exported → "
                                  (VariantB.csv_filename scenario)] /\
    environ w2 = environ w.
Proof.
  intros Hf Hn.
  destruct (B_run_spec cfg Hf n scenario w Hn)
    as (r & w1 & E & _ & Hsc & _).
  pose proof (B_run_series cfg n scenario w r w1 E) as HS. cbv zeta in HS.
  destruct HS as (_ & Hl & He & Hc & Hk & Hfin & _).
  rewrite Z.max_r in Hl, Hfin by lia.
  assert (Len : forall A (f : VariantB.SlotLocals -> A),
             Zlen (map f (VariantB.run_trace cfg n scenario w)) = n).
  { intros A f. unfold Zlen in *. now rewrite length_map. }
  destruct (B_export_csv_Ok r w1) as (w2 & E2 & S & D).
  - rewrite He, Len. lia.
  - rewrite He, Hc, !Len. lia.
  - rewrite He, Hk, !Len. lia.
  - rewrite Hsc in S, D. rewrite He, Len in S.
    destruct (B_run_confined (fun _ => false) cfg n scenario w w
                (conj eq_refl eq_refl)) as (_ & _ & Henv & Hdis & Hfiles).
    rewrite E in Henv, Hdis, Hfiles. cbn [snd] in Henv, Hdis, Hfiles.
    destruct S as (_ & _ & Ev & F & O).
    exists r, w1, w2. split; [exact E |]. split; [exact E2 |].
    split; [exact F |]. split.
    + intros p Hp. rewrite O by exact Hp. now apply Hfiles.
    + split; congruence.
Qed.

Lemma X10_variantB_export_after_run_witness :
  let w := empty_world [7; 11; 13] [1; 2; 3] in
  exists r w1 w2,
    VariantB.run_simulation VariantB.config 2 "mixed" w = (Ok r, w1) /\
    VariantB.export_csv r w1 = (Ok tt, w2) /\
    files w2 (VariantB.csv_filename "mixed")
    = Some (VariantB.csv_header :: map (VariantB.csv_row_of r) (range 2)) /\
    (forall p, p <> VariantB.csv_filename "mixed" -> files w2 p = files w p) /\
    display w2
    = display w ++ [String.append "[+] CSV exported → "
                                  (VariantB.csv_filename "mixed")] /\
    environ w2 = environ w.
Proof.
  intros w.
  apply (X10_variantB_export_after_run VariantB.config 2 "mixed" w).
  - cbn. lia.
  - lia.
Defined.

(** X11: [export_csv] walks the indices of [effective_series]; given a
    dictionary whose finalized, contention or cost series is shorter, it
    raises [IndexError] at the first index one of them lacks.  The file has
    been truncated and holds the header and the rows before that index;
    the closing line is not printed. *)
Theorem X11_variantB_export_short_series
        {G : Type} (results : VariantB.Results) (w : World G) :
  let k := Z.min (Zlen (VariantB.r_finalized_series results))
                 (Z.min (Zlen (VariantB.r_contention_series results))
                        (Zlen (VariantB.r_cost_series results))) in
  k < Zlen (VariantB.r_effective_series results) ->
  let filename := VariantB.csv_filename (VariantB.r_scenario results) in
  exists w',
    VariantB.export_csv results w = (Raise IndexError, w') /\
    files w' filename
    = Some (VariantB.csv_header
            :: map (VariantB.csv_row_of results) (range k)) /\
    (forall p, p <> filename -> files w' p = files w p) /\
    display w' = display w.
Proof.
  intros k Hk filename.
  destruct (B_export_csv_IndexError results w Hk) as (w' & E & S & D).
  destruct S as (_ & _ & _ & F & O).
  exists w'. repeat split; auto.
Qed.


Lemma X11_variantB_export_short_series_witness :
  let w := empty_world [] [] in
  exists w',
    VariantB.export_csv short_results w = (Raise IndexError, w') /\
    files w' (VariantB.csv_filename "mixed")
    = Some (VariantB.csv_header
            :: map (VariantB.csv_row_of short_results) (range 1)) /\
    (forall p, p <> VariantB.csv_filename "mixed" ->
               files w' p = files w p) /\
    display w' = display w.
Proof.
  intros w.
  apply (X11_variantB_export_short_series short_results w).
  cbn. lia.
Defined.

(** X12: the exports of two scenarios go to two files: after
    [export_csv(r1)] and then [export_csv(r2)], with different scenario
    tags, each file holds the table of its own result. *)
Theorem X12_variantB_exports_do_not_clobber
        {G : Type} (r1 r2 : VariantB.Results) (w : World G) :
  let consistent r :=
    Zlen (VariantB.r_effective_series r)
    <= Zlen (VariantB.r_finalized_series r) /\
    Zlen (VariantB.r_effective_series r)
    <= Zlen (VariantB.r_contention_series r) /\
    Zlen (VariantB.r_effective_series r)
    <= Zlen (VariantB.r_cost_series r) in
  let table r :=
    VariantB.csv_header
    :: map (VariantB.csv_row_of r)
           (range (Zlen (VariantB.r_effective_series r))) in
  consistent r1 -> consistent r2 ->
  VariantB.r_scenario r1 <> VariantB.r_scenario r2 ->
  exists w1 w2,
    VariantB.export_csv r1 w = (Ok tt, w1) /\
    VariantB.export_csv r2 w1 = (Ok tt, w2) /\
    files w2 (VariantB.csv_filename (VariantB.r_scenario r1))
    = Some (table r1) /\
    files w2 (VariantB.csv_filename (VariantB.r_scenario r2))
    = Some (table r2).
Proof.
  intros consistent table (F1 & C1 & K1) (F2 & C2 & K2) Hne.
  destruct (B_export_csv_Ok r1 w F1 C1 K1) as (w1 & E1 & S1 & _).
  destruct (B_export_csv_Ok r2 w1 F2 C2 K2) as (w2 & E2 & S2 & _).
  destruct S1 as (_ & _ & _ & File1 & _).
  destruct S2 as (_ & _ & _ & File2 & O2).
  exists w1, w2. split; [exact E1 |]. split; [exact E2 |].
  split; [| exact File2].
  rewrite O2; [exact File1 |].
  intros Heq. apply Hne. now apply B_csv_filename_inj.
Qed.



Lemma X12_variantB_exports_do_not_clobber_witness :
  let w := empty_world [] [] in
  exists w1 w2,
    VariantB.export_csv full_results w = (Ok tt, w1) /\
    VariantB.export_csv other_results w1 = (Ok tt, w2) /\
    files w2 (VariantB.csv_filename "mixed")
    = Some (VariantB.csv_header
            :: map (VariantB.csv_row_of full_results) (range 2)) /\
    files w2 (VariantB.csv_filename "stateless")
    = Some (VariantB.csv_header
            :: map (VariantB.csv_row_of other_results) (range 2)).
Proof.
  intros w.
  apply (X12_variantB_exports_do_not_clobber full_results other_results w).
  - cbn. lia.
  - cbn. lia.
  - discriminate.
Defined.

(** ** The reseeding of epoch mode *)

Section Reseed.
Context {G : Type} {RS : RandomSource G}.

(** [m] gives the same outcome in two worlds and leaves them with the same
    generators. *)
Let agree {A} (m : M G A) (w1 w2 : World G) : Prop :=
  fst (m w1) = fst (m w2) /\ same_random (snd (m w1)) (snd (m w2)).

Lemma agree_bind {A B} wr (m : M G A) (k : A -> M G B) w1 w2 :
  agree m w1 w2 -> (forall a, confined wr (k a)) ->
  agree (bind m k) w1 w2.
Proof.
  unfold agree, bind. intros [Ho Hr] Hk.
  destruct (m w1) as [[a | e] w1'], (m w2) as [[a2 | e2] w2'];
    cbn [fst snd] in *; try discriminate.
  - injection Ho as <-.
    destruct (Hk a w1' w2' Hr) as (Ho' & Hr' & _). auto.
  - injection Ho as <-. cbn. auto.
Qed.

Lemma agree_lift_Ok {A B} (a : A) (k : A -> M G B) w1 w2 :
  agree (k a) w1 w2 -> agree (bind (lift (Ok a)) k) w1 w2.
Proof. exact (fun H => H). Qed.

Lemma A_reseed_agrees (w1 w2 : World G) :
  np_random w1 = np_random w2 ->
  fst (randint 0 (2 ^ 32 - 1) w1) = fst (randint 0 (2 ^ 32 - 1) w2) ->
  agree (bind (randint 0 (2 ^ 32 - 1)) (fun s => random_seed s)) w1 w2.
Proof.
  intros Hnp Hs. unfold agree, bind, randint, random_seed in *.
  destruct (next_raw (py_random w1)) as [r1 g1].
  destruct (next_raw (py_random w2)) as [r2 g2].
  cbn [fst snd] in Hs |- *.
  apply (f_equal (fun o => match o with
                           | Ok s => seed s
                           | Raise _ => seed 0
                           end)) in Hs.
  split; [reflexivity |]. unfold same_random, set_py. cbn [py_random np_random].
  split; [exact Hs | exact Hnp].
Qed.

Lemma A_epoch_run_agrees (cfg : Config) n scenario (w1 w2 : World G) :
  np_random w1 = np_random w2 ->
  fst (randint 0 (2 ^ 32 - 1) w1) = fst (randint 0 (2 ^ 32 - 1) w2) ->
  agree (VariantA.run_simulation cfg n scenario true) w1 w2.
Proof.
  intros Hnp Hs. unfold VariantA.run_simulation. cbv zeta iota.
  destruct (linspace_Ok (3 # 10) (7 # 10) 600) as (pr & Epr & Lpr); [lia |].
  rewrite Epr. apply agree_lift_Ok.
  destruct (getitem_in_range pr 0) as (p0 & Ep0); [lia |].
  set (wr := fun p => String.eqb p "simulation_results.csv").
  assert (Hwr : wr "simulation_results.csv" = true) by reflexivity.
  apply (agree_bind wr); [| intros st; solve [confine]].
  destruct (range_pos 600) as (rest & ->); [lia |].
  cbn [for_each].
  apply (agree_bind (fun _ => false));
    [| intros st; apply confined_for_each; intros slot st';
       apply A_slot_iter_confined].
  unfold VariantA.slot_iter.
  apply (agree_bind (fun _ => false)); [| intros L; solve [confine]].
  unfold VariantA.slot_body. rewrite Ep0. apply agree_lift_Ok.
  change (true && (0 mod 100 =? 0)) with true. cbv iota.
  apply (agree_bind (fun _ => false));
    [now apply A_reseed_agrees | intros u; solve [confine]].
Qed.
End Reseed.

(** X13: in epoch mode the first thing the slot loop does is to reseed the
    generator of [random] with one draw of [[0, 2^32 - 1]]: the result of
    the run depends on that generator through this one value only.  Two
    runs that start with the same numpy generator and the same first draw
    return the same outcome. *)
Theorem X13_variantA_epoch_mode_reseeds
        {G : Type} {RS : RandomSource G}
        (cfg : Config) (n : Z) (scenario : string) (w1 w2 : World G) :
  np_random w1 = np_random w2 ->
  fst (randint 0 (2 ^ 32 - 1) w1) = fst (randint 0 (2 ^ 32 - 1) w2) ->
  fst (VariantA.run_simulation cfg n scenario true w1)
  = fst (VariantA.run_simulation cfg n scenario true w2).
Proof.
  intros Hnp Hs. now apply A_epoch_run_agrees.
Qed.

Lemma X13_variantA_epoch_mode_reseeds_witness :
  let w1 := empty_world [5; 1; 2] [3; 4] in
  let w2 := empty_world [5 + 2 ^ 32; 9; 9; 9] [3; 4] in
  fst (VariantA.run_simulation two_cores 7 "mixed" true w1)
  = fst (VariantA.run_simulation two_cores 7 "mixed" true w2).
Proof.
  intros w1 w2.
  apply (X13_variantA_epoch_mode_reseeds two_cores 7 "mixed" w1 w2).
  - reflexivity.
  - vm_compute. reflexivity.
Defined.

(** ** Runs without slots *)

Lemma range_nonpos n : n <= 0 -> range n = [].
Proof.
  intros Hn. unfold range. replace (Z.to_nat n) with 0%nat by lia.
  reflexivity.
Qed.

(** X14: a run over zero slots raises [ZeroDivisionError] in both variants
    (the contention rate divides by [num_slots]), whatever the scenario
    tag, without drawing anything or writing a file.  With a negative
    [num_slots] variant A raises the [ValueError] of [np.linspace], while
    variant B returns a result with empty series, [nan] averages and a
    contention rate of zero. *)
Theorem X14_runs_without_slots
        {G : Type} {RS : RandomSource G}
        (cfgA : Config) (cfgB : VariantB.ConfigB)
        (n : Z) (scenario : string) (w : World G) :
  n <= 0 ->
  (n = 0 ->
   VariantA.run_simulation cfgA n scenario false w
   = (Raise ZeroDivisionError, w) /\
   VariantB.run_simulation cfgB n scenario w
   = (Raise ZeroDivisionError, w)) /\
  (n < 0 ->
   VariantA.run_simulation cfgA n scenario false w
   = (Raise (ValueError
               (String.append "Number of samples, "
                  (String.append (str_of_Z n) ", must be non-negative."))),
      w) /\
   exists r,
     VariantB.run_simulation cfgB n scenario w = (Ok r, w) /\
     VariantB.r_effective_series r = [] /\
     VariantB.r_finalized_series r = [] /\
     VariantB.r_contention_series r = [] /\
     VariantB.r_cost_series r = [] /\
     VariantB.r_avg_effective_tps r = NaN /\
     VariantB.r_avg_finalized_tps r = NaN /\
     VariantB.r_avg_cost_per_slot_usd r = NaN /\
     (VariantB.r_contention_rate_pct r == 0)%Q).
Proof.
  intros Hn. split.
  - intros ->. split; reflexivity.
  - intros Hneg. split.
    + unfold VariantA.run_simulation, linspace. cbv zeta iota.
      destruct (n <? 0) eqn:E; [reflexivity |].
      apply Z.ltb_ge in E. lia.
    + unfold VariantB.run_simulation. rewrite range_nonpos by exact Hn.
      cbn [for_each]. unfold bind at 1, ret at 1.
      destruct (n =? 0) eqn:E; [apply Z.eqb_eq in E; lia |].
      unfold bind, ret. eexists. split; [reflexivity |]. cbn.
      repeat split.
Qed.

Lemma X14_runs_without_slots_witness :
  let w := empty_world [7; 11; 13] [1; 2; 3] in
  let cfgB := VariantB.config in
  ((-2) = 0 ->
   VariantA.run_simulation VariantA.config (-2) "mixed" false w
   = (Raise ZeroDivisionError, w) /\
   VariantB.run_simulation cfgB (-2) "mixed" w
   = (Raise ZeroDivisionError, w)) /\
  ((-2) < 0 ->
   VariantA.run_simulation VariantA.config (-2) "mixed" false w
   = (Raise (ValueError
               (String.append "Number of samples, "
                  (String.append (str_of_Z (-2)) ", must be non-negative."))),
      w) /\
   exists r,
     VariantB.run_simulation cfgB (-2) "mixed" w = (Ok r, w) /\
     VariantB.r_effective_series r = [] /\
     VariantB.r_finalized_series r = [] /\
     VariantB.r_contention_series r = [] /\
     VariantB.r_cost_series r = [] /\
     VariantB.r_avg_effective_tps r = NaN /\
     VariantB.r_avg_finalized_tps r = NaN /\
     VariantB.r_avg_cost_per_slot_usd r = NaN /\
     (VariantB.r_contention_rate_pct r == 0)%Q).
Proof.
  intros w cfgB.
  apply (X14_runs_without_slots VariantA.config cfgB (-2) "mixed" w).
  lia.
Defined.

(** ** The cumulative contention of the chart *)

Lemma cumsum_from_length l : forall acc,
  List.length (cumsum_from acc l) = List.length l.
Proof. induction l as [| b l IH]; intros acc; cbn; [| rewrite IH]; auto. Qed.

Lemma count_true_cons b l :
  count_true (b :: l) = (if b then 1 else 0) + count_true l.
Proof. reflexivity. Qed.

Lemma nth_cumsum_from l : forall acc i,
  (i < List.length l)%nat ->
  nth i (cumsum_from acc l) 0 = acc + count_true (firstn (S i) l).
Proof.
  induction l as [| b l IH]; intros acc i Hi; cbn [List.length] in Hi;
    [lia |].
  destruct i as [| i].
  - cbn [cumsum_from nth firstn]. rewrite count_true_cons.
    change (count_true []) with 0. lia.
  - cbn [cumsum_from nth]. rewrite IH by lia.
    change (firstn (S (S i)) (b :: l)) with (b :: firstn (S i) l).
    rewrite count_true_cons. lia.
Qed.

Lemma nth_range i n :
  (i < Z.to_nat n)%nat -> nth i (range n) 0 = Z.of_nat i.
Proof.
  intros Hi. unfold range.
  change 0 with (Z.of_nat 0). rewrite map_nth, seq_nth by exact Hi.
  reflexivity.
Qed.

Lemma pct_between (count i : Z) :
  0 <= i -> 0 <= count <= i + 1 ->
  (0 <= inject_Z count / inject_Z (i + 1) * 100 <= 100)%Q.
Proof.
  intros Hi Hc. apply rate_between; lia.
Qed.

Section Chart.
Variable results : VariantB.Results.
Hypothesis same_length :
  Zlen (VariantB.r_contention_series results)
  = Zlen (VariantB.r_effective_series results).

Let n := Zlen (VariantB.r_effective_series results).
Let flags := VariantB.r_contention_series results.

Lemma B_contention_pct_Ok :
  VariantB.contention_pct results
  = Ok (map (fun cs : Z * Z =>
               (inject_Z (fst cs) / inject_Z (snd cs + 1) * 100)%Q)
            (combine (cumsum flags) (range n))).
Proof.
  unfold VariantB.contention_pct, broadcast. fold n. fold flags.
  replace (Nat.eqb (List.length (cumsum flags)) (List.length (range n)))
    with true; [reflexivity |].
  symmetry. apply Nat.eqb_eq.
  unfold cumsum. rewrite cumsum_from_length, range_length.
  unfold flags, n, Zlen in *. lia.
Qed.

Lemma B_contention_pct_nth (i : nat) :
  (i < Z.to_nat n)%nat ->
  nth i (map (fun cs : Z * Z =>
                (inject_Z (fst cs) / inject_Z (snd cs + 1) * 100)%Q)
             (combine (cumsum flags) (range n))) 0%Q
  = (inject_Z (count_true (firstn (S i) flags))
     / inject_Z (Z.of_nat i + 1) * 100)%Q.
Proof.
  intros Hi.
  assert (Hlen : List.length (cumsum flags) = List.length (range n)).
  { unfold cumsum. rewrite cumsum_from_length, range_length.
    unfold flags, n, Zlen in *. lia. }
  set (f := fun cs : Z * Z =>
              (inject_Z (fst cs) / inject_Z (snd cs + 1) * 100)%Q).
  rewrite (nth_indep _ 0%Q (f (0, 0))).
  - rewrite map_nth, combine_nth by exact Hlen.
    unfold f. cbn [fst snd]. unfold cumsum.
    rewrite nth_cumsum_from, nth_range by
        (try exact Hi; unfold flags, n, Zlen in *; lia).
    rewrite Z.add_0_l. reflexivity.
  - rewrite length_map, length_combine, Hlen, Nat.min_id, range_length.
    exact Hi.
Qed.
End Chart.

(** X15: the series [export_plot] draws for the result of a run has one
    value per slot; value [i] is the number of contended slots among the
    first [i + 1], divided by [i + 1] and multiplied by 100, so it lies
    between 0 and 100, and the last value is that quotient over all the
    slots of the run. *)
Theorem X15_variantB_cumulative_contention
        {G : Type} {RS : RandomSource G}
        (cfg : VariantB.ConfigB) (n : Z) (scenario : string) (w : World G) :
  0 <= finality_delay_slots (VariantB.base cfg) ->
  0 < n ->
  exists r w' pct,
    VariantB.run_simulation cfg n scenario w = (Ok r, w') /\
    VariantB.contention_pct r = Ok pct /\
    Zlen pct = n /\
    (forall i, 0 <= i < n ->
       nth (Z.to_nat i) pct 0%Q
       = (inject_Z (count_true (firstn (Z.to_nat (i + 1))
                                       (VariantB.r_contention_series r)))
          / inject_Z (i + 1) * 100)%Q) /\
    Forall (fun x => (0 <= x <= 100)%Q) pct /\
    nth (Z.to_nat (n - 1)) pct 0%Q
    = (inject_Z (count_true (VariantB.r_contention_series r))
       / inject_Z n * 100)%Q.
Proof.
  intros Hf Hn.
  destruct (B_run_spec cfg Hf n scenario w Hn) as (r & w' & E & _).
  pose proof (B_run_series cfg n scenario w r w' E) as HS. cbv zeta in HS.
  destruct HS as (_ & Hl & He & Hc & _).
  rewrite Z.max_r in Hl by lia.
  assert (Le : Zlen (VariantB.r_effective_series r) = n)
    by (rewrite He; unfold Zlen in *; now rewrite length_map).
  assert (Lc : Zlen (VariantB.r_contention_series r) = n)
    by (rewrite Hc; unfold Zlen in *; now rewrite length_map).
  assert (Hsame : Zlen (VariantB.r_contention_series r)
                  = Zlen (VariantB.r_effective_series r)) by lia.
  pose proof (B_contention_pct_Ok r Hsame) as Epct.
  pose proof (B_contention_pct_nth r Hsame) as Hnth.
  rewrite Le in Epct, Hnth.
  set (pct := map (fun cs : Z * Z =>
                     (inject_Z (fst cs) / inject_Z (snd cs + 1) * 100)%Q)
                  (combine (cumsum (VariantB.r_contention_series r))
                           (range n))) in *.
  assert (Lp : List.length pct = Z.to_nat n).
  { unfold pct. rewrite length_map, length_combine. unfold cumsum.
    rewrite cumsum_from_length, range_length. unfold Zlen in Lc. lia. }
  assert (Hval : forall i, 0 <= i < n ->
            nth (Z.to_nat i) pct 0%Q
            = (inject_Z (count_true (firstn (Z.to_nat (i + 1))
                                            (VariantB.r_contention_series r)))
               / inject_Z (i + 1) * 100)%Q).
  { intros i Hi. rewrite Hnth by lia.
    replace (S (Z.to_nat i)) with (Z.to_nat (i + 1)) by lia.
    rewrite Z2Nat.id by lia. reflexivity. }
  exists r, w', pct. split; [exact E |]. split; [exact Epct |].
  split; [unfold Zlen; lia |]. split; [exact Hval |]. split.
  - apply Forall_forall. intros x Hx.
    apply (In_nth _ _ 0%Q) in Hx as (i & Hi & <-).
    specialize (Hval (Z.of_nat i) ltac:(lia)).
    rewrite Nat2Z.id in Hval. rewrite Hval.
    apply pct_between; [lia |].
    pose proof (count_true_bounds
                  (firstn (Z.to_nat (Z.of_nat i + 1))
                          (VariantB.r_contention_series r))) as Hb.
    unfold Zlen in Hb. rewrite length_firstn in Hb. lia.
  - rewrite Hval by lia.
    replace (n - 1 + 1) with n by lia.
    rewrite firstn_all2 by (unfold Zlen in Lc; lia).
    reflexivity.
Qed.

Lemma X15_variantB_cumulative_contention_witness :
  let w := empty_world [7; 11; 13] [1; 2; 3] in
  exists r w' pct,
    VariantB.run_simulation VariantB.config 3 "mixed" w = (Ok r, w') /\
    VariantB.contention_pct r = Ok pct /\
    Zlen pct = 3 /\
    (forall i, 0 <= i < 3 ->
       nth (Z.to_nat i) pct 0%Q
       = (inject_Z (count_true (firstn (Z.to_nat (i + 1))
                                       (VariantB.r_contention_series r)))
          / inject_Z (i + 1) * 100)%Q) /\
    Forall (fun x => (0 <= x <= 100)%Q) pct /\
    nth (Z.to_nat (3 - 1)) pct 0%Q
    = (inject_Z (count_true (VariantB.r_contention_series r))
       / inject_Z 3 * 100)%Q.
Proof.
  intros w.
  apply (X15_variantB_cumulative_contention VariantB.config 3 "mixed" w).
  - cbn. lia.
  - lia.
Defined.

(** ** Variant A run for several scenarios *)

(** X16: every run of variant A writes the same file, so when the script
    runs one scenario after another (lines 130-132) the table of a run
    replaces that of the run before: after two runs
    [simulation_results.csv] holds the rows of the second result only. *)
Theorem X16_variantA_later_run_replaces_csv
        {G : Type} {RS : RandomSource G}
        (cfg : Config) (n1 n2 : Z) (s1 s2 : string) (w : World G) :
  0 <= finality_delay_slots cfg ->
  VariantA.recognised s1 -> VariantA.recognised s2 ->
  0 < n1 -> 0 < n2 ->
  exists r1 w1 r2 w2,
    VariantA.run_simulation cfg n1 s1 false w = (Ok r1, w1) /\
    VariantA.run_simulation cfg n2 s2 false w1 = (Ok r2, w2) /\
    files w1 "simulation_results.csv"
    = Some (VariantA.csv_header :: map (VariantA.csv_row_of r1) (range n1)) /\
    files w2 "simulation_results.csv"
    = Some (VariantA.csv_header :: map (VariantA.csv_row_of r2) (range n2)) /\
    VariantA.r_scenario r2 = s2.
Proof.
  intros Hf Hs1 Hs2 Hn1 Hn2.
  destruct (A_run_spec cfg n1 s1 false w Hf Hs1 Hn1) as (r1 & w1 & E1 & _).
  destruct (A_run_spec cfg n2 s2 false w1 Hf Hs2 Hn2)
    as (r2 & w2 & E2 & _ & Hsc & _).
  pose proof (A_run_inv cfg n1 s1 false w r1 w1 E1) as H1.
  pose proof (A_run_inv cfg n2 s2 false w1 r2 w2 E2) as H2.
  cbv zeta in H1, H2.
  destruct H1 as (_ & ? & ? & ? & _ & _ & _ & _ & _ & _ & _ & F1 & _).
  destruct H2 as (_ & ? & ? & ? & _ & _ & _ & _ & _ & _ & _ & F2 & _).
  exists r1, w1, r2, w2. repeat split; assumption.
Qed.

Lemma X16_variantA_later_run_replaces_csv_witness :
  let w := empty_world [7; 11; 13] [1; 2; 3] in
  exists r1 w1 r2 w2,
    VariantA.run_simulation two_cores 2 "stateless" false w = (Ok r1, w1) /\
    VariantA.run_simulation two_cores 3 "mixed" false w1 = (Ok r2, w2) /\
    files w1 "simulation_results.csv"
    = Some (VariantA.csv_header :: map (VariantA.csv_row_of r1) (range 2)) /\
    files w2 "simulation_results.csv"
    = Some (VariantA.csv_header :: map (VariantA.csv_row_of r2) (range 3)) /\
    VariantA.r_scenario r2 = "mixed".
Proof.
  intros w.
  apply (X16_variantA_later_run_replaces_csv two_cores 2 3 "stateless"
           "mixed" w).
  - cbn. lia.
  - left. reflexivity.
  - right. right. reflexivity.
  - lia.
  - lia.
Defined.
